(** * Portfolio_Manager: position (cost-basis) engine and Brazilian tax engine

    A shallow embedding of [domain/value_objects.py] (rounding helpers),
    [domain/enums.py], [domain/entities.py] (the fields the engines read),
    [application/position_calculator.py] and [application/tax_calculator.py],
    followed by the properties of the specification, each one settled
    against the embedded code.

    Modelling conventions.
    - A Python [Decimal] is a rational number of [Q].  Python's [==], [<],
      [<=] on decimals compare values, so they are [Qeq], [Qlt], [Qle] here;
      [Decimal("0")] and [Decimal("0.00")] are equal values with different
      representations, exactly as [0 # 1] and [0 # 100] are.
    - Addition, subtraction, multiplication and division are exact.  The
      decimal context of the interpreter (28 significant digits) is not
      part of the model: the development speaks about amounts whose
      intermediate results fit that precision.
    - [quantize(..., rounding=ROUND_HALF_UP)] rounds to the nearest multiple
      of the quantum, ties away from zero.
    - A [dict] is an insertion-ordered association list: assignment to an
      existing key replaces the value in place, assignment to a new key
      appends, iteration follows the list.
    - The mutable objects [_MutablePosition] and [_TickerGlobal] live in the
      two dictionaries of the calculator; a reference to one of them is the
      key it is stored under, and a field assignment rewrites the entry. *)

From Stdlib Require Import ZArith QArith Qround Qabs Lqa Lia List String Ascii Bool.
Import ListNotations.
Open Scope Q_scope.

Set Implicit Arguments.

(* ------------------------------------------------------------------ *)
(** ** Decimals and rounding ([domain/value_objects.py]) *)

Definition Decimal : Type := Q.

Definition ZERO : Decimal := 0.

(** Python's [a < b] and [a <= b] as booleans. *)
Definition Qltb (a b : Q) : bool := negb (Qle_bool b a).
Definition Qleb (a b : Q) : bool := Qle_bool a b.

(** Nearest integer, ties away from zero ([ROUND_HALF_UP]). *)
Definition round_half_up (x : Q) : Z :=
  if Qle_bool 0 x then Qfloor (x + (1 # 2))
  else (- Qfloor (- x + (1 # 2)))%Z.

(** [value.quantize(Decimal(1) / scale, rounding=ROUND_HALF_UP)]. *)
Definition quantize (scale : positive) (value : Decimal) : Decimal :=
  round_half_up (value * (Zpos scale # 1)) # scale.

Definition MONETARY_PRECISION : positive := 100.
Definition FX_PRECISION : positive := 100000000.
Definition QTY_PRECISION : positive := 100000000.

Definition round_monetary (value : Decimal) : Decimal :=
  quantize MONETARY_PRECISION value.

Definition round_fx (value : Decimal) : Decimal :=
  quantize FX_PRECISION value.

Definition round_qty (value : Decimal) : Decimal :=
  quantize QTY_PRECISION value.

(** Python's [abs] and [max] on decimals. *)
Definition dabs (x : Decimal) : Decimal := Qabs x.
Definition dmax (a b : Decimal) : Decimal := if Qle_bool b a then a else b.

(* ------------------------------------------------------------------ *)
(** ** Enumerations ([domain/enums.py]) *)

Inductive AssetClass : Type :=
  ACAO | FII | ETF | BDR | RENDA_FIXA | CRIPTO.

Inductive TransactionType : Type :=
  BUY | SELL | SPLIT | INPLIT | DIVIDEND | JCP | BONUS.

Inductive TradeType : Type := SWING_TRADE | DAY_TRADE.

Inductive Currency : Type := BRL | USD.

Definition AssetClass_eqb (a b : AssetClass) : bool :=
  match a, b with
  | ACAO, ACAO | FII, FII | ETF, ETF | BDR, BDR
  | RENDA_FIXA, RENDA_FIXA | CRIPTO, CRIPTO => true
  | _, _ => false
  end.

Definition TradeType_eqb (a b : TradeType) : bool :=
  match a, b with
  | SWING_TRADE, SWING_TRADE | DAY_TRADE, DAY_TRADE => true
  | _, _ => false
  end.

Definition Currency_eqb (a b : Currency) : bool :=
  match a, b with
  | BRL, BRL | USD, USD => true
  | _, _ => false
  end.

(* ------------------------------------------------------------------ *)
(** ** Value objects ([domain/value_objects.py])

    The frozen dataclass [Money].  [make] is the constructor followed by
    [__post_init__], the only way the code builds one.  An operation that raises [ValueError] on a currency mismatch
    returns [None]. *)

Module Money.
Record t : Type := mk {
  amount : Decimal;
  currency : Currency
}.

Definition make (amount : Decimal) (currency : Currency) : t :=
  mk (round_monetary amount) currency.

(** [__add__] *)
Definition add (self other : t) : option t :=
  if Currency_eqb (currency self) (currency other)
  then Some (make (amount self + amount other) (currency self))
  else None.

(** [__sub__] *)
Definition sub (self other : t) : option t :=
  if Currency_eqb (currency self) (currency other)
  then Some (make (amount self - amount other) (currency self))
  else None.

(** [__mul__], the factor already a decimal. *)
Definition mul (self : t) (factor : Decimal) : t :=
  make (amount self * factor) (currency self).

(** [__neg__] and [__abs__] *)
Definition neg (self : t) : t := make (- amount self) (currency self).
Definition abs (self : t) : t := make (dabs (amount self)) (currency self).

(** [__lt__] and [__le__] *)
Definition lt (self other : t) : option bool :=
  if Currency_eqb (currency self) (currency other)
  then Some (Qltb (amount self) (amount other))
  else None.

Definition le (self other : t) : option bool :=
  if Currency_eqb (currency self) (currency other)
  then Some (Qleb (amount self) (amount other))
  else None.

Definition is_zero (self : t) : bool := Qeq_bool (amount self) 0.
Definition is_positive (self : t) : bool := Qltb 0 (amount self).
Definition is_negative (self : t) : bool := Qltb (amount self) 0.

(** [Money.zero] *)
Definition zero (currency : Currency) : t := make 0 currency.
End Money.

(* ------------------------------------------------------------------ *)
(** ** Dictionaries *)

Section Dict.
Variables K V : Type.
Variable keq : K -> K -> bool.

Definition dict : Type := list (K * V).

(** [d.get(k)] *)
Fixpoint dict_get (d : dict) (k : K) : option V :=
  match d with
  | [] => None
  | (k', v) :: d' => if keq k' k then Some v else dict_get d' k
  end.

(** [d[k] = v] *)
Fixpoint dict_set (d : dict) (k : K) (v : V) : dict :=
  match d with
  | [] => [(k, v)]
  | (k', v') :: d' =>
      if keq k' k then (k', v) :: d' else (k', v') :: dict_set d' k v
  end.

(** [d.get(k, default)] *)
Definition dict_get_default (d : dict) (k : K) (default : V) : V :=
  match dict_get d k with
  | Some v => v
  | None => default
  end.

(** [d.values()] *)
Definition dict_values (d : dict) : list V := map snd d.

Definition dict_keys (d : dict) : list K := map fst d.
End Dict.

Arguments dict_get {K V} keq d k.
Arguments dict_set {K V} keq d k v.
Arguments dict_get_default {K V} keq d k default.
Arguments dict_values {K V} d.
Arguments dict_keys {K V} d.

(* ------------------------------------------------------------------ *)
(** ** Entities ([domain/entities.py]) *)

(** [datetime.date], imported by the calculator as [_date]: year, month, day. *)
Definition _date : Type := (Z * Z * Z)%type.

Module Transaction.
Record t : Type := mk {
  ticker : string;
  asset_class : AssetClass;
  type : TransactionType;
  trade_type : TradeType;
  date : _date;
  quantity : Decimal;
  price : Decimal;
  currency : Currency;
  fx_rate : Decimal;
  institution : string
}.

(** The dataclass constructor followed by [__post_init__]: the price is
    rounded to two places, quantity and FX rate are kept as given. *)
Definition make (ticker : string) (asset_class : AssetClass)
    (type : TransactionType) (trade_type : TradeType) (date : _date)
    (quantity price : Decimal) (currency : Currency) (fx_rate : Decimal)
    (institution : string) : t :=
  mk ticker asset_class type trade_type date quantity
     (round_monetary price) currency fx_rate institution.
End Transaction.

Module Position.
Record t : Type := mk {
  ticker : string;
  asset_class : AssetClass;
  quantity : Decimal;
  avg_price : Decimal;
  currency : Currency;
  total_cost : Decimal;
  institution : string
}.

(** Constructor followed by [__post_init__]. *)
Definition make (ticker : string) (asset_class : AssetClass)
    (quantity avg_price : Decimal) (currency : Currency)
    (total_cost : Decimal) (institution : string) : t :=
  mk ticker asset_class quantity (round_monetary avg_price) currency
     (round_monetary total_cost) institution.

Definition is_open (p : t) : bool := Qltb 0 (quantity p).

(** [market_key]: [f"{self.ticker}@{self.institution}"]. *)
Definition market_key (p : t) : string :=
  (ticker p ++ "@" ++ institution p)%string.
End Position.

Module PortfolioCustodian.
Record t : Type := mk {
  ticker : string;
  institution : string;
  quantity : Decimal
}.
End PortfolioCustodian.

Module TaxResult.
Record t : Type := mk {
  month_ref : string;
  asset_class : AssetClass;
  trade_type : TradeType;
  gross_gain : Decimal;
  accumulated_loss_before : Decimal;
  taxable_gain : Decimal;
  tax_rate : Decimal;
  tax_due : Decimal;
  irrf_withheld : Decimal;
  darf_to_pay : Decimal;
  accumulated_loss_after : Decimal
}.

(** Constructor followed by [__post_init__], which rounds the seven
    monetary attributes and leaves [tax_rate] alone. *)
Definition make (month_ref : string) (asset_class : AssetClass)
    (trade_type : TradeType)
    (gross_gain accumulated_loss_before taxable_gain tax_rate tax_due
     irrf_withheld darf_to_pay accumulated_loss_after : Decimal) : t :=
  mk month_ref asset_class trade_type
     (round_monetary gross_gain)
     (round_monetary accumulated_loss_before)
     (round_monetary taxable_gain)
     tax_rate
     (round_monetary tax_due)
     (round_monetary irrf_withheld)
     (round_monetary darf_to_pay)
     (round_monetary accumulated_loss_after).
End TaxResult.

(* ------------------------------------------------------------------ *)
(** ** Position engine ([application/position_calculator.py]) *)

Module MutablePosition.
Record t : Type := mk {
  ticker : string;
  asset_class : AssetClass;
  currency : Currency;
  institution : string;
  quantity : Decimal;
  avg_price : Decimal;
  total_cost : Decimal
}.

(** [_MutablePosition.__init__] *)
Definition init (ticker : string) (asset_class : AssetClass)
    (currency : Currency) (institution : string) : t :=
  mk ticker asset_class currency institution ZERO ZERO ZERO.

Definition set_quantity (p : t) (q : Decimal) : t :=
  mk (ticker p) (asset_class p) (currency p) (institution p)
     q (avg_price p) (total_cost p).
Definition set_avg_price (p : t) (a : Decimal) : t :=
  mk (ticker p) (asset_class p) (currency p) (institution p)
     (quantity p) a (total_cost p).
Definition set_total_cost (p : t) (c : Decimal) : t :=
  mk (ticker p) (asset_class p) (currency p) (institution p)
     (quantity p) (avg_price p) c.
End MutablePosition.

Module TickerGlobal.
Record t : Type := mk {
  quantity : Decimal;
  total_cost : Decimal;
  avg_price : Decimal
}.

(** [_TickerGlobal.__init__] *)
Definition init : t := mk ZERO ZERO ZERO.

Definition set_quantity (g : t) (q : Decimal) : t :=
  mk q (total_cost g) (avg_price g).
Definition set_total_cost (g : t) (c : Decimal) : t :=
  mk (quantity g) c (avg_price g).
Definition set_avg_price (g : t) (a : Decimal) : t :=
  mk (quantity g) (total_cost g) a.
End TickerGlobal.

Module SaleResult.
Record t : Type := mk {
  ticker : string;
  date : _date;
  trade_type : TradeType;
  asset_class : AssetClass;
  sell_qty : Decimal;
  sell_price : Decimal;
  avg_cost : Decimal;
  proceeds : Decimal;
  cost_of_sold : Decimal;
  gain_loss : Decimal;
  currency : Currency;
  fx_rate : Decimal
}.

Definition gain_loss_brl (sr : t) : Decimal :=
  round_monetary (gain_loss sr * fx_rate sr).

Definition proceeds_brl (sr : t) : Decimal :=
  round_monetary (proceeds sr * fx_rate sr).
End SaleResult.

Module PositionCalculator.
Module MP := MutablePosition.
Module TG := TickerGlobal.
Module Tx := Transaction.

(** The two dictionaries of the instance: [_positions] is keyed by
    ["TICKER@INSTITUTION"], [_globals] by ["TICKER"]. *)
Record t : Type := mk {
  _positions : dict string MP.t;
  _globals : dict string TG.t
}.

(** [PositionCalculator.__init__] *)
Definition init : t := mk [] [].

Definition reset (self : t) : t := mk [] [].

Definition set_positions (self : t) (ps : dict string MP.t) : t :=
  mk ps (_globals self).
Definition set_globals (self : t) (gs : dict string TG.t) : t :=
  mk (_positions self) gs.

(** The key built by [process]: [f"{tx.ticker}@{tx.institution}"]. *)
Definition position_key (ticker institution : string) : string :=
  (ticker ++ "@" ++ institution)%string.

(** Field assignments through the reference [pos], which is the object
    stored under [key]. *)
Definition update_position (self : t) (key : string) (f : MP.t -> MP.t) : t :=
  match dict_get String.eqb (_positions self) key with
  | Some pos => set_positions self (dict_set String.eqb (_positions self) key (f pos))
  | None => self
  end.

(** [_get_global]: the aggregate of the ticker, created on first use. *)
Definition _get_global (self : t) (ticker : string) : TG.t * t :=
  match dict_get String.eqb (_globals self) ticker with
  | Some g => (g, self)
  | None =>
      (TG.init, set_globals self (dict_set String.eqb (_globals self) ticker TG.init))
  end.

(** Field assignments through the reference [g] returned by
    [_get_global]. *)
Definition store_global (self : t) (ticker : string) (g : TG.t) : t :=
  set_globals self (dict_set String.eqb (_globals self) ticker g).

(** The body of the loop of [_sync_avg_price] for one row. *)
Definition sync_row (ticker : string) (g : TG.t) (pos : MP.t) : MP.t :=
  if String.eqb (MP.ticker pos) ticker then
    MP.set_total_cost (MP.set_avg_price pos (TG.avg_price g))
      (if Qltb ZERO (MP.quantity pos)
       then round_monetary (MP.quantity pos * TG.avg_price g)
       else ZERO)
  else pos.

Definition _sync_avg_price (self : t) (ticker : string) : t :=
  match dict_get String.eqb (_globals self) ticker with
  | None => self
  | Some g =>
      set_positions self
        (map (fun kv => (fst kv, sync_row ticker g (snd kv))) (_positions self))
  end.

(** The accumulation loop of [_recalc_global]. *)
Definition recalc_totals (ticker : string) (rows : list MP.t) : Decimal * Decimal :=
  fold_left
    (fun acc pos =>
       if String.eqb (MP.ticker pos) ticker then
         (round_qty (fst acc + MP.quantity pos),
          round_monetary (snd acc + MP.total_cost pos))
       else acc)
    rows (ZERO, ZERO).

Definition _recalc_global (self : t) (ticker : string) : t :=
  let (total_qty, total_cost) :=
    recalc_totals ticker (dict_values (_positions self)) in
  let (g, self) := _get_global self ticker in
  let g := TG.set_quantity g total_qty in
  let g := TG.set_total_cost g total_cost in
  let g := TG.set_avg_price g
             (if Qltb ZERO total_qty
              then round_monetary (total_cost / total_qty)
              else ZERO) in
  let self := store_global self ticker g in
  _sync_avg_price self ticker.

Definition _buy (self : t) (key : string) (tx : Tx.t) : option SaleResult.t * t :=
  let buy_qty := Tx.quantity tx in
  let buy_cost := round_monetary (Tx.quantity tx * Tx.price tx) in
  let self := update_position self key (fun pos =>
    let pos := MP.set_quantity pos (round_qty (MP.quantity pos + buy_qty)) in
    MP.set_total_cost pos (round_monetary (MP.total_cost pos + buy_cost))) in
  let (g, self) := _get_global self (Tx.ticker tx) in
  let g := TG.set_quantity g (round_qty (TG.quantity g + buy_qty)) in
  let g := TG.set_total_cost g (round_monetary (TG.total_cost g + buy_cost)) in
  let g := TG.set_avg_price g
             (if Qltb ZERO (TG.quantity g)
              then round_monetary (TG.total_cost g / TG.quantity g)
              else ZERO) in
  let self := store_global self (Tx.ticker tx) g in
  let self := _sync_avg_price self (Tx.ticker tx) in
  (None, self).

Definition _sell (self : t) (key : string) (tx : Tx.t) : option SaleResult.t * t :=
  let sell_qty := Tx.quantity tx in
  let sell_price := Tx.price tx in
  let (g, self) := _get_global self (Tx.ticker tx) in
  let avg := TG.avg_price g in
  let cost_of_sold := round_monetary (sell_qty * avg) in
  let proceeds := round_monetary (sell_qty * sell_price) in
  let gain_loss := round_monetary (proceeds - cost_of_sold) in
  let self := update_position self key (fun pos =>
    let new_qty := round_qty (MP.quantity pos - sell_qty) in
    if Qleb new_qty ZERO then
      MP.set_total_cost (MP.set_quantity pos ZERO) ZERO
    else
      MP.set_total_cost (MP.set_quantity pos new_qty)
        (round_monetary (new_qty * avg))) in
  let g := TG.set_quantity g (round_qty (TG.quantity g - sell_qty)) in
  let g :=
    if Qleb (TG.quantity g) ZERO then
      TG.set_avg_price (TG.set_total_cost (TG.set_quantity g ZERO) ZERO) ZERO
    else
      TG.set_total_cost g (round_monetary (TG.quantity g * avg)) in
  let self := store_global self (Tx.ticker tx) g in
  let self := _sync_avg_price self (Tx.ticker tx) in
  (Some (SaleResult.mk (Tx.ticker tx) (Tx.date tx) (Tx.trade_type tx)
           (Tx.asset_class tx) sell_qty sell_price avg proceeds
           cost_of_sold gain_loss (Tx.currency tx) (Tx.fx_rate tx)),
   self).

Definition _split (self : t) (key : string) (tx : Tx.t) : option SaleResult.t * t :=
  let factor := Tx.quantity tx in
  if Qleb factor ZERO then (None, self)
  else
    let self := update_position self key (fun pos =>
      MP.set_quantity pos (round_qty (MP.quantity pos * factor))) in
    let (g, self) := _get_global self (Tx.ticker tx) in
    let g := TG.set_quantity g (round_qty (TG.quantity g * (factor - 1))) in
    let self := store_global self (Tx.ticker tx) g in
    (None, _recalc_global self (Tx.ticker tx)).

Definition _inplit (self : t) (key : string) (tx : Tx.t) : option SaleResult.t * t :=
  let factor := Tx.quantity tx in
  if Qleb factor ZERO then (None, self)
  else
    let self := update_position self key (fun pos =>
      MP.set_quantity pos (round_qty (MP.quantity pos / factor))) in
    (None, _recalc_global self (Tx.ticker tx)).

Definition _bonus (self : t) (key : string) (tx : Tx.t) : option SaleResult.t * t :=
  let bonus_qty := Tx.quantity tx in
  let self := update_position self key (fun pos =>
    MP.set_quantity pos (round_qty (MP.quantity pos + bonus_qty))) in
  let (g, self) := _get_global self (Tx.ticker tx) in
  let g := TG.set_quantity g (round_qty (TG.quantity g + bonus_qty)) in
  let g := TG.set_avg_price g
             (if Qltb ZERO (TG.quantity g)
              then round_monetary (TG.total_cost g / TG.quantity g)
              else ZERO) in
  let self := store_global self (Tx.ticker tx) g in
  let self := _sync_avg_price self (Tx.ticker tx) in
  (None, self).

(** The first statements of [process]: the row of [key] is created when
    the dictionary has none. *)
Definition ensure_position (self : t) (key : string) (tx : Tx.t) : t :=
  match dict_get String.eqb (_positions self) key with
  | Some _ => self
  | None =>
      set_positions self
        (dict_set String.eqb (_positions self) key
           (MP.init (Tx.ticker tx) (Tx.asset_class tx) (Tx.currency tx)
              (Tx.institution tx)))
  end.

(** [process]: the row of [key] is created on first reference, before
    the dispatch on the transaction type. *)
Definition process (self : t) (tx : Tx.t) : option SaleResult.t * t :=
  let key := position_key (Tx.ticker tx) (Tx.institution tx) in
  let self := ensure_position self key tx in
  match Tx.type tx with
  | BUY => _buy self key tx
  | SELL => _sell self key tx
  | SPLIT => _split self key tx
  | INPLIT => _inplit self key tx
  | BONUS => _bonus self key tx
  | DIVIDEND | JCP => (None, self)
  end.

(** [get_positions]: one sealed [Position] per row, in dictionary order
    (the consistency hash set by [seal] is not modelled). *)
Definition get_positions (self : t) : list Position.t :=
  map (fun pos =>
         Position.make (MP.ticker pos) (MP.asset_class pos) (MP.quantity pos)
           (MP.avg_price pos) (MP.currency pos) (MP.total_cost pos)
           (MP.institution pos))
      (dict_values (_positions self)).

Definition get_open_positions (self : t) : list Position.t :=
  filter Position.is_open (get_positions self).

(** Feeding a list of transactions in order, keeping the last state. *)
Definition process_all (self : t) (txs : list Tx.t) : t :=
  fold_left (fun s tx => snd (process s tx)) txs self.

(** States reachable from a fresh calculator by calls to [process]. *)
Inductive reachable : t -> Prop :=
| reachable_init : reachable init
| reachable_step : forall s tx, reachable s -> reachable (snd (process s tx)).
End PositionCalculator.

(** Step 3 of [RebuildAllUseCase.execute] ([application/use_cases.py]):
    a fresh calculator is fed the transactions in order and the sale
    events that [process] returns are appended to [sale_results]. *)
Definition rebuild_step (acc : PositionCalculator.t * list SaleResult.t)
    (tx : Transaction.t) : PositionCalculator.t * list SaleResult.t :=
  let (sr, calc) := PositionCalculator.process (fst acc) tx in
  (calc, match sr with
         | Some sale => snd acc ++ [sale]
         | None => snd acc
         end).

Definition rebuild_positions (transactions : list Transaction.t)
    : PositionCalculator.t * list SaleResult.t :=
  fold_left rebuild_step transactions (PositionCalculator.init, []).

(** [RebuildAllUseCase._build_custodians]
    ([application/use_cases.py]). *)
Definition _build_custodians (positions : list Position.t)
    : list PortfolioCustodian.t :=
  map (fun p => PortfolioCustodian.mk (Position.ticker p)
                  (Position.institution p) (Position.quantity p))
      (filter (fun p => Qltb ZERO (Position.quantity p)) positions).

(* ------------------------------------------------------------------ *)
(** ** Tax engine ([application/tax_calculator.py]) *)

Module TaxCalculatorBR.

Definition SWING_TRADE_RATE : Decimal := 15 # 100.
Definition DAY_TRADE_RATE : Decimal := 20 # 100.
Definition IRRF_SWING_RATE : Decimal := 5 # 100000.
Definition IRRF_DAY_RATE : Decimal := 1 # 100.
Definition MONTHLY_EXEMPTION_LIMIT : Decimal := 2000000 # 100.

(** Keys of the groups and of the loss ledger: [(asset_class, trade_type)]. *)
Definition group_key : Type := (AssetClass * TradeType)%type.

Definition key_eqb (a b : group_key) : bool :=
  AssetClass_eqb (fst a) (fst b) && TradeType_eqb (snd a) (snd b).

(** The caller-owned ledger [{(AssetClass, TradeType): Decimal}]. *)
Definition ledger : Type := dict group_key Decimal.

Definition _rate (trade_type : TradeType) : Decimal :=
  if TradeType_eqb trade_type DAY_TRADE then DAY_TRADE_RATE else SWING_TRADE_RATE.

Definition _compute_irrf (trade_type : TradeType)
    (total_proceeds_brl total_gain_brl : Decimal) : Decimal :=
  if TradeType_eqb trade_type DAY_TRADE then
    if Qltb ZERO total_gain_brl
    then round_monetary (total_gain_brl * IRRF_DAY_RATE)
    else ZERO
  else round_monetary (total_proceeds_brl * IRRF_SWING_RATE).

(** [groups[(sr.asset_class, sr.trade_type)].append(sr)] on a
    [defaultdict(list)]. *)
Definition group_append (groups : dict group_key (list SaleResult.t))
    (sr : SaleResult.t) : dict group_key (list SaleResult.t) :=
  let k := (SaleResult.asset_class sr, SaleResult.trade_type sr) in
  dict_set key_eqb groups k (dict_get_default key_eqb groups k [] ++ [sr]).

Definition group_sales (sale_results : list SaleResult.t)
    : dict group_key (list SaleResult.t) :=
  fold_left group_append sale_results [].

(** [sum(...)] over decimals, starting from [0]. *)
Definition dsum (xs : list Decimal) : Decimal :=
  fold_left Qplus xs 0.

Definition total_gain_brl (sales : list SaleResult.t) : Decimal :=
  dsum (map SaleResult.gain_loss_brl sales).

Definition total_proceeds_brl (sales : list SaleResult.t) : Decimal :=
  dsum (map SaleResult.proceeds_brl sales).

(** The test of the monthly exemption. *)
Definition is_exempt (k : group_key) (sales : list SaleResult.t) : bool :=
  TradeType_eqb (snd k) SWING_TRADE
  && AssetClass_eqb (fst k) ACAO
  && Qleb (total_proceeds_brl sales) MONTHLY_EXEMPTION_LIMIT.

(** One iteration of the loop over [groups.items()]: the result appended
    and the ledger after the iteration. *)
Definition tax_group (accumulated_losses : ledger) (month_ref : string)
    (k : group_key) (sales : list SaleResult.t) : TaxResult.t * ledger :=
  let (asset_class, trade_type) := k in
  let total_gain_brl := total_gain_brl sales in
  let total_proceeds_brl := total_proceeds_brl sales in
  if is_exempt k sales then
    (TaxResult.make month_ref asset_class trade_type total_gain_brl
       (dict_get_default key_eqb accumulated_losses (asset_class, trade_type) ZERO)
       ZERO SWING_TRADE_RATE ZERO ZERO ZERO
       (dict_get_default key_eqb accumulated_losses (asset_class, trade_type) ZERO),
     accumulated_losses)
  else
    let loss_key := (asset_class, trade_type) in
    let acc_loss := dict_get_default key_eqb accumulated_losses loss_key ZERO in
    if Qltb total_gain_brl ZERO then
      let new_acc_loss := round_monetary (acc_loss + dabs total_gain_brl) in
      (TaxResult.make month_ref asset_class trade_type total_gain_brl acc_loss
         ZERO (_rate trade_type) ZERO ZERO ZERO new_acc_loss,
       dict_set key_eqb accumulated_losses loss_key new_acc_loss)
    else
      let taxable := round_monetary (total_gain_brl - acc_loss) in
      if Qltb taxable ZERO then
        let remaining_loss := round_monetary (dabs taxable) in
        (TaxResult.make month_ref asset_class trade_type total_gain_brl acc_loss
           ZERO (_rate trade_type) ZERO ZERO ZERO remaining_loss,
         dict_set key_eqb accumulated_losses loss_key remaining_loss)
      else
        let rate := _rate trade_type in
        let tax_due := round_monetary (taxable * rate) in
        let irrf := _compute_irrf trade_type total_proceeds_brl total_gain_brl in
        let darf := round_monetary (dmax (tax_due - irrf) ZERO) in
        (TaxResult.make month_ref asset_class trade_type total_gain_brl acc_loss
           taxable rate tax_due irrf darf ZERO,
         dict_set key_eqb accumulated_losses loss_key ZERO).

(** The body of the loop over [groups.items()]: [acc] is the pair of
    [results] and the ledger so far. *)
Definition tax_step (month_ref : string) (acc : list TaxResult.t * ledger)
    (kv : group_key * list SaleResult.t) : list TaxResult.t * ledger :=
  let (r, l) := tax_group (snd acc) month_ref (fst kv) (snd kv) in
  (fst acc ++ [r], l).

(** The loop over the groups, threading the results and the ledger. *)
Definition tax_groups (groups : dict group_key (list SaleResult.t))
    (accumulated_losses : ledger) (month_ref : string)
    : list TaxResult.t * ledger :=
  fold_left (tax_step month_ref) groups ([], accumulated_losses).

(** [calculate_monthly_tax]: the list returned and the ledger as the call
    leaves it. *)
Definition calculate_monthly_tax (sale_results : list SaleResult.t)
    (accumulated_losses : ledger) (month_ref : string)
    : list TaxResult.t * ledger :=
  tax_groups (group_sales sale_results) accumulated_losses month_ref.

End TaxCalculatorBR.

(* ------------------------------------------------------------------ *)
(** ** Scenario A of the specification *)

Module ScenarioA.
Import PositionCalculator.

(** BUY 100 @ 30.00, BUY 50 @ 36.00 and SELL 40 @ 35.00 on one ticker at
    one institution; the remaining attributes are free. *)
Section Transactions.
Variables (ticker institution : string).
Variables (asset_class : AssetClass) (trade_type : TradeType).
Variables (d1 d2 d3 : _date) (currency : Currency) (fx_rate : Decimal).

Definition buy_100_at_30 : Transaction.t :=
  Transaction.make ticker asset_class BUY trade_type d1 100 30 currency
    fx_rate institution.

Definition buy_50_at_36 : Transaction.t :=
  Transaction.make ticker asset_class BUY trade_type d2 50 36 currency
    fx_rate institution.

Definition sell_40_at_35 : Transaction.t :=
  Transaction.make ticker asset_class SELL trade_type d3 40 35 currency
    fx_rate institution.

Definition after_buys : PositionCalculator.t :=
  process_all init [buy_100_at_30; buy_50_at_36].

Definition after_sell : option SaleResult.t * PositionCalculator.t :=
  process after_buys sell_40_at_35.
End Transactions.

End ScenarioA.

(* ------------------------------------------------------------------ *)
(** ** Vocabulary of the properties *)

(** A decimal with no digit beyond the quantum [1 / scale]. *)
Definition quantized (scale : positive) (x : Decimal) : Prop :=
  exists z : Z, x == z # scale.

(** [r] is the tax result of the group [k] in the list a call returned:
    it is in the list, carries the key, and no other result does. *)
Definition result_of (results : list TaxResult.t)
    (k : TaxCalculatorBR.group_key) (r : TaxResult.t) : Prop :=
  In r results
  /\ TaxResult.asset_class r = fst k
  /\ TaxResult.trade_type r = snd k
  /\ forall r', In r' results ->
       TaxResult.asset_class r' = fst k ->
       TaxResult.trade_type r' = snd k -> r' = r.

(** The fields of a row, of an aggregate and of a whole calculator hold
    quantized decimals: quantities to eight places, amounts to two. *)
Definition row_quantized (pos : MutablePosition.t) : Prop :=
  quantized QTY_PRECISION (MutablePosition.quantity pos)
  /\ quantized MONETARY_PRECISION (MutablePosition.avg_price pos)
  /\ quantized MONETARY_PRECISION (MutablePosition.total_cost pos).

Definition global_quantized (g : TickerGlobal.t) : Prop :=
  quantized QTY_PRECISION (TickerGlobal.quantity g)
  /\ quantized MONETARY_PRECISION (TickerGlobal.avg_price g)
  /\ quantized MONETARY_PRECISION (TickerGlobal.total_cost g).

Definition state_quantized (s : PositionCalculator.t) : Prop :=
  Forall (fun kv => row_quantized (snd kv)) (PositionCalculator._positions s)
  /\ Forall (fun kv => global_quantized (snd kv)) (PositionCalculator._globals s).

(** The character [@], which [process] puts between ticker and
    institution, occurs in the string. *)
Fixpoint contains_at (s : string) : bool :=
  match s with
  | EmptyString => false
  | String c s' => Ascii.eqb c "@" || contains_at s'
  end.

(** Every row is stored under the key of its own ticker and institution,
    no key twice, and no ticker holds an [@]. *)
Definition keys_consistent (s : PositionCalculator.t) : Prop :=
  NoDup (dict_keys (PositionCalculator._positions s))
  /\ forall k pos, In (k, pos) (PositionCalculator._positions s) ->
       k = PositionCalculator.position_key (MutablePosition.ticker pos)
             (MutablePosition.institution pos)
       /\ contains_at (MutablePosition.ticker pos) = false.

(** The invariant of the cached average: a row holding a positive
    quantity carries the average price of the aggregate of its ticker. *)
Definition avg_price_synced (s : PositionCalculator.t) (ticker : string) : Prop :=
  forall k pos, In (k, pos) (PositionCalculator._positions s) ->
    MutablePosition.ticker pos = ticker ->
    0 < MutablePosition.quantity pos ->
    exists g, dict_get String.eqb (PositionCalculator._globals s) ticker = Some g
              /\ MutablePosition.avg_price pos = TickerGlobal.avg_price g.

(** States reachable from a fresh calculator by transactions whose
    tickers hold no [@]. *)
Inductive reachable_without_at : PositionCalculator.t -> Prop :=
| reachable_without_at_init : reachable_without_at PositionCalculator.init
| reachable_without_at_step : forall s tx,
    reachable_without_at s ->
    contains_at (Transaction.ticker tx) = false ->
    reachable_without_at (snd (PositionCalculator.process s tx)).

(** The sale events of a list that carry the key [k], in order. *)
Definition sales_of (k : TaxCalculatorBR.group_key)
    (sale_results : list SaleResult.t) : list SaleResult.t :=
  filter (fun sr => TaxCalculatorBR.key_eqb
                      (SaleResult.asset_class sr, SaleResult.trade_type sr) k)
         sale_results.

(** The key of a tax result. *)
Definition result_key (r : TaxResult.t) : TaxCalculatorBR.group_key :=
  (TaxResult.asset_class r, TaxResult.trade_type r).

(** The key of a sale event: the pair the grouping loop reads off it. *)
Definition sale_key (sr : SaleResult.t) : TaxCalculatorBR.group_key :=
  (SaleResult.asset_class sr, SaleResult.trade_type sr).

(** The keys of a list, each one at the place of its first appearance:
    the head comes first, and its later repeats are dropped from what the
    rest of the list gives. *)
Fixpoint first_appearances (ks : list TaxCalculatorBR.group_key)
    : list TaxCalculatorBR.group_key :=
  match ks with
  | [] => []
  | k :: rest =>
      k :: filter (fun k' => negb (TaxCalculatorBR.key_eqb k k'))
             (first_appearances rest)
  end.

(** No field of a row, an aggregate or a calculator is negative. *)
Definition row_nonneg (pos : MutablePosition.t) : Prop :=
  0 <= MutablePosition.quantity pos
  /\ 0 <= MutablePosition.avg_price pos
  /\ 0 <= MutablePosition.total_cost pos.

Definition global_nonneg (g : TickerGlobal.t) : Prop :=
  0 <= TickerGlobal.quantity g
  /\ 0 <= TickerGlobal.avg_price g
  /\ 0 <= TickerGlobal.total_cost g.

Definition state_nonneg (s : PositionCalculator.t) : Prop :=
  Forall (fun kv => row_nonneg (snd kv)) (PositionCalculator._positions s)
  /\ Forall (fun kv => global_nonneg (snd kv)) (PositionCalculator._globals s).

(** States reachable from a fresh calculator by transactions whose
    quantity and price are not negative. *)
Inductive reachable_nonneg : PositionCalculator.t -> Prop :=
| reachable_nonneg_init : reachable_nonneg PositionCalculator.init
| reachable_nonneg_step : forall s tx,
    reachable_nonneg s ->
    0 <= Transaction.quantity tx -> 0 <= Transaction.price tx ->
    reachable_nonneg (snd (PositionCalculator.process s tx)).

(** The total cost of a row is the one [_sync_avg_price] derives from
    the quantity and the cached average price of the row. *)
Definition cost_synced (pos : MutablePosition.t) : Prop :=
  MutablePosition.total_cost pos
  = if Qltb ZERO (MutablePosition.quantity pos)
    then round_monetary (MutablePosition.quantity pos
                         * MutablePosition.avg_price pos)
    else ZERO.

(** The transaction is a SELL. *)
Definition is_sell (tx : Transaction.t) : bool :=
  match Transaction.type tx with
  | SELL => true
  | _ => false
  end.

(** The sale event [sr] reports the SELL [tx]: same ticker, date, trade
    type, asset class, quantity, price, currency and FX rate. *)
Definition sale_of_tx (tx : Transaction.t) (sr : SaleResult.t) : Prop :=
  SaleResult.ticker sr = Transaction.ticker tx
  /\ SaleResult.date sr = Transaction.date tx
  /\ SaleResult.trade_type sr = Transaction.trade_type tx
  /\ SaleResult.asset_class sr = Transaction.asset_class tx
  /\ SaleResult.sell_qty sr = Transaction.quantity tx
  /\ SaleResult.sell_price sr = Transaction.price tx
  /\ SaleResult.currency sr = Transaction.currency tx
  /\ SaleResult.fx_rate sr = Transaction.fx_rate tx.

(** Transactions on the stock PETR4 in BRL, as the test-suite builds
    them, and the calculator after a list of them. *)
Definition sample_tx (type : TransactionType) (quantity price : Decimal)
    (institution : string) : Transaction.t :=
  Transaction.make "PETR4" ACAO type SWING_TRADE (2025, 1, 15)%Z quantity
    price BRL 1 institution.

Definition sample_tx_of (ticker : string) (type : TransactionType)
    (quantity price : Decimal) (institution : string) : Transaction.t :=
  Transaction.make ticker ACAO type SWING_TRADE (2025, 1, 15)%Z quantity
    price BRL 1 institution.

Definition replay (txs : list Transaction.t) : PositionCalculator.t :=
  PositionCalculator.process_all PositionCalculator.init txs.

(** Sale events of the month 2025-03 with given BRL gain and proceeds, as
    the test-suite builds them. *)
Definition sample_sale (gain_loss proceeds : Decimal)
    (asset_class : AssetClass) (trade_type : TradeType) : SaleResult.t :=
  SaleResult.mk "TEST" (2025, 3, 15)%Z trade_type asset_class 100 10 9
    proceeds (proceeds - gain_loss) gain_loss BRL 1.

(* ================================================================== *)
(** * Properties *)

(* ------------------------------------------------------------------ *)
(** ** Comparisons *)

Lemma Qltb_true (a b : Q) : Qltb a b = true <-> a < b.
Proof.
  unfold Qltb. rewrite negb_true_iff. split; intro H.
  - apply Qnot_le_lt. intro Hle. apply Qle_bool_iff in Hle. congruence.
  - destruct (Qle_bool b a) eqn:E; [|reflexivity].
    apply Qle_bool_iff in E. exfalso. apply (Qlt_not_le _ _ H E).
Qed.

Lemma Qltb_false (a b : Q) : Qltb a b = false <-> b <= a.
Proof.
  unfold Qltb. rewrite negb_false_iff. apply Qle_bool_iff.
Qed.

Lemma Qleb_true (a b : Q) : Qleb a b = true <-> a <= b.
Proof. apply Qle_bool_iff. Qed.

Lemma Qleb_false (a b : Q) : Qleb a b = false <-> b < a.
Proof.
  unfold Qleb. split; intro H.
  - apply Qnot_le_lt. intro Hle. apply Qle_bool_iff in Hle. congruence.
  - destruct (Qle_bool a b) eqn:E; [|reflexivity].
    apply Qle_bool_iff in E. exfalso. apply (Qlt_not_le _ _ H E).
Qed.

#[export] Instance Qltb_comp : Proper (Qeq ==> Qeq ==> eq) Qltb.
Proof. intros a b Hab c d Hcd. unfold Qltb. now rewrite Hab, Hcd. Qed.

#[export] Instance Qleb_comp' : Proper (Qeq ==> Qeq ==> eq) Qleb.
Proof. intros a b Hab c d Hcd. unfold Qleb. now rewrite Hab, Hcd. Qed.

(* ------------------------------------------------------------------ *)
(** ** Rounding half up *)

Lemma round_half_up_bounds (x : Q) :
  inject_Z (round_half_up x) - (1 # 2) <= x
  /\ x <= inject_Z (round_half_up x) + (1 # 2).
Proof.
  unfold round_half_up. destruct (Qle_bool 0 x) eqn:E.
  - pose proof (Qfloor_le (x + (1 # 2))) as Hlo.
    pose proof (Qlt_floor (x + (1 # 2))) as Hhi.
    rewrite inject_Z_plus in Hhi. change (inject_Z 1) with 1 in Hhi.
    split; lra.
  - pose proof (Qfloor_le (- x + (1 # 2))) as Hlo.
    pose proof (Qlt_floor (- x + (1 # 2))) as Hhi.
    rewrite inject_Z_plus in Hhi. change (inject_Z 1) with 1 in Hhi.
    rewrite inject_Z_opp. split; lra.
Qed.

#[export] Instance round_half_up_comp : Proper (Qeq ==> eq) round_half_up.
Proof.
  intros x y Hxy. unfold round_half_up. rewrite Hxy.
  destruct (Qle_bool 0 y); now rewrite Hxy.
Qed.

Lemma round_half_up_unique (x : Q) (z : Z) :
  inject_Z z - (1 # 2) < x -> x < inject_Z z + (1 # 2) ->
  round_half_up x = z.
Proof.
  intros Hlo Hhi. destruct (round_half_up_bounds x) as [Blo Bhi].
  assert (H1 : inject_Z (round_half_up x) < inject_Z (z + 1)).
  { rewrite inject_Z_plus. change (inject_Z 1) with 1. lra. }
  assert (H2 : inject_Z z < inject_Z (round_half_up x + 1)).
  { rewrite inject_Z_plus. change (inject_Z 1) with 1. lra. }
  rewrite <- Zlt_Qlt in H1, H2. lia.
Qed.

Lemma round_half_up_Z (z : Z) : round_half_up (inject_Z z) = z.
Proof. apply round_half_up_unique; lra. Qed.

Lemma round_half_up_mono (x y : Q) :
  x <= y -> (round_half_up x <= round_half_up y)%Z.
Proof.
  intros Hxy. unfold round_half_up.
  destruct (Qle_bool 0 x) eqn:Ex, (Qle_bool 0 y) eqn:Ey.
  - apply Qfloor_resp_le. lra.
  - apply Qle_bool_iff in Ex. apply (Qleb_false 0 y) in Ey. lra.
  - apply (Qleb_false 0 x) in Ex. apply Qle_bool_iff in Ey.
    assert (H1 : (0 <= Qfloor (- x + (1 # 2)))%Z).
    { rewrite <- (Qfloor_Z 0). apply Qfloor_resp_le. change (inject_Z 0) with 0. lra. }
    assert (H2 : (0 <= Qfloor (y + (1 # 2)))%Z).
    { rewrite <- (Qfloor_Z 0). apply Qfloor_resp_le. change (inject_Z 0) with 0. lra. }
    lia.
  - assert (H : (Qfloor (- y + (1 # 2)) <= Qfloor (- x + (1 # 2)))%Z).
    { apply Qfloor_resp_le. lra. }
    lia.
Qed.

Lemma round_half_up_opp (x : Q) : round_half_up (- x) = (- round_half_up x)%Z.
Proof.
  destruct (round_half_up_bounds x) as [Blo Bhi].
  destruct (Qlt_le_dec x 0) as [Hneg | Hpos].
  - unfold round_half_up.
    assert (E1 : Qle_bool 0 (- x) = true) by (apply Qle_bool_iff; lra).
    assert (E2 : Qle_bool 0 x = false) by (apply (Qleb_false 0 x); lra).
    rewrite E1, E2. lia.
  - destruct (Qlt_le_dec 0 x) as [Hpos' | Hzero].
    + unfold round_half_up.
      assert (E1 : Qle_bool 0 (- x) = false) by (apply (Qleb_false 0 (- x)); lra).
      assert (E2 : Qle_bool 0 x = true) by (apply Qle_bool_iff; lra).
      rewrite E1, E2.
      assert (E : - - x + (1 # 2) == x + (1 # 2)) by lra.
      now rewrite E.
    + assert (E : x == inject_Z 0) by (change (inject_Z 0) with 0; lra).
      assert (E' : - x == inject_Z 0) by (change (inject_Z 0) with 0; lra).
      rewrite E' at 1. rewrite E. now rewrite round_half_up_Z.
Qed.

(* ------------------------------------------------------------------ *)
(** ** Quantized decimals *)

Lemma Qmake_scale (z : Z) (s : positive) : z # s == inject_Z z * (1 # s).
Proof. unfold Qeq, Qmult, inject_Z. simpl. lia. Qed.

Lemma Qmake_inj (a b : Z) (s : positive) : a # s == b # s -> a = b.
Proof. unfold Qeq. simpl. nia. Qed.

#[export] Instance quantize_comp (s : positive) : Proper (Qeq ==> eq) (quantize s).
Proof. intros x y Hxy. unfold quantize. now rewrite Hxy. Qed.

#[export] Instance round_monetary_comp : Proper (Qeq ==> eq) round_monetary.
Proof. apply quantize_comp. Qed.

#[export] Instance round_qty_comp : Proper (Qeq ==> eq) round_qty.
Proof. apply quantize_comp. Qed.

Lemma quantize_Qmake (s : positive) (z : Z) : quantize s (z # s) = z # s.
Proof.
  unfold quantize. f_equal.
  assert (E : (z # s) * (Z.pos s # 1) == inject_Z z).
  { unfold Qeq, Qmult, inject_Z. simpl. lia. }
  rewrite E. apply round_half_up_Z.
Qed.

Lemma quantize_idem (s : positive) (x : Q) :
  quantize s (quantize s x) = quantize s x.
Proof. unfold quantize at 2 3. apply quantize_Qmake. Qed.

Lemma quantize_mono (s : positive) (x y : Q) :
  x <= y -> quantize s x <= quantize s y.
Proof.
  intros Hxy. unfold quantize.
  assert (H : (round_half_up (x * (Z.pos s # 1))
               <= round_half_up (y * (Z.pos s # 1)))%Z).
  { apply round_half_up_mono. apply Qmult_le_compat_r; [exact Hxy|].
    unfold Qle. simpl. lia. }
  unfold Qle. simpl. nia.
Qed.

Lemma quantize_opp (s : positive) (x : Q) : quantize s (- x) == - quantize s x.
Proof.
  unfold quantize.
  assert (E : - x * (Z.pos s # 1) == - (x * (Z.pos s # 1))) by ring.
  rewrite E, round_half_up_opp. unfold Qeq, Qopp. simpl. lia.
Qed.

Lemma quantize_zero (s : positive) : quantize s 0 == 0.
Proof.
  assert (E : 0 == 0 # s) by reflexivity.
  rewrite E at 1. rewrite quantize_Qmake. reflexivity.
Qed.

(** The distance between a decimal and its rounding to cents. *)
Lemma round_monetary_bounds (x : Q) :
  round_monetary x - (1 # 200) <= x /\ x <= round_monetary x + (1 # 200).
Proof.
  unfold round_monetary, quantize, MONETARY_PRECISION.
  destruct (round_half_up_bounds (x * (100 # 1))) as [Blo Bhi].
  rewrite Qmake_scale. split; lra.
Qed.

Lemma round_qty_bounds (x : Q) :
  round_qty x - (1 # 200000000) <= x /\ x <= round_qty x + (1 # 200000000).
Proof.
  unfold round_qty, quantize, QTY_PRECISION.
  destruct (round_half_up_bounds (x * (100000000 # 1))) as [Blo Bhi].
  rewrite Qmake_scale. split; lra.
Qed.

(* ------------------------------------------------------------------ *)
(** ** Dictionaries *)

Section DictFacts.
Variables K V : Type.
Variable keq : K -> K -> bool.
Hypothesis keq_eq : forall a b, keq a b = true <-> a = b.

Lemma keq_refl (k : K) : keq k k = true.
Proof. now apply keq_eq. Qed.

Lemma keq_neq (a b : K) : a <> b -> keq a b = false.
Proof.
  intro H. destruct (keq a b) eqn:E; [|reflexivity].
  apply keq_eq in E. contradiction.
Qed.

Lemma dict_get_set_same (d : dict K V) (k : K) (v : V) :
  dict_get keq (dict_set keq d k v) k = Some v.
Proof.
  induction d as [|[k' v'] d IH]; simpl.
  - now rewrite keq_refl.
  - destruct (keq k' k) eqn:E; simpl; rewrite E; [reflexivity | exact IH].
Qed.

Lemma dict_get_set_other (d : dict K V) (k k' : K) (v : V) :
  k <> k' -> dict_get keq (dict_set keq d k v) k' = dict_get keq d k'.
Proof.
  intro Hne. induction d as [|[k0 v0] d IH]; simpl.
  - now rewrite (keq_neq Hne).
  - destruct (keq k0 k) eqn:E; simpl.
    + apply keq_eq in E. subst k0. now rewrite (keq_neq Hne).
    + destruct (keq k0 k'); [reflexivity | exact IH].
Qed.

Lemma dict_get_None (d : dict K V) (k : K) :
  dict_get keq d k = None <-> ~ In k (dict_keys d).
Proof.
  induction d as [|[k' v'] d IH]; simpl.
  - tauto.
  - destruct (keq k' k) eqn:E.
    + apply keq_eq in E. split; [discriminate | intro H; exfalso; auto].
    + rewrite IH. split.
      * intros H [H' | H']; [|contradiction].
        subst k'. rewrite keq_refl in E. discriminate.
      * tauto.
Qed.

Lemma dict_get_In (d : dict K V) (k : K) (v : V) :
  dict_get keq d k = Some v -> In (k, v) d.
Proof.
  induction d as [|[k' v'] d IH]; simpl; [discriminate|].
  destruct (keq k' k) eqn:E.
  - apply keq_eq in E. intro H. injection H as <-. subst. now left.
  - auto.
Qed.

Lemma dict_In_get (d : dict K V) (k : K) (v : V) :
  NoDup (dict_keys d) -> In (k, v) d -> dict_get keq d k = Some v.
Proof.
  induction d as [|[k' v'] d IH]; simpl; [tauto|].
  intros Hnd [H | H].
  - injection H as -> ->. now rewrite keq_refl.
  - inversion Hnd as [|? ? Hnot Hnd']; subst.
    destruct (keq k' k) eqn:E; [|auto].
    apply keq_eq in E. subst k'. exfalso. apply Hnot.
    change k with (fst (k, v)). now apply in_map.
Qed.

Lemma dict_set_fresh (d : dict K V) (k : K) (v : V) :
  dict_get keq d k = None -> dict_set keq d k v = d ++ [(k, v)].
Proof.
  induction d as [|[k' v'] d IH]; simpl; [reflexivity|].
  destruct (keq k' k); [discriminate|].
  intro H. now rewrite IH.
Qed.

Lemma dict_set_present (d : dict K V) (k : K) (v v0 : V) :
  dict_get keq d k = Some v0 -> dict_keys (dict_set keq d k v) = dict_keys d.
Proof.
  induction d as [|[k' v'] d IH]; simpl; [discriminate|].
  destruct (keq k' k); simpl; [reflexivity|].
  intro H. now rewrite IH.
Qed.

Lemma dict_set_NoDup (d : dict K V) (k : K) (v : V) :
  NoDup (dict_keys d) -> NoDup (dict_keys (dict_set keq d k v)).
Proof.
  intro Hnd. destruct (dict_get keq d k) as [v0|] eqn:E.
  - erewrite dict_set_present by exact E. exact Hnd.
  - rewrite dict_set_fresh by exact E. unfold dict_keys. rewrite map_app. simpl.
    apply dict_get_None in E.
    apply NoDup_app; [exact Hnd | constructor; [intros [] | constructor] |].
    intros x Hx [Hk | []]. subst x. contradiction.
Qed.
End DictFacts.

Arguments keq_refl [K keq] keq_eq k.
Arguments keq_neq [K keq] keq_eq [a b] _.
Arguments dict_get_set_same [K V keq] keq_eq d k v.
Arguments dict_get_set_other [K V keq] keq_eq d [k k'] v _.
Arguments dict_get_None [K V keq] keq_eq d k.
Arguments dict_get_In [K V keq] keq_eq d k [v] _.
Arguments dict_In_get [K V keq] keq_eq [d k v] _ _.
Arguments dict_set_fresh [K V keq] d k v _.
Arguments dict_set_present [K V keq] d k v [v0] _.
Arguments dict_set_NoDup [K V keq] keq_eq d k v _.

(* ------------------------------------------------------------------ *)
(** ** Scenario A *)

Section ScenarioA_facts.
Import PositionCalculator ScenarioA.
Variables (ticker institution : string).
Variables (asset_class : AssetClass) (trade_type : TradeType).
Variables (d1 d2 d3 : _date) (currency : Currency) (fx_rate : Decimal).

Lemma after_buys_state :
  after_buys ticker institution asset_class trade_type d1 d2 currency fx_rate
  = mk [(position_key ticker institution,
         MP.mk ticker asset_class currency institution
           (15000000000 # 100000000) (3200 # 100) (480000 # 100))]
       [(ticker, TG.mk (15000000000 # 100000000) (480000 # 100) (3200 # 100))].
Proof.
  unfold after_buys, process_all, process, ensure_position, _buy,
    update_position, _get_global, store_global, _sync_avg_price, sync_row, set_positions, set_globals.
  repeat (progress (rewrite ?String.eqb_refl; cbn)).
  vm_compute. reflexivity.
Qed.

Lemma after_sell_state :
  after_sell ticker institution asset_class trade_type d1 d2 d3 currency fx_rate
  = (Some (SaleResult.mk ticker d3 trade_type asset_class 40 (3500 # 100)
             (3200 # 100) (140000 # 100) (128000 # 100) (12000 # 100)
             currency fx_rate),
     mk [(position_key ticker institution,
          MP.mk ticker asset_class currency institution
            (11000000000 # 100000000) (3200 # 100) (352000 # 100))]
        [(ticker, TG.mk (11000000000 # 100000000) (352000 # 100) (3200 # 100))]).
Proof.
  unfold after_sell. rewrite after_buys_state.
  unfold process, ensure_position, _sell, update_position, _get_global,
    store_global, _sync_avg_price, sync_row, set_positions, set_globals.
  repeat (progress (rewrite ?String.eqb_refl; cbn)).
  vm_compute. reflexivity.
Qed.

(** C1 (as the code has it).  On a fresh calculator, BUY 100 @ 30.00 then
    BUY 50 @ 36.00 on one ticker and institution give the average price
    32.00 (on the ticker-global aggregate and on the row), total cost
    4800.00 and quantity 150; the following SELL of 40 @ 35.00 returns a
    sale event with proceeds 1400.00, cost of the sold shares 1280.00 and
    gain/loss 120.00, and leaves the row with quantity 110 and total cost
    3520.00. *)
Theorem C1_scenario_A :
  let key := position_key ticker institution in
  let s2 := after_buys ticker institution asset_class trade_type d1 d2
              currency fx_rate in
  let r := after_sell ticker institution asset_class trade_type d1 d2 d3
             currency fx_rate in
  (exists pos g,
      dict_get String.eqb (_positions s2) key = Some pos
      /\ dict_get String.eqb (_globals s2) ticker = Some g
      /\ TG.avg_price g == 32 /\ MP.avg_price pos == 32
      /\ MP.total_cost pos == 4800 /\ MP.quantity pos == 150)
  /\ (exists sr pos',
      fst r = Some sr
      /\ SaleResult.proceeds sr == 1400
      /\ SaleResult.cost_of_sold sr == 1280
      /\ SaleResult.gain_loss sr == 120
      /\ dict_get String.eqb (_positions (snd r)) key = Some pos'
      /\ MP.quantity pos' == 110 /\ MP.total_cost pos' == 3520).
Proof.
  intros key s2 r. subst key s2 r.
  rewrite after_buys_state, after_sell_state. cbn [_positions _globals fst snd dict_get].
  rewrite !String.eqb_refl. split.
  - eexists. eexists. repeat split; reflexivity.
  - eexists. eexists. repeat split; reflexivity.
Qed.
End ScenarioA_facts.

(** C1 (as the specification words it): the sale event of scenario A does
    not carry the gain/loss 200.00. *)
Lemma C1_gain_is_not_200 :
  exists sr,
    fst (ScenarioA.after_sell "PETR4" "XP" ACAO SWING_TRADE
           (2025, 1, 15)%Z (2025, 1, 16)%Z (2025, 1, 17)%Z BRL 1) = Some sr
    /\ ~ SaleResult.gain_loss sr == 200.
Proof.
  rewrite after_sell_state. eexists. split; [reflexivity|].
  cbn. intro H. discriminate H.
Qed.

(* ------------------------------------------------------------------ *)
(** ** Tax engine: the loop over the groups *)

Section TaxLoop.
Import TaxCalculatorBR.

Lemma key_eqb_eq (a b : group_key) : key_eqb a b = true <-> a = b.
Proof.
  destruct a as [a1 a2], b as [b1 b2]. unfold key_eqb. simpl.
  rewrite andb_true_iff. split.
  - intros [H1 H2]. destruct a1, b1; try discriminate H1;
      destruct a2, b2; try discriminate H2; reflexivity.
  - intro H. injection H as -> ->. destruct b1, b2; split; reflexivity.
Qed.

(** The result of an iteration carries the key of its group. *)
Lemma tax_group_key (l : ledger) (m : string) (k : group_key)
    (sales : list SaleResult.t) :
  TaxResult.asset_class (fst (tax_group l m k sales)) = fst k
  /\ TaxResult.trade_type (fst (tax_group l m k sales)) = snd k.
Proof.
  unfold tax_group. destruct k as [ac tt].
  destruct (is_exempt (ac, tt) sales); [split; reflexivity|].
  destruct (Qltb (total_gain_brl sales) ZERO); [split; reflexivity|].
  destruct (Qltb _ ZERO); split; reflexivity.
Qed.

(** An iteration writes the ledger at the key of its group only. *)
Lemma tax_group_ledger_other (l : ledger) (m : string) (k k' : group_key)
    (sales : list SaleResult.t) :
  k <> k' ->
  dict_get key_eqb (snd (tax_group l m k sales)) k' = dict_get key_eqb l k'.
Proof.
  intro Hne. unfold tax_group. destruct k as [ac tt].
  destruct (is_exempt (ac, tt) sales); [reflexivity|].
  destruct (Qltb (total_gain_brl sales) ZERO); simpl;
    [now apply (dict_get_set_other key_eqb_eq)|].
  destruct (Qltb _ ZERO); simpl; now apply (dict_get_set_other key_eqb_eq).
Qed.

(** An iteration reads the ledger at the key of its group only. *)
Lemma tax_group_ledger_dep (l1 l2 : ledger) (m : string) (k : group_key)
    (sales : list SaleResult.t) :
  dict_get key_eqb l1 k = dict_get key_eqb l2 k ->
  fst (tax_group l1 m k sales) = fst (tax_group l2 m k sales)
  /\ dict_get key_eqb (snd (tax_group l1 m k sales)) k
     = dict_get key_eqb (snd (tax_group l2 m k sales)) k.
Proof.
  intro H. unfold tax_group, dict_get_default. destruct k as [ac tt].
  rewrite H.
  destruct (is_exempt (ac, tt) sales); [split; [reflexivity | exact H]|].
  destruct (Qltb (total_gain_brl sales) ZERO); simpl;
    [split; [reflexivity | now rewrite !(dict_get_set_same key_eqb_eq)]|].
  destruct (Qltb _ ZERO); simpl;
    (split; [reflexivity | now rewrite !(dict_get_set_same key_eqb_eq)]).
Qed.

Lemma tax_loop_results (m : string)
    (groups : dict group_key (list SaleResult.t)) :
  NoDup (dict_keys groups) ->
  forall (rs : list TaxResult.t) (l : ledger),
    fst (fold_left (tax_step m) groups (rs, l))
    = rs ++ map (fun kv => fst (tax_group l m (fst kv) (snd kv))) groups.
Proof.
  induction groups as [|[k0 s0] rest IH]; intros Hnd rs l; simpl.
  - now rewrite app_nil_r.
  - inversion Hnd as [|? ? Hnot Hnd']; subst.
    unfold tax_step at 2. simpl.
    destruct (tax_group l m k0 s0) as [r0 l0] eqn:E0.
    rewrite (IH Hnd'). simpl. rewrite <- app_assoc. simpl.
    do 2 f_equal. apply map_ext_in. intros [k s] Hin. simpl.
    apply tax_group_ledger_dep.
    replace l0 with (snd (tax_group l m k0 s0)) by now rewrite E0.
    apply tax_group_ledger_other. intros ->. apply Hnot.
    change k with (fst (k, s)). now apply in_map.
Qed.

Lemma tax_loop_ledger (m : string)
    (groups : dict group_key (list SaleResult.t)) :
  NoDup (dict_keys groups) ->
  forall (rs : list TaxResult.t) (l : ledger) (k : group_key),
    dict_get key_eqb (snd (fold_left (tax_step m) groups (rs, l))) k
    = match dict_get key_eqb groups k with
      | Some sales => dict_get key_eqb (snd (tax_group l m k sales)) k
      | None => dict_get key_eqb l k
      end.
Proof.
  induction groups as [|[k0 s0] rest IH]; intros Hnd rs l k; simpl.
  - reflexivity.
  - inversion Hnd as [|? ? Hnot Hnd']; subst.
    unfold tax_step at 2. simpl.
    destruct (tax_group l m k0 s0) as [r0 l0] eqn:E0.
    assert (El0 : l0 = snd (tax_group l m k0 s0)) by now rewrite E0.
    rewrite (IH Hnd'). destruct (key_eqb k0 k) eqn:Ek.
    + apply key_eqb_eq in Ek. subst k0.
      apply (dict_get_None key_eqb_eq) in Hnot. rewrite Hnot.
      now rewrite El0.
    + assert (Hne : k0 <> k).
      { intros ->. rewrite (keq_refl key_eqb_eq) in Ek. discriminate. }
      assert (Hl : dict_get key_eqb l0 k = dict_get key_eqb l k).
      { rewrite El0. now apply tax_group_ledger_other. }
      destruct (dict_get key_eqb rest k) as [sales|]; [|exact Hl].
      now apply tax_group_ledger_dep.
Qed.

Lemma group_sales_NoDup (sale_results : list SaleResult.t) :
  NoDup (dict_keys (group_sales sale_results)).
Proof.
  unfold group_sales.
  assert (H : forall (g : dict group_key (list SaleResult.t)),
             NoDup (dict_keys g) ->
             NoDup (dict_keys (fold_left group_append sale_results g))).
  { induction sale_results as [|sr srs IH]; intros g Hg; simpl; [exact Hg|].
    apply IH. unfold group_append. now apply (dict_set_NoDup key_eqb_eq). }
  apply H. constructor.
Qed.

(** [calculate_monthly_tax] on one group: the result of the group is the
    one an iteration computes against the ledger the call received, it is
    the only result carrying the key of the group, and the ledger entry of
    the group after the call is the one that iteration leaves. *)
Lemma calculate_monthly_tax_group (sale_results : list SaleResult.t)
    (l : ledger) (m : string) (k : group_key) (sales : list SaleResult.t) :
  dict_get key_eqb (group_sales sale_results) k = Some sales ->
  let out := calculate_monthly_tax sale_results l m in
  result_of (fst out) k (fst (tax_group l m k sales))
  /\ dict_get key_eqb (snd out) k
     = dict_get key_eqb (snd (tax_group l m k sales)) k.
Proof.
  intros Hk out. subst out. unfold calculate_monthly_tax, tax_groups, result_of.
  pose proof (group_sales_NoDup sale_results) as Hnd.
  rewrite tax_loop_results, tax_loop_ledger by exact Hnd. rewrite Hk. simpl.
  destruct (tax_group_key l m k sales) as [Kac Ktt].
  split; [split; [|split; [exact Kac|split; [exact Ktt|]]]|reflexivity].
  - apply in_map_iff. exists (k, sales). split; [reflexivity|].
    now apply (dict_get_In key_eqb_eq).
  - intros r' Hin Hac Htt. apply in_map_iff in Hin.
    destruct Hin as [[k' s'] [<- Hin]]. simpl in *.
    destruct (tax_group_key l m k' s') as [H1 H2].
    assert (k' = k).
    { destruct k', k. simpl in *. congruence. }
    subst k'. apply (dict_In_get key_eqb_eq Hnd) in Hin.
    congruence.
Qed.
End TaxLoop.

(* ------------------------------------------------------------------ *)
(** ** Amounts in cents *)

Lemma quantized_quantize (s : positive) (x : Q) : quantized s (quantize s x).
Proof. exists (round_half_up (x * (Z.pos s # 1))). reflexivity. Qed.

Lemma quantized_zero (s : positive) : quantized s 0.
Proof. exists 0%Z. reflexivity. Qed.

Lemma quantized_plus (s : positive) (x y : Q) :
  quantized s x -> quantized s y -> quantized s (x + y).
Proof.
  intros [a Ha] [b Hb]. exists (a + b)%Z. rewrite Ha, Hb.
  unfold Qeq, Qplus. simpl. nia.
Qed.

Lemma quantized_opp (s : positive) (x : Q) : quantized s x -> quantized s (- x).
Proof.
  intros [a Ha]. exists (- a)%Z. rewrite Ha. unfold Qeq, Qopp. simpl. lia.
Qed.

Lemma quantized_minus (s : positive) (x y : Q) :
  quantized s x -> quantized s y -> quantized s (x - y).
Proof.
  intros Hx Hy. unfold Qminus. apply quantized_plus; [exact Hx|].
  now apply quantized_opp.
Qed.

Lemma quantize_quantized (s : positive) (x : Q) :
  quantized s x -> quantize s x == x.
Proof. intros [a Ha]. rewrite Ha at 1. rewrite quantize_Qmake. now symmetry. Qed.

Lemma dsum_quantized (s : positive) (xs : list Decimal) :
  (forall x, In x xs -> quantized s x) -> quantized s (TaxCalculatorBR.dsum xs).
Proof.
  unfold TaxCalculatorBR.dsum. generalize (quantized_zero s).
  generalize 0 at 1 2. induction xs as [|x xs IH]; intros a Ha H; simpl.
  - exact Ha.
  - apply IH.
    + apply quantized_plus; [exact Ha | apply H; now left].
    + intros y Hy. apply H. now right.
Qed.

Lemma total_gain_brl_quantized (sales : list SaleResult.t) :
  quantized 100 (TaxCalculatorBR.total_gain_brl sales).
Proof.
  apply dsum_quantized. intros x Hx. apply in_map_iff in Hx.
  destruct Hx as [sr [<- _]]. apply quantized_quantize.
Qed.

Lemma round_monetary_idem (x : Q) :
  round_monetary (round_monetary x) = round_monetary x.
Proof. apply quantize_idem. Qed.

Lemma round_monetary_nonneg (x : Q) : 0 <= x -> 0 <= round_monetary x.
Proof.
  intro H. apply Qle_trans with (quantize 100 0).
  - rewrite quantize_zero. apply Qle_refl.
  - now apply quantize_mono.
Qed.

Lemma round_monetary_nonpos (x : Q) : x <= 0 -> round_monetary x <= 0.
Proof.
  intro H. apply Qle_trans with (quantize 100 0).
  - now apply quantize_mono.
  - rewrite quantize_zero. apply Qle_refl.
Qed.

(* ------------------------------------------------------------------ *)
(** ** Tax engine: exemption, loss carry-forward, scenario C *)

Section TaxClaims.
Import TaxCalculatorBR.

Lemma tax_group_exempt (l : ledger) (m : string) (k : group_key)
    (sales : list SaleResult.t) :
  is_exempt k sales = true ->
  tax_group l m k sales
  = (TaxResult.make m (fst k) (snd k) (total_gain_brl sales)
       (dict_get_default key_eqb l k ZERO) ZERO SWING_TRADE_RATE ZERO ZERO ZERO
       (dict_get_default key_eqb l k ZERO), l).
Proof. intro H. unfold tax_group. destruct k as [ac tt]. now rewrite H. Qed.

Lemma dmax_zero_r (a : Q) : dmax a 0 == (if Qltb a 0 then 0 else a).
Proof.
  unfold dmax, Qltb. destruct (Qle_bool 0 a); reflexivity.
Qed.

(** C2.  In every call of [calculate_monthly_tax], the swing-trade stock
    group has exactly one result; when the total BRL proceeds of the group
    are at most 20000.00 (20000.00 included) that result has zero taxable
    gain, zero tax due, zero withholding and zero net payable, and the
    ledger entry of the group is what it was before the call; when they
    exceed 20000.00 (20000.01 already does) nothing is exempted: the
    taxable gain is the whole gain of the month net of the loss carried in
    (zero when the month closes with a loss or the carried loss absorbs
    the gain) and the tax due is 15% of that amount. *)
Theorem C2_monthly_exemption_boundary (sale_results : list SaleResult.t)
    (l : ledger) (m : string) (sales : list SaleResult.t) :
  dict_get key_eqb (group_sales sale_results) (ACAO, SWING_TRADE) = Some sales ->
  let k := (ACAO, SWING_TRADE) in
  let out := calculate_monthly_tax sale_results l m in
  let gain := total_gain_brl sales in
  let proceeds := total_proceeds_brl sales in
  let acc := dict_get_default key_eqb l k ZERO in
  exists r,
    result_of (fst out) k r
    /\ (proceeds <= 20000 ->
        TaxResult.taxable_gain r == 0 /\ TaxResult.tax_due r == 0
        /\ TaxResult.irrf_withheld r == 0 /\ TaxResult.darf_to_pay r == 0
        /\ dict_get key_eqb (snd out) k = dict_get key_eqb l k)
    /\ (20000 < proceeds ->
        let taxable :=
          if Qltb gain 0 then 0 else dmax (round_monetary (gain - acc)) 0 in
        TaxResult.taxable_gain r == taxable
        /\ TaxResult.tax_due r == round_monetary (taxable * (15 # 100))).
Proof.
  intros Hk. cbv zeta.
  destruct (calculate_monthly_tax_group sale_results l m _ Hk) as [Hr Hl].
  cbv zeta in Hr, Hl.
  exists (fst (tax_group l m (ACAO, SWING_TRADE) sales)).
  split; [exact Hr|]. split.
  - intro Hle. rewrite Hl.
    assert (Hex : is_exempt (ACAO, SWING_TRADE) sales = true).
    { unfold is_exempt. simpl. apply Qleb_true.
      unfold MONTHLY_EXEMPTION_LIMIT. lra. }
    rewrite (tax_group_exempt l m (ACAO, SWING_TRADE) sales Hex). simpl.
    repeat split; reflexivity.
  - intros Hlt.
    assert (Hex : is_exempt (ACAO, SWING_TRADE) sales = false).
    { unfold is_exempt. simpl. apply Qleb_false.
      unfold MONTHLY_EXEMPTION_LIMIT. lra. }
    unfold tax_group. rewrite Hex.
    change (Qltb (total_gain_brl sales) ZERO)
      with (Qltb (total_gain_brl sales) 0).
    destruct (Qltb (total_gain_brl sales) 0) eqn:Eg.
    { simpl. split; reflexivity. }
    rewrite dmax_zero_r.
    change (Qltb (round_monetary (total_gain_brl sales
              - dict_get_default key_eqb l (ACAO, SWING_TRADE) ZERO)) ZERO)
      with (Qltb (round_monetary (total_gain_brl sales
              - dict_get_default key_eqb l (ACAO, SWING_TRADE) ZERO)) 0).
    destruct (Qltb (round_monetary (total_gain_brl sales
              - dict_get_default key_eqb l (ACAO, SWING_TRADE) ZERO)) 0) eqn:Et.
    { simpl. split; reflexivity. }
    simpl. rewrite !round_monetary_idem. split; reflexivity.
Qed.

Lemma C2_monthly_exemption_boundary_witness :
  (exists r,
      result_of
        (fst (calculate_monthly_tax [sample_sale 500 20000 ACAO SWING_TRADE]
                [((ACAO, SWING_TRADE), 300)] "2025-03"))
        (ACAO, SWING_TRADE) r
      /\ TaxResult.tax_due r == 0 /\ TaxResult.darf_to_pay r == 0)
  /\ (exists r,
      result_of
        (fst (calculate_monthly_tax
                [sample_sale 500 (2000001 # 100) ACAO SWING_TRADE]
                [((ACAO, SWING_TRADE), 300)] "2025-03"))
        (ACAO, SWING_TRADE) r
      /\ TaxResult.taxable_gain r == 200 /\ TaxResult.tax_due r == 30).
Proof.
  split.
  - destruct (C2_monthly_exemption_boundary
                [sample_sale 500 20000 ACAO SWING_TRADE]
                [((ACAO, SWING_TRADE), 300)] "2025-03" eq_refl)
      as [r [Hr [Hex _]]].
    exists r. split; [exact Hr|].
    assert (Hp : TaxCalculatorBR.total_proceeds_brl
                   [sample_sale 500 20000 ACAO SWING_TRADE] <= 20000)
      by (vm_compute; discriminate).
    destruct (Hex Hp) as [_ [H1 [_ [H2 _]]]]. split; assumption.
  - destruct (C2_monthly_exemption_boundary
                [sample_sale 500 (2000001 # 100) ACAO SWING_TRADE]
                [((ACAO, SWING_TRADE), 300)] "2025-03" eq_refl)
      as [r [Hr [_ Hfull]]].
    exists r. split; [exact Hr|].
    assert (Hp : 20000 < TaxCalculatorBR.total_proceeds_brl
                   [sample_sale 500 (2000001 # 100) ACAO SWING_TRADE])
      by (vm_compute; reflexivity).
    destruct (Hfull Hp) as [H1 H2]. split.
    + rewrite H1. vm_compute. reflexivity.
    + rewrite H2. vm_compute. reflexivity.
Defined.

(** C10.  When the swing-trade stock group is exempt (total BRL proceeds at
    most 20000.00) and its total gain of the month is negative, the call
    leaves the ledger entry of the group as it was: the loss of the month
    is not added to it, and the result reports the loss carried out equal
    to the loss carried in. *)
Theorem C10_exempt_loss_not_carried (sale_results : list SaleResult.t)
    (l : ledger) (m : string) (sales : list SaleResult.t) :
  dict_get key_eqb (group_sales sale_results) (ACAO, SWING_TRADE) = Some sales ->
  total_proceeds_brl sales <= MONTHLY_EXEMPTION_LIMIT ->
  total_gain_brl sales < 0 ->
  let k := (ACAO, SWING_TRADE) in
  let out := calculate_monthly_tax sale_results l m in
  dict_get key_eqb (snd out) k = dict_get key_eqb l k
  /\ exists r,
       result_of (fst out) k r
       /\ TaxResult.gross_gain r == total_gain_brl sales
       /\ TaxResult.accumulated_loss_after r
          == TaxResult.accumulated_loss_before r
       /\ TaxResult.accumulated_loss_after r
          == round_monetary (dict_get_default key_eqb l k ZERO).
Proof.
  intros Hk Hle Hneg. cbv zeta.
  destruct (calculate_monthly_tax_group sale_results l m _ Hk) as [Hr Hl].
  cbv zeta in Hr, Hl.
  assert (Hex : is_exempt (ACAO, SWING_TRADE) sales = true).
  { unfold is_exempt. simpl. now apply Qleb_true. }
  rewrite (tax_group_exempt l m (ACAO, SWING_TRADE) sales Hex) in Hl, Hr.
  simpl in Hl, Hr.
  split; [exact Hl|]. eexists. split; [exact Hr|]. simpl.
  repeat split; try reflexivity.
  apply quantize_quantized, total_gain_brl_quantized.
Qed.

Lemma C10_exempt_loss_not_carried_witness :
  dict_get key_eqb
    (snd (calculate_monthly_tax [sample_sale (-500) 15000 ACAO SWING_TRADE]
            [((ACAO, SWING_TRADE), 300)] "2025-03"))
    (ACAO, SWING_TRADE)
  = Some 300.
Proof.
  apply (C10_exempt_loss_not_carried
           [sample_sale (-500) 15000 ACAO SWING_TRADE]
           [((ACAO, SWING_TRADE), 300)] "2025-03" eq_refl).
  - vm_compute. discriminate.
  - vm_compute. reflexivity.
Defined.
(** What an iteration does for a group that is not exempt and whose gain
    of the month is below the loss carried in: the result has zero taxable
    gain and the ledger entry becomes the difference, rounded to cents. *)
Lemma tax_group_loss_exceeds_gain (l : ledger) (m : string) (k : group_key)
    (sales : list SaleResult.t) :
  is_exempt k sales = false ->
  total_gain_brl sales < dict_get_default key_eqb l k ZERO ->
  let acc := dict_get_default key_eqb l k ZERO in
  let gain := total_gain_brl sales in
  TaxResult.taxable_gain (fst (tax_group l m k sales)) == 0
  /\ exists v,
       dict_get key_eqb (snd (tax_group l m k sales)) k = Some v
       /\ TaxResult.accumulated_loss_after (fst (tax_group l m k sales)) == v
       /\ v == round_monetary (acc - gain).
Proof.
  intros Hex Hlt. cbv zeta. unfold tax_group. destruct k as [ac tt].
  rewrite Hex.
  set (acc := dict_get_default key_eqb l (ac, tt) ZERO) in *.
  set (gain := total_gain_brl sales) in *.
  destruct (Qltb gain ZERO) eqn:Eg.
  - apply Qltb_true in Eg. unfold ZERO in Eg. simpl. split; [reflexivity|].
    rewrite (dict_get_set_same key_eqb_eq). eexists. split; [reflexivity|].
    assert (E : acc + dabs gain == acc - gain).
    { unfold dabs. rewrite Qabs_neg by lra. ring. }
    rewrite round_monetary_idem, E. split; reflexivity.
  - apply Qltb_false in Eg. unfold ZERO in Eg.
    assert (Hopp : round_monetary (acc - gain) == - round_monetary (gain - acc)).
    { rewrite <- (quantize_opp 100).
      assert (E : acc - gain == - (gain - acc)) by ring.
      unfold round_monetary. now rewrite E. }
    assert (Hnp : round_monetary (gain - acc) <= 0)
      by (apply round_monetary_nonpos; lra).
    destruct (Qltb (round_monetary (gain - acc)) ZERO) eqn:Et.
    + apply Qltb_true in Et. unfold ZERO in Et. simpl. split; [reflexivity|].
      rewrite (dict_get_set_same key_eqb_eq). eexists. split; [reflexivity|].
      assert (E : dabs (round_monetary (gain - acc)) == round_monetary (acc - gain)).
      { unfold dabs. rewrite Qabs_neg by lra. now rewrite Hopp. }
      rewrite round_monetary_idem, E, round_monetary_idem. split; reflexivity.
    + apply Qltb_false in Et. unfold ZERO in Et. simpl.
      assert (Ez : round_monetary (gain - acc) == 0) by lra.
      rewrite (dict_get_set_same key_eqb_eq). split.
      * rewrite Ez. reflexivity.
      * eexists. split; [reflexivity|]. split; [reflexivity|].
        rewrite Hopp, Ez. reflexivity.
Qed.

(** C7 (as the code has it).  For every group that is not exempt (any
    group other than swing-trade stock, or swing-trade stock with proceeds
    above 20000.00) whose total gain of the month is smaller than the loss
    carried in, the result has taxable gain 0, and the loss carried out,
    which is the updated ledger entry, is the loss carried in minus the
    gain rounded to cents; it is never negative, and it is exactly the
    difference when the ledger entry came in as an amount in cents. *)
Theorem C7_loss_carry_forward (sale_results : list SaleResult.t)
    (l : ledger) (m : string) (k : group_key) (sales : list SaleResult.t) :
  dict_get key_eqb (group_sales sale_results) k = Some sales ->
  is_exempt k sales = false ->
  total_gain_brl sales < dict_get_default key_eqb l k ZERO ->
  let out := calculate_monthly_tax sale_results l m in
  let acc := dict_get_default key_eqb l k ZERO in
  let gain := total_gain_brl sales in
  exists r v,
    result_of (fst out) k r
    /\ dict_get key_eqb (snd out) k = Some v
    /\ TaxResult.taxable_gain r == 0
    /\ TaxResult.accumulated_loss_after r == v
    /\ v == round_monetary (acc - gain)
    /\ 0 <= v
    /\ (quantized 100 acc -> v == acc - gain).
Proof.
  intros Hk Hex Hlt. cbv zeta.
  destruct (calculate_monthly_tax_group sale_results l m _ Hk) as [Hr Hl].
  cbv zeta in Hr, Hl.
  destruct (tax_group_loss_exceeds_gain l m k sales Hex Hlt)
    as [Ht [v [Hv [Ha Hval]]]].
  exists (fst (tax_group l m k sales)), v.
  split; [exact Hr|]. split; [now rewrite Hl|].
  split; [exact Ht|]. split; [exact Ha|]. split; [exact Hval|]. split.
  - rewrite Hval. apply round_monetary_nonneg. lra.
  - intro Hq. rewrite Hval. apply quantize_quantized.
    apply quantized_minus; [exact Hq | apply total_gain_brl_quantized].
Qed.

Lemma C7_loss_carry_forward_witness :
  exists r v,
    result_of
      (fst (calculate_monthly_tax [sample_sale 500 25000 ACAO SWING_TRADE]
              [((ACAO, SWING_TRADE), 2000)] "2025-03"))
      (ACAO, SWING_TRADE) r
    /\ dict_get key_eqb
         (snd (calculate_monthly_tax [sample_sale 500 25000 ACAO SWING_TRADE]
                 [((ACAO, SWING_TRADE), 2000)] "2025-03"))
         (ACAO, SWING_TRADE) = Some v
    /\ TaxResult.taxable_gain r == 0
    /\ v == 1500.
Proof.
  destruct (C7_loss_carry_forward
              [sample_sale 500 25000 ACAO SWING_TRADE]
              [((ACAO, SWING_TRADE), 2000)] "2025-03"
              (ACAO, SWING_TRADE) eq_refl eq_refl)
    as [r [v [Hr [Hv [Ht [_ [Hval _]]]]]]].
  - vm_compute. reflexivity.
  - exists r, v. split; [exact Hr|]. split; [exact Hv|]. split; [exact Ht|].
    rewrite Hval. vm_compute. reflexivity.
Defined.

(** C7 (as the specification words it) fails on an exempt group: a
    swing-trade stock group with proceeds 15000.00, gain 500.00 and loss
    carried in 2000.00 keeps the ledger entry 2000.00, not 1500.00. *)
Lemma C7_exempt_group_keeps_loss :
  let sales := [sample_sale 500 15000 ACAO SWING_TRADE] in
  let l := [((ACAO, SWING_TRADE), 2000)] in
  let out := calculate_monthly_tax sales l "2025-03" in
  dict_get key_eqb (group_sales sales) (ACAO, SWING_TRADE) = Some sales
  /\ total_gain_brl sales < dict_get_default key_eqb l (ACAO, SWING_TRADE) ZERO
  /\ exists v,
       dict_get key_eqb (snd out) (ACAO, SWING_TRADE) = Some v
       /\ ~ v == dict_get_default key_eqb l (ACAO, SWING_TRADE) ZERO
                 - total_gain_brl sales.
Proof.
  cbv zeta. split; [reflexivity|]. split; [vm_compute; reflexivity|].
  exists 2000. split; [reflexivity|]. vm_compute. discriminate.
Qed.

(** C8 (as the code has it).  A swing-trade stock group with loss carried
    in 300.00, total gain of the month 1000.00 and total proceeds above
    20000.00 yields taxable gain 700.00 and tax due 105.00. *)
Theorem C8_scenario_C (sale_results : list SaleResult.t)
    (l : ledger) (m : string) (sales : list SaleResult.t) :
  dict_get key_eqb (group_sales sale_results) (ACAO, SWING_TRADE) = Some sales ->
  dict_get_default key_eqb l (ACAO, SWING_TRADE) ZERO == 300 ->
  total_gain_brl sales == 1000 ->
  MONTHLY_EXEMPTION_LIMIT < total_proceeds_brl sales ->
  exists r,
    result_of (fst (calculate_monthly_tax sale_results l m)) (ACAO, SWING_TRADE) r
    /\ TaxResult.taxable_gain r == 700
    /\ TaxResult.tax_due r == 105
    /\ TaxResult.accumulated_loss_after r == 0.
Proof.
  intros Hk Hacc Hgain Hp.
  destruct (calculate_monthly_tax_group sale_results l m _ Hk) as [Hr _].
  cbv zeta in Hr.
  exists (fst (tax_group l m (ACAO, SWING_TRADE) sales)).
  split; [exact Hr|].
  assert (Hex : is_exempt (ACAO, SWING_TRADE) sales = false).
  { unfold is_exempt. simpl. now apply Qleb_false. }
  unfold tax_group. rewrite Hex.
  assert (Eg : Qltb (total_gain_brl sales) ZERO = false).
  { apply Qltb_false. unfold ZERO. lra. }
  rewrite Eg.
  assert (Et : round_monetary
                 (total_gain_brl sales
                  - dict_get_default key_eqb l (ACAO, SWING_TRADE) ZERO)
               = 70000 # 100).
  { rewrite Hgain, Hacc. reflexivity. }
  rewrite Et. simpl. repeat split; reflexivity.
Qed.

Lemma C8_scenario_C_witness :
  exists r,
    result_of
      (fst (calculate_monthly_tax [sample_sale 1000 25000 ACAO SWING_TRADE]
              [((ACAO, SWING_TRADE), 300)] "2025-03"))
      (ACAO, SWING_TRADE) r
    /\ TaxResult.taxable_gain r == 700
    /\ TaxResult.tax_due r == 105
    /\ TaxResult.accumulated_loss_after r == 0.
Proof.
  apply (C8_scenario_C [sample_sale 1000 25000 ACAO SWING_TRADE]
           [((ACAO, SWING_TRADE), 300)] "2025-03" eq_refl).
  - vm_compute. reflexivity.
  - vm_compute. reflexivity.
  - vm_compute. reflexivity.
Defined.

(** C8 (as the specification words it) fails when the proceeds do not
    exceed 20000.00: with proceeds 15000.00 the group is exempt and the
    result has taxable gain 0 and tax due 0. *)
Lemma C8_exempt_when_proceeds_low :
  let sales := [sample_sale 1000 15000 ACAO SWING_TRADE] in
  let l := [((ACAO, SWING_TRADE), 300)] in
  dict_get key_eqb (group_sales sales) (ACAO, SWING_TRADE) = Some sales
  /\ dict_get_default key_eqb l (ACAO, SWING_TRADE) ZERO == 300
  /\ total_gain_brl sales == 1000
  /\ exists r,
       calculate_monthly_tax sales l "2025-03" = ([r], l)
       /\ ~ TaxResult.taxable_gain r == 700
       /\ ~ TaxResult.tax_due r == 105.
Proof.
  cbv zeta. split; [reflexivity|]. split; [reflexivity|].
  split; [vm_compute; reflexivity|].
  eexists. split; [vm_compute; reflexivity|].
  split; vm_compute; discriminate.
Qed.
End TaxClaims.

(* ------------------------------------------------------------------ *)
(** ** Position engine: how the dictionaries move *)

Section EngineFacts.
Import PositionCalculator.

Lemma dict_get_map_values (V : Type) (f : V -> V) (d : dict string V) (k : string) :
  dict_get String.eqb (map (fun kv => (fst kv, f (snd kv))) d) k
  = option_map f (dict_get String.eqb d k).
Proof.
  induction d as [|[k' v] d IH]; simpl; [reflexivity|].
  destruct (String.eqb k' k); [reflexivity | exact IH].
Qed.

Lemma dict_keys_map_values (V : Type) (f : V -> V) (d : dict string V) :
  dict_keys (map (fun kv => (fst kv, f (snd kv))) d) = dict_keys d.
Proof.
  unfold dict_keys. rewrite map_map. reflexivity.
Qed.

Lemma globals_update_position (s : t) (key : string) (f : MP.t -> MP.t) :
  _globals (update_position s key f) = _globals s.
Proof.
  unfold update_position. destruct (dict_get String.eqb (_positions s) key);
    reflexivity.
Qed.

Lemma positions_update_position (s : t) (key : string) (f : MP.t -> MP.t)
    (pos : MP.t) :
  dict_get String.eqb (_positions s) key = Some pos ->
  _positions (update_position s key f)
  = dict_set String.eqb (_positions s) key (f pos).
Proof. intro H. unfold update_position. now rewrite H. Qed.

Lemma globals_sync (s : t) (ticker : string) :
  _globals (_sync_avg_price s ticker) = _globals s.
Proof.
  unfold _sync_avg_price. destruct (dict_get String.eqb (_globals s) ticker);
    reflexivity.
Qed.

Lemma positions_sync (s : t) (ticker : string) (g : TG.t) :
  dict_get String.eqb (_globals s) ticker = Some g ->
  _positions (_sync_avg_price s ticker)
  = map (fun kv => (fst kv, sync_row ticker g (snd kv))) (_positions s).
Proof. intro H. unfold _sync_avg_price. now rewrite H. Qed.

Lemma get_global_value (s : t) (ticker : string) :
  fst (_get_global s ticker)
  = dict_get_default String.eqb (_globals s) ticker TG.init.
Proof.
  unfold _get_global, dict_get_default.
  destruct (dict_get String.eqb (_globals s) ticker); reflexivity.
Qed.

Lemma get_global_positions (s : t) (ticker : string) :
  _positions (snd (_get_global s ticker)) = _positions s.
Proof.
  unfold _get_global.
  destruct (dict_get String.eqb (_globals s) ticker); reflexivity.
Qed.

Lemma get_global_other (s : t) (ticker t' : string) :
  ticker <> t' ->
  dict_get String.eqb (_globals (snd (_get_global s ticker))) t'
  = dict_get String.eqb (_globals s) t'.
Proof.
  intro Hne. unfold _get_global.
  destruct (dict_get String.eqb (_globals s) ticker); simpl; [reflexivity|].
  now apply (dict_get_set_other String.eqb_eq).
Qed.

Lemma ensure_position_globals (s : t) (key : string) (tx : Tx.t) :
  _globals (ensure_position s key tx) = _globals s.
Proof.
  unfold ensure_position. destruct (dict_get String.eqb (_positions s) key);
    reflexivity.
Qed.

Lemma ensure_position_present (s : t) (key : string) (tx : Tx.t) (pos : MP.t) :
  dict_get String.eqb (_positions s) key = Some pos ->
  ensure_position s key tx = s.
Proof. intro H. unfold ensure_position. now rewrite H. Qed.

Lemma ensure_position_absent (s : t) (key : string) (tx : Tx.t) :
  dict_get String.eqb (_positions s) key = None ->
  _positions (ensure_position s key tx)
  = _positions s
    ++ [(key, MP.init (Tx.ticker tx) (Tx.asset_class tx) (Tx.currency tx)
                (Tx.institution tx))].
Proof.
  intro H. unfold ensure_position. rewrite H. simpl.
  now apply dict_set_fresh.
Qed.

Lemma ensure_position_get (s : t) (key : string) (tx : Tx.t) :
  dict_get String.eqb (_positions (ensure_position s key tx)) key
  = Some (match dict_get String.eqb (_positions s) key with
          | Some pos => pos
          | None => MP.init (Tx.ticker tx) (Tx.asset_class tx) (Tx.currency tx)
                      (Tx.institution tx)
          end).
Proof.
  unfold ensure_position.
  destruct (dict_get String.eqb (_positions s) key) eqn:E; [exact E|].
  simpl. apply (dict_get_set_same String.eqb_eq).
Qed.
End EngineFacts.

(* ------------------------------------------------------------------ *)
(** ** SELL and the average; DIVIDEND and JCP *)

Section SellDividend.
Import PositionCalculator.

(** C3 (as the code has it).  For every SELL processed by [process], the
    ticker-global average price after the call equals its value before the
    call (zero when the ticker had no aggregate yet) whenever the global
    quantity left by the sale, [round_qty (quantity - sold)], is positive;
    when that quantity is zero or negative the aggregate is clamped and its
    average price is reset to zero.  The sale event carries the average
    price as it was before the call. *)
Theorem C3_sell_average (s : t) (tx : Tx.t) :
  Tx.type tx = SELL ->
  let g := dict_get_default String.eqb (_globals s) (Tx.ticker tx) TG.init in
  exists g' sr,
    dict_get String.eqb (_globals (snd (process s tx))) (Tx.ticker tx) = Some g'
    /\ fst (process s tx) = Some sr
    /\ SaleResult.avg_cost sr = TG.avg_price g
    /\ TG.avg_price g'
       = if Qleb (round_qty (TG.quantity g - Tx.quantity tx)) ZERO
         then ZERO else TG.avg_price g.
Proof.
  intros Ht. cbv zeta. unfold process. rewrite Ht. unfold _sell.
  set (s1 := ensure_position s _ tx).
  pose proof (get_global_value s1 (Tx.ticker tx)) as Hg.
  unfold s1 in Hg at 2. rewrite ensure_position_globals in Hg.
  destruct (_get_global s1 (Tx.ticker tx)) as [g s2]. simpl in Hg. subst g.
  cbn [fst snd]. rewrite globals_sync. unfold store_global. cbn [_globals set_globals].
  rewrite (dict_get_set_same String.eqb_eq).
  eexists. eexists. split; [reflexivity|]. split; [reflexivity|].
  split; [reflexivity|]. cbn [TG.quantity TG.set_quantity].
  destruct (Qleb _ ZERO); reflexivity.
Qed.

Lemma C3_sell_average_witness :
  exists g' sr,
    dict_get String.eqb
      (_globals (snd (process
                        (replay [sample_tx BUY 100 30 "XP"; sample_tx BUY 50 36 "XP"])
                        (sample_tx SELL 40 35 "XP")))) "PETR4"%string = Some g'
    /\ fst (process
              (replay [sample_tx BUY 100 30 "XP"; sample_tx BUY 50 36 "XP"])
              (sample_tx SELL 40 35 "XP")) = Some sr
    /\ SaleResult.avg_cost sr = 3200 # 100
    /\ TG.avg_price g' = 3200 # 100.
Proof.
  exact (C3_sell_average
           (replay [sample_tx BUY 100 30 "XP"; sample_tx BUY 50 36 "XP"])
           (sample_tx SELL 40 35 "XP") eq_refl).
Defined.

(** C3 (as the specification words it) fails when the sale empties the
    ticker: after BUY 100 @ 30.00 the global average is 30.00, and the
    SELL of 100 @ 25.00 leaves it at zero. *)
Lemma C3_sell_all_resets_average :
  let s := replay [sample_tx BUY 100 30 "XP"] in
  let tx := sample_tx SELL 100 25 "XP" in
  exists g g',
    dict_get String.eqb (_globals s) "PETR4"%string = Some g
    /\ dict_get String.eqb (_globals (snd (process s tx))) "PETR4"%string = Some g'
    /\ TG.avg_price g == 30
    /\ TG.avg_price g' == 0
    /\ ~ TG.avg_price g' == TG.avg_price g.
Proof.
  cbv zeta. eexists. eexists.
  split; [vm_compute; reflexivity|]. split; [vm_compute; reflexivity|].
  split; [reflexivity|]. split; [reflexivity|].
  vm_compute. discriminate.
Qed.




End SellDividend.

(* ------------------------------------------------------------------ *)
(** ** Reachable states hold quantized decimals under distinct keys *)

Section Quantized.
Import PositionCalculator.

Lemma Forall_dict_set (V : Type) (P : V -> Prop) (d : dict string V)
    (k : string) (v : V) :
  Forall (fun kv => P (snd kv)) d -> P v ->
  Forall (fun kv => P (snd kv)) (dict_set String.eqb d k v).
Proof.
  intros Hd Hv. induction d as [|[k' v'] d IH]; simpl.
  - constructor; [exact Hv | constructor].
  - inversion Hd; subst. destruct (String.eqb k' k); constructor; auto.
Qed.

Lemma Forall_dict_get (V : Type) (P : V -> Prop) (d : dict string V)
    (k : string) (v : V) :
  Forall (fun kv => P (snd kv)) d -> dict_get String.eqb d k = Some v -> P v.
Proof.
  intros Hd Hk. apply (dict_get_In String.eqb_eq) in Hk.
  rewrite Forall_forall in Hd. exact (Hd _ Hk).
Qed.

Lemma Forall_map_values (V : Type) (P : V -> Prop) (f : V -> V)
    (d : dict string V) :
  (forall v, P v -> P (f v)) ->
  Forall (fun kv => P (snd kv)) d ->
  Forall (fun kv => P (snd kv)) (map (fun kv => (fst kv, f (snd kv))) d).
Proof.
  intros Hf Hd. induction Hd as [|kv d Hkv Hd IH]; simpl; constructor.
  - simpl. now apply Hf.
  - exact IH.
Qed.

Lemma init_row_quantized (ticker : string) (ac : AssetClass) (cur : Currency)
    (institution : string) :
  row_quantized (MP.init ticker ac cur institution).
Proof. repeat split; apply quantized_zero. Qed.

Lemma init_global_quantized : global_quantized TG.init.
Proof. repeat split; apply quantized_zero. Qed.

Lemma sync_row_quantized (ticker : string) (g : TG.t) (pos : MP.t) :
  global_quantized g -> row_quantized pos ->
  row_quantized (sync_row ticker g pos).
Proof.
  intros [_ [Hga _]] [Hq [Ha Hc]]. unfold sync_row.
  destruct (String.eqb (MP.ticker pos) ticker); [|repeat split; assumption].
  repeat split; simpl; try assumption.
  destruct (Qltb ZERO (MP.quantity pos));
    [apply quantized_quantize | apply quantized_zero].
Qed.

Lemma recalc_totals_quantized (ticker : string) (rows : list MP.t) :
  quantized QTY_PRECISION (fst (recalc_totals ticker rows))
  /\ quantized MONETARY_PRECISION (snd (recalc_totals ticker rows)).
Proof.
  unfold recalc_totals.
  assert (H : forall acc : Decimal * Decimal,
             quantized QTY_PRECISION (fst acc)
             /\ quantized MONETARY_PRECISION (snd acc) ->
             quantized QTY_PRECISION
               (fst (fold_left
                       (fun acc pos =>
                          if String.eqb (MP.ticker pos) ticker
                          then (round_qty (fst acc + MP.quantity pos),
                                round_monetary (snd acc + MP.total_cost pos))
                          else acc) rows acc))
             /\ quantized MONETARY_PRECISION
                  (snd (fold_left
                          (fun acc pos =>
                             if String.eqb (MP.ticker pos) ticker
                             then (round_qty (fst acc + MP.quantity pos),
                                   round_monetary (snd acc + MP.total_cost pos))
                             else acc) rows acc))).
  { induction rows as [|pos rows IH]; intros acc Hacc; simpl; [exact Hacc|].
    apply IH. destruct (String.eqb (MP.ticker pos) ticker); [|exact Hacc].
    split; apply quantized_quantize. }
  apply H. split; apply quantized_zero.
Qed.

Lemma update_position_quantized (s : t) (key : string) (f : MP.t -> MP.t) :
  (forall pos, row_quantized pos -> row_quantized (f pos)) ->
  state_quantized s -> state_quantized (update_position s key f).
Proof.
  intros Hf [Hp Hg]. unfold update_position.
  destruct (dict_get String.eqb (_positions s) key) as [pos|] eqn:E;
    [|split; assumption].
  split; [|exact Hg]. simpl. apply Forall_dict_set; [exact Hp|].
  apply Hf. exact (Forall_dict_get _ _ Hp E).
Qed.

Lemma get_global_quantized (s : t) (ticker : string) :
  state_quantized s ->
  global_quantized (fst (_get_global s ticker))
  /\ state_quantized (snd (_get_global s ticker)).
Proof.
  intros [Hp Hg]. unfold _get_global.
  destruct (dict_get String.eqb (_globals s) ticker) as [g|] eqn:E; simpl.
  - split; [exact (Forall_dict_get _ _ Hg E) | split; assumption].
  - split; [exact init_global_quantized|]. split; [exact Hp|]. simpl.
    apply Forall_dict_set; [exact Hg | exact init_global_quantized].
Qed.

Lemma store_global_quantized (s : t) (ticker : string) (g : TG.t) :
  global_quantized g -> state_quantized s ->
  state_quantized (store_global s ticker g).
Proof.
  intros Hg0 [Hp Hg]. split; [exact Hp|]. simpl.
  now apply Forall_dict_set.
Qed.

Lemma sync_quantized (s : t) (ticker : string) :
  state_quantized s -> state_quantized (_sync_avg_price s ticker).
Proof.
  intros [Hp Hg]. unfold _sync_avg_price.
  destruct (dict_get String.eqb (_globals s) ticker) as [g|] eqn:E;
    [|split; assumption].
  split; [|exact Hg]. simpl. apply Forall_map_values; [|exact Hp].
  intros pos. apply sync_row_quantized. exact (Forall_dict_get _ _ Hg E).
Qed.

Lemma recalc_global_quantized (s : t) (ticker : string) :
  state_quantized s -> state_quantized (_recalc_global s ticker).
Proof.
  intros Hs. unfold _recalc_global.
  destruct (recalc_totals_quantized ticker (dict_values (_positions s)))
    as [Hq Hc].
  destruct (recalc_totals ticker (dict_values (_positions s))) as [tq tc].
  destruct (get_global_quantized ticker Hs) as [Hg Hs2].
  destruct (_get_global s ticker) as [g s2]. simpl in *.
  apply sync_quantized. apply store_global_quantized; [|exact Hs2].
  repeat split; simpl; try assumption.
  destruct (Qltb ZERO tq); [apply quantized_quantize | apply quantized_zero].
Qed.

Lemma ensure_position_quantized (s : t) (key : string) (tx : Tx.t) :
  state_quantized s -> state_quantized (ensure_position s key tx).
Proof.
  intros [Hp Hg]. unfold ensure_position.
  destruct (dict_get String.eqb (_positions s) key); [split; assumption|].
  split; [|exact Hg]. simpl. apply Forall_dict_set; [exact Hp|].
  apply init_row_quantized.
Qed.

Ltac quantized_fields :=
  repeat split; simpl;
  repeat match goal with
         | |- quantized _ (if ?b then _ else _) => destruct b
         end;
  try assumption;
  try apply quantized_quantize; try apply quantized_zero.

Lemma process_quantized (s : t) (tx : Tx.t) :
  state_quantized s -> state_quantized (snd (process s tx)).
Proof.
  intros Hs. unfold process.
  set (key := position_key (Tx.ticker tx) (Tx.institution tx)).
  assert (Hs1 := ensure_position_quantized key tx Hs).
  set (s1 := ensure_position s key tx) in *.
  destruct (Tx.type tx).
  - (* BUY *)
    unfold _buy.
    match goal with |- context [update_position s1 key ?f] =>
      assert (Hs2 : state_quantized (update_position s1 key f)) end.
    { apply update_position_quantized; [|exact Hs1].
      intros pos [Hq [Ha Hc]]. quantized_fields. }
    destruct (get_global_quantized (Tx.ticker tx) Hs2) as [Hg Hs3].
    destruct (_get_global _ (Tx.ticker tx)) as [g s3]. simpl in Hg, Hs3.
    cbn [snd]. apply sync_quantized. apply store_global_quantized; [|exact Hs3].
    destruct Hg as [Hq [Ha Hc]]. quantized_fields.
  - (* SELL *)
    unfold _sell.
    destruct (get_global_quantized (Tx.ticker tx) Hs1) as [Hg Hs2].
    destruct (_get_global s1 (Tx.ticker tx)) as [g s2]. simpl in Hg, Hs2.
    cbn [snd]. apply sync_quantized. destruct Hg as [Hq [Ha Hc]].
    apply store_global_quantized.
    + destruct (Qleb _ ZERO); quantized_fields.
    + apply update_position_quantized; [|exact Hs2].
      intros pos [Hq' [Ha' Hc']]. destruct (Qleb _ ZERO); quantized_fields.
  - (* SPLIT *)
    unfold _split. destruct (Qleb (Tx.quantity tx) ZERO); [exact Hs1|].
    match goal with |- context [update_position s1 key ?f] =>
      assert (Hs2 : state_quantized (update_position s1 key f)) end.
    { apply update_position_quantized; [|exact Hs1].
      intros pos [Hq [Ha Hc]]. quantized_fields. }
    destruct (get_global_quantized (Tx.ticker tx) Hs2) as [Hg Hs3].
    destruct (_get_global _ (Tx.ticker tx)) as [g s3]. simpl in Hg, Hs3.
    cbn [snd]. apply recalc_global_quantized.
    apply store_global_quantized; [|exact Hs3].
    destruct Hg as [Hq [Ha Hc]]. quantized_fields.
  - (* INPLIT *)
    unfold _inplit. destruct (Qleb (Tx.quantity tx) ZERO); [exact Hs1|].
    cbn [snd]. apply recalc_global_quantized.
    apply update_position_quantized; [|exact Hs1].
    intros pos [Hq [Ha Hc]]. quantized_fields.
  - exact Hs1.
  - exact Hs1.
  - (* BONUS *)
    unfold _bonus.
    match goal with |- context [update_position s1 key ?f] =>
      assert (Hs2 : state_quantized (update_position s1 key f)) end.
    { apply update_position_quantized; [|exact Hs1].
      intros pos [Hq [Ha Hc]]. quantized_fields. }
    destruct (get_global_quantized (Tx.ticker tx) Hs2) as [Hg Hs3].
    destruct (_get_global _ (Tx.ticker tx)) as [g s3]. simpl in Hg, Hs3.
    cbn [snd]. apply sync_quantized. apply store_global_quantized; [|exact Hs3].
    destruct Hg as [Hq [Ha Hc]]. quantized_fields.
Qed.

Lemma reachable_quantized (s : t) : reachable s -> state_quantized s.
Proof.
  induction 1 as [|s tx _ IH].
  - split; constructor.
  - now apply process_quantized.
Qed.
End Quantized.

(* ------------------------------------------------------------------ *)
(** ** BONUS *)

Section Bonus.
Import PositionCalculator.

Lemma round_qty_grows (q b : Q) :
  quantized QTY_PRECISION q -> 0 <= b -> q <= round_qty (q + b).
Proof.
  intros Hq Hb. rewrite <- (quantize_quantized Hq) at 1.
  apply quantize_mono. lra.
Qed.

Lemma round_qty_grows_strictly (q b : Q) :
  quantized QTY_PRECISION q -> (1 # 100000000) <= b -> q < round_qty (q + b).
Proof.
  intros Hq Hb.
  assert (Hq' : quantized QTY_PRECISION (q + (1 # 100000000))).
  { apply quantized_plus; [exact Hq|]. exists 1%Z. reflexivity. }
  apply Qlt_le_trans with (q + (1 # 100000000)); [lra|].
  rewrite <- (quantize_quantized Hq') at 1. apply quantize_mono. lra.
Qed.

Lemma Qdiv_antitone (c a b : Q) :
  0 <= c -> 0 < a -> a <= b -> c / b <= c / a.
Proof.
  intros Hc Ha Hab. apply Qle_shift_div_r; [lra|].
  assert (Hd : 0 <= c / a).
  { apply Qle_shift_div_l; [exact Ha | lra]. }
  assert (E : c / a * a == c) by (field; lra).
  rewrite <- E at 1. rewrite (Qmult_comm (c / a) a), (Qmult_comm (c / a) b).
  apply Qmult_le_compat_r; assumption.
Qed.

(** The state [process] leaves after a BONUS on an existing row. *)
Lemma process_bonus_state (s : t) (tx : Tx.t) (pos : MP.t) :
  Tx.type tx = BONUS ->
  dict_get String.eqb (_positions s)
    (position_key (Tx.ticker tx) (Tx.institution tx)) = Some pos ->
  MP.ticker pos = Tx.ticker tx ->
  let g := dict_get_default String.eqb (_globals s) (Tx.ticker tx) TG.init in
  let q' := round_qty (TG.quantity g + Tx.quantity tx) in
  let g' := TG.mk q' (TG.total_cost g)
              (if Qltb ZERO q' then round_monetary (TG.total_cost g / q')
               else ZERO) in
  let pos' := sync_row (Tx.ticker tx) g'
                (MP.set_quantity pos
                   (round_qty (MP.quantity pos + Tx.quantity tx))) in
  dict_get String.eqb (_positions (snd (process s tx)))
    (position_key (Tx.ticker tx) (Tx.institution tx)) = Some pos'
  /\ dict_get String.eqb (_globals (snd (process s tx))) (Tx.ticker tx) = Some g'.
Proof.
  intros Ht Hk Htk. cbv zeta. unfold process. rewrite Ht.
  rewrite (ensure_position_present s _ tx Hk). unfold _bonus.
  set (key := position_key (Tx.ticker tx) (Tx.institution tx)) in *.
  set (f := fun pos0 : MP.t =>
              MP.set_quantity pos0 (round_qty (MP.quantity pos0 + Tx.quantity tx))).
  pose proof (get_global_value (update_position s key f) (Tx.ticker tx)) as Hg.
  pose proof (get_global_positions (update_position s key f) (Tx.ticker tx)) as Hp.
  rewrite globals_update_position in Hg.
  rewrite (positions_update_position s key f Hk) in Hp.
  destruct (_get_global (update_position s key f) (Tx.ticker tx)) as [g s3].
  simpl in Hg, Hp. subst g. cbn [snd].
  match goal with
  | |- context [store_global s3 ?tk ?gv] =>
      assert (Hgl : dict_get String.eqb (_globals (store_global s3 tk gv)) tk
                    = Some gv)
        by apply (dict_get_set_same String.eqb_eq)
  end.
  rewrite globals_sync, (positions_sync _ _ Hgl), Hgl.
  split; [|reflexivity].
  rewrite dict_get_map_values. cbn [store_global set_globals _positions].
  rewrite Hp, (dict_get_set_same String.eqb_eq). reflexivity.
Qed.
Lemma process_all_reachable (s : t) (txs : list Tx.t) :
  reachable s -> reachable (process_all s txs).
Proof.
  revert s. induction txs as [|tx txs IH]; intros s Hs; simpl; [exact Hs|].
  apply IH. now constructor.
Qed.

Lemma replay_reachable (txs : list Tx.t) : reachable (replay txs).
Proof. apply process_all_reachable. constructor. Qed.

Lemma default_global_quantized (s : t) (ticker : string) :
  state_quantized s ->
  global_quantized (dict_get_default String.eqb (_globals s) ticker TG.init).
Proof.
  intros [_ Hg]. unfold dict_get_default.
  destruct (dict_get String.eqb (_globals s) ticker) as [g|] eqn:E.
  - exact (Forall_dict_get _ _ Hg E).
  - exact init_global_quantized.
Qed.

(** X25.  For every BONUS with bonus quantity [b] processed on an
    existing row of the ticker, in a reachable state: the
    row's quantity becomes [round_qty (quantity + b)], which does not
    decrease when [b >= 0] and strictly increases when [b >= 0.00000001];
    the total cost of the ticker-global aggregate is unchanged, while the
    row's total cost is recomputed as [round_monetary (new quantity * new
    average)]; the global quantity becomes [round_qty (quantity + b)] and
    the global average price is recomputed as [round_monetary (total cost /
    new global quantity)] (zero when that quantity is not positive), which,
    when [b >= 0], the prior global quantity was positive and the cost is
    not negative, does not exceed [round_monetary (total cost / prior
    global quantity)]. *)
Theorem bonus_adds_shares (s : t) (tx : Tx.t) (pos : MP.t) :
  reachable s ->
  Tx.type tx = BONUS ->
  dict_get String.eqb (_positions s)
    (position_key (Tx.ticker tx) (Tx.institution tx)) = Some pos ->
  MP.ticker pos = Tx.ticker tx ->
  let b := Tx.quantity tx in
  let g := dict_get_default String.eqb (_globals s) (Tx.ticker tx) TG.init in
  let s' := snd (process s tx) in
  exists pos' g',
    dict_get String.eqb (_positions s')
      (position_key (Tx.ticker tx) (Tx.institution tx)) = Some pos'
    /\ dict_get String.eqb (_globals s') (Tx.ticker tx) = Some g'
    /\ MP.quantity pos' = round_qty (MP.quantity pos + b)
    /\ (0 <= b -> MP.quantity pos <= MP.quantity pos')
    /\ ((1 # 100000000) <= b -> MP.quantity pos < MP.quantity pos')
    /\ TG.total_cost g' = TG.total_cost g
    /\ TG.quantity g' = round_qty (TG.quantity g + b)
    /\ TG.avg_price g'
       = (if Qltb ZERO (TG.quantity g')
          then round_monetary (TG.total_cost g / TG.quantity g') else ZERO)
    /\ MP.avg_price pos' = TG.avg_price g'
    /\ MP.total_cost pos'
       = (if Qltb ZERO (MP.quantity pos')
          then round_monetary (MP.quantity pos' * TG.avg_price g') else ZERO)
    /\ (0 <= b -> 0 < TG.quantity g -> 0 <= TG.total_cost g ->
        TG.avg_price g' <= round_monetary (TG.total_cost g / TG.quantity g)).
Proof.
  intros Hr Ht Hk Htk. cbv zeta.
  destruct (process_bonus_state s tx Ht Hk Htk) as [Hp' Hg'].
  cbv zeta in Hp', Hg'.
  pose proof (reachable_quantized Hr) as Hq.
  assert (Hrow : row_quantized pos) by exact (Forall_dict_get _ _ (proj1 Hq) Hk).
  pose proof (default_global_quantized (Tx.ticker tx) Hq) as Hglob.
  set (g := dict_get_default String.eqb (_globals s) (Tx.ticker tx) TG.init) in *.
  eexists. eexists. split; [exact Hp'|]. split; [exact Hg'|].
  unfold sync_row. cbn [MP.ticker MP.set_quantity]. rewrite Htk, String.eqb_refl.
  cbn [MP.quantity MP.avg_price MP.total_cost MP.set_total_cost MP.set_avg_price
       TG.quantity TG.total_cost TG.avg_price].
  split; [reflexivity|].
  split; [intro Hb; apply round_qty_grows; [exact (proj1 Hrow) | exact Hb]|].
  split; [intro Hb; apply round_qty_grows_strictly;
            [exact (proj1 Hrow) | exact Hb]|].
  do 5 (split; [reflexivity|]).
  intros Hb Hpos Hc.
  assert (Hle : TG.quantity g <= round_qty (TG.quantity g + Tx.quantity tx))
    by (apply round_qty_grows; [exact (proj1 Hglob) | exact Hb]).
  assert (E : Qltb ZERO (round_qty (TG.quantity g + Tx.quantity tx)) = true)
    by (apply Qltb_true; unfold ZERO; lra).
  rewrite E. apply quantize_mono. now apply Qdiv_antitone.
Qed.

Lemma bonus_adds_shares_witness :
  exists pos' g',
    dict_get String.eqb
      (_positions (snd (process (replay [sample_tx BUY 100 30 "XP"])
                          (sample_tx BONUS 20 0 "XP"))))
      (position_key "PETR4" "XP") = Some pos'
    /\ dict_get String.eqb
         (_globals (snd (process (replay [sample_tx BUY 100 30 "XP"])
                           (sample_tx BONUS 20 0 "XP"))))
         "PETR4"%string = Some g'
    /\ MP.quantity pos' == 120
    /\ TG.total_cost g' == 3000
    /\ TG.avg_price g' == 25.
Proof.
  destruct (@bonus_adds_shares (replay [sample_tx BUY 100 30 "XP"])
              (sample_tx BONUS 20 0 "XP")
              (MP.mk "PETR4" ACAO BRL "XP"
                 (10000000000 # 100000000) (3000 # 100) (300000 # 100))
              (replay_reachable _) eq_refl eq_refl eq_refl)
    as [pos' [g' [Hp [Hg [Hq [_ [_ [Hc [Hgq [Ha _]]]]]]]]]].
  exists pos', g'. split; [exact Hp|]. split; [exact Hg|].
  split; [rewrite Hq; vm_compute; reflexivity|].
  split; [rewrite Hc; vm_compute; reflexivity|].
  rewrite Ha, Hgq. vm_compute. reflexivity.
Defined.

(** C6.  On inputs the engine accepts, a BONUS breaks what the claim says
    and what the comments of [_bonus] say.  After BUY 1 @ 0.01 and SELL
    0.5 @ 0.01 the ticker holds 0.5 shares, a positive quantity, at a
    global average of 0.01 and a total cost of 0.01; a BONUS of 0.1 shares
    raises the global average to 0.02, where the claim says it strictly
    decreases and the docstring says "reduces avg_price".  After BUY
    1000 @ 0.01 a BONUS of 100 shares leaves the average at 0.01 and moves
    the total cost of the row from 10.00 to 11.00, where the claim says the
    total cost is unchanged and the comment says "total_cost stays the
    same". *)
Theorem C6_bonus_raises_average :
  let key := position_key "PETR4" "XP" in
  let s1 := replay [sample_tx BUY 1 (1 # 100) "XP";
                    sample_tx SELL (1 # 2) (1 # 100) "XP"] in
  let s1' := snd (process s1 (sample_tx BONUS (1 # 10) 0 "XP")) in
  let s2 := replay [sample_tx BUY 1000 (1 # 100) "XP"] in
  let s2' := snd (process s2 (sample_tx BONUS 100 0 "XP")) in
  (exists g g',
     dict_get String.eqb (_globals s1) "PETR4"%string = Some g
     /\ dict_get String.eqb (_globals s1') "PETR4"%string = Some g'
     /\ TG.quantity g == 1 # 2
     /\ TG.avg_price g == 1 # 100
     /\ TG.avg_price g' == 2 # 100
     /\ TG.avg_price g < TG.avg_price g')
  /\ (exists pos g pos' g',
        dict_get String.eqb (_positions s2) key = Some pos
        /\ dict_get String.eqb (_globals s2) "PETR4"%string = Some g
        /\ dict_get String.eqb (_positions s2') key = Some pos'
        /\ dict_get String.eqb (_globals s2') "PETR4"%string = Some g'
        /\ 0 < TG.quantity g
        /\ ~ TG.avg_price g' < TG.avg_price g
        /\ MP.total_cost pos == 10
        /\ MP.total_cost pos' == 11
        /\ ~ MP.total_cost pos' == MP.total_cost pos).
Proof.
  cbv zeta. split.
  - do 2 eexists.
    do 2 (split; [vm_compute; reflexivity|]).
    do 3 (split; [vm_compute; reflexivity|]).
    vm_compute. reflexivity.
  - do 4 eexists.
    do 4 (split; [vm_compute; reflexivity|]).
    split; [vm_compute; reflexivity|].
    split; [vm_compute; intro H; discriminate H|].
    do 2 (split; [vm_compute; reflexivity|]).
    vm_compute. intro H. discriminate H.
Qed.
End Bonus.

(* ------------------------------------------------------------------ *)
(** ** The keys of the rows stay distinct *)

Section Keys.
Import PositionCalculator.

Lemma update_position_keys (s : t) (key : string) (f : MP.t -> MP.t) :
  dict_keys (_positions (update_position s key f)) = dict_keys (_positions s).
Proof.
  unfold update_position.
  destruct (dict_get String.eqb (_positions s) key) as [pos|] eqn:E;
    [|reflexivity].
  simpl. exact (dict_set_present _ _ _ E).
Qed.

Lemma sync_keys (s : t) (ticker : string) :
  dict_keys (_positions (_sync_avg_price s ticker)) = dict_keys (_positions s).
Proof.
  unfold _sync_avg_price.
  destruct (dict_get String.eqb (_globals s) ticker); [|reflexivity].
  simpl. apply dict_keys_map_values.
Qed.

Lemma recalc_global_keys (s : t) (ticker : string) :
  dict_keys (_positions (_recalc_global s ticker)) = dict_keys (_positions s).
Proof.
  unfold _recalc_global.
  destruct (recalc_totals ticker (dict_values (_positions s))) as [tq tc].
  pose proof (get_global_positions s ticker) as Hp.
  destruct (_get_global s ticker) as [g s2]. simpl in Hp.
  rewrite sync_keys. simpl. now rewrite Hp.
Qed.

Lemma ensure_position_NoDup (s : t) (key : string) (tx : Tx.t) :
  NoDup (dict_keys (_positions s)) ->
  NoDup (dict_keys (_positions (ensure_position s key tx))).
Proof.
  intro H. unfold ensure_position.
  destruct (dict_get String.eqb (_positions s) key); [exact H|].
  simpl. now apply (dict_set_NoDup String.eqb_eq).
Qed.

Lemma process_keys (s : t) (tx : Tx.t) :
  dict_keys (_positions (snd (process s tx)))
  = dict_keys (_positions
                 (ensure_position s
                    (position_key (Tx.ticker tx) (Tx.institution tx)) tx)).
Proof.
  unfold process.
  set (key := position_key (Tx.ticker tx) (Tx.institution tx)).
  set (s1 := ensure_position s key tx).
  destruct (Tx.type tx); try reflexivity.
  - unfold _buy.
    match goal with |- context [_get_global ?s0 ?tk] =>
      pose proof (get_global_positions s0 tk) as Hp;
      destruct (_get_global s0 tk) as [g s3] end.
    simpl in Hp. cbn [snd]. rewrite sync_keys. simpl.
    now rewrite Hp, update_position_keys.
  - unfold _sell.
    pose proof (get_global_positions s1 (Tx.ticker tx)) as Hp.
    destruct (_get_global s1 (Tx.ticker tx)) as [g s2]. simpl in Hp.
    cbn [snd]. rewrite sync_keys. simpl.
    now rewrite update_position_keys, Hp.
  - unfold _split. destruct (Qleb (Tx.quantity tx) ZERO); [reflexivity|].
    match goal with |- context [_get_global ?s0 ?tk] =>
      pose proof (get_global_positions s0 tk) as Hp;
      destruct (_get_global s0 tk) as [g s3] end.
    simpl in Hp. cbn [snd]. rewrite recalc_global_keys. simpl.
    now rewrite Hp, update_position_keys.
  - unfold _inplit. destruct (Qleb (Tx.quantity tx) ZERO); [reflexivity|].
    cbn [snd]. now rewrite recalc_global_keys, update_position_keys.
  - unfold _bonus.
    match goal with |- context [_get_global ?s0 ?tk] =>
      pose proof (get_global_positions s0 tk) as Hp;
      destruct (_get_global s0 tk) as [g s3] end.
    simpl in Hp. cbn [snd]. rewrite sync_keys. simpl.
    now rewrite Hp, update_position_keys.
Qed.

Lemma reachable_keys_NoDup (s : t) :
  reachable s -> NoDup (dict_keys (_positions s)).
Proof.
  induction 1 as [|s tx _ IH].
  - constructor.
  - rewrite process_keys. now apply ensure_position_NoDup.
Qed.
End Keys.

(* ------------------------------------------------------------------ *)
(** ** SPLIT *)

Section Split.
Import PositionCalculator.

(** What [_recalc_global] leaves: the aggregate of the ticker holds the
    totals over the rows of the ticker, and every such row is synced. *)
Lemma recalc_global_state (s : t) (ticker : string) :
  let tot := recalc_totals ticker (dict_values (_positions s)) in
  let g' := TG.mk (fst tot) (snd tot)
              (if Qltb ZERO (fst tot)
               then round_monetary (snd tot / fst tot) else ZERO) in
  dict_get String.eqb (_globals (_recalc_global s ticker)) ticker = Some g'
  /\ _positions (_recalc_global s ticker)
     = map (fun kv => (fst kv, sync_row ticker g' (snd kv))) (_positions s).
Proof.
  cbv zeta. unfold _recalc_global.
  destruct (recalc_totals ticker (dict_values (_positions s))) as [tq tc].
  pose proof (get_global_positions s ticker) as Hp.
  destruct (_get_global s ticker) as [g s2]. simpl in Hp. cbn [fst snd].
  match goal with
  | |- context [store_global s2 ?tk ?gv] =>
      assert (Hgl : dict_get String.eqb (_globals (store_global s2 tk gv)) tk
                    = Some gv)
        by apply (dict_get_set_same String.eqb_eq)
  end.
  rewrite globals_sync, (positions_sync _ _ Hgl), Hgl.
  cbn [store_global set_globals _positions]. rewrite Hp.
  split; reflexivity.
Qed.

Lemma recalc_fold_no_match (ticker : string) (rows : dict string MP.t)
    (acc : Decimal * Decimal) :
  (forall k p, In (k, p) rows -> MP.ticker p <> ticker) ->
  fold_left
    (fun acc pos =>
       if String.eqb (MP.ticker pos) ticker
       then (round_qty (fst acc + MP.quantity pos),
             round_monetary (snd acc + MP.total_cost pos))
       else acc)
    (dict_values rows) acc = acc.
Proof.
  revert acc. induction rows as [|[k p] rows IH]; intros acc H; simpl;
    [reflexivity|].
  assert (E : String.eqb (MP.ticker p) ticker = false).
  { apply String.eqb_neq. apply (H k p). now left. }
  rewrite E. apply IH. intros k' p' Hin. apply (H k' p'). now right.
Qed.

Lemma recalc_fold_single (ticker key : string) (rows : dict string MP.t)
    (pos : MP.t) (acc : Decimal * Decimal) :
  NoDup (dict_keys rows) ->
  dict_get String.eqb rows key = Some pos ->
  MP.ticker pos = ticker ->
  (forall k p, In (k, p) rows -> MP.ticker p = ticker -> k = key) ->
  fold_left
    (fun acc pos =>
       if String.eqb (MP.ticker pos) ticker
       then (round_qty (fst acc + MP.quantity pos),
             round_monetary (snd acc + MP.total_cost pos))
       else acc)
    (dict_values rows) acc
  = (round_qty (fst acc + MP.quantity pos),
     round_monetary (snd acc + MP.total_cost pos)).
Proof.
  revert acc.
  induction rows as [|[k p] rows IH]; intros acc Hnd Hk Ht Honly;
    [discriminate Hk|].
  simpl in Hk |- *. inversion Hnd as [|? ? Hnot Hnd']; subst.
  destruct (String.eqb k key) eqn:Ek.
  - injection Hk as ->. apply String.eqb_eq in Ek. subst k.
    rewrite String.eqb_refl. rewrite recalc_fold_no_match; [reflexivity|].
    intros k' p' Hin Htk. apply Hnot.
    assert (k' = key) by (apply (Honly k' p'); [now right | exact Htk]).
    subst k'. change key with (fst (key, p')). now apply in_map.
  - assert (E : String.eqb (MP.ticker p) (MP.ticker pos) = false).
    { apply String.eqb_neq. intro Htk.
      assert (k = key) by (apply (Honly k p); [now left | exact Htk]).
      subst k. rewrite String.eqb_refl in Ek. discriminate. }
    rewrite E. apply IH; try assumption; try reflexivity.
    intros k' p' Hin. apply Honly. now right.
Qed.

(** The totals of a ticker held in a single row. *)
Lemma recalc_totals_single (ticker key : string) (rows : dict string MP.t)
    (pos : MP.t) :
  NoDup (dict_keys rows) ->
  dict_get String.eqb rows key = Some pos ->
  MP.ticker pos = ticker ->
  (forall k p, In (k, p) rows -> MP.ticker p = ticker -> k = key) ->
  recalc_totals ticker (dict_values rows)
  = (round_qty (ZERO + MP.quantity pos),
     round_monetary (ZERO + MP.total_cost pos)).
Proof.
  intros Hnd Hk Ht Honly. unfold recalc_totals.
  exact (@recalc_fold_single ticker key rows pos (ZERO, ZERO) Hnd Hk Ht Honly).
Qed.
Lemma dict_set_In (V : Type) (d : dict string V) (key k : string) (v p : V) :
  In (k, p) (dict_set String.eqb d key v) -> (k = key /\ p = v) \/ In (k, p) d.
Proof.
  induction d as [|[k0 v0] d IH]; simpl.
  - intros [H | []]. injection H as <- <-. now left.
  - destruct (String.eqb k0 key) eqn:E; simpl.
    + apply String.eqb_eq in E. subst k0. intros [H | H].
      * injection H as <- <-. now left.
      * right. now right.
    + intros [H | H]; [right; now left|].
      destruct (IH H) as [H' | H']; [now left | right; now right].
Qed.

(** The state [process] leaves after a SPLIT with a positive factor on
    an existing row: the row is rescaled, the aggregate of the ticker is
    recomputed over the rows, every row of the ticker is synced. *)
Lemma process_split_state (s : t) (tx : Tx.t) (pos : MP.t) :
  Tx.type tx = SPLIT ->
  0 < Tx.quantity tx ->
  dict_get String.eqb (_positions s)
    (position_key (Tx.ticker tx) (Tx.institution tx)) = Some pos ->
  let rows1 :=
    dict_set String.eqb (_positions s)
      (position_key (Tx.ticker tx) (Tx.institution tx))
      (MP.set_quantity pos (round_qty (MP.quantity pos * Tx.quantity tx))) in
  let tot := recalc_totals (Tx.ticker tx) (dict_values rows1) in
  let g' := TG.mk (fst tot) (snd tot)
              (if Qltb ZERO (fst tot)
               then round_monetary (snd tot / fst tot) else ZERO) in
  dict_get String.eqb (_globals (snd (process s tx))) (Tx.ticker tx) = Some g'
  /\ _positions (snd (process s tx))
     = map (fun kv => (fst kv, sync_row (Tx.ticker tx) g' (snd kv))) rows1.
Proof.
  intros Ht Hf Hk. cbv zeta. unfold process. rewrite Ht.
  rewrite (ensure_position_present s _ tx Hk). unfold _split.
  assert (E : Qleb (Tx.quantity tx) ZERO = false) by now apply Qleb_false.
  rewrite E.
  set (key := position_key (Tx.ticker tx) (Tx.institution tx)) in *.
  set (f := fun pos0 : MP.t =>
              MP.set_quantity pos0 (round_qty (MP.quantity pos0 * Tx.quantity tx))).
  pose proof (get_global_positions (update_position s key f) (Tx.ticker tx)) as Hp.
  rewrite (positions_update_position s key f Hk) in Hp.
  destruct (_get_global (update_position s key f) (Tx.ticker tx)) as [g s3].
  simpl in Hp. cbn [snd].
  match goal with
  | |- context [_recalc_global ?s0 ?tk] =>
      destruct (recalc_global_state s0 tk) as [Hg' Hp'];
      cbv zeta in Hg', Hp'
  end.
  cbn [store_global set_globals _positions] in Hg', Hp'.
  rewrite Hp in Hg', Hp'. split; [exact Hg' | exact Hp'].
Qed.

Lemma resync_cost_bound (c q : Q) :
  0 < q ->
  let a := round_monetary (c / q) in
  c - (q + 1) * (1 # 200) <= round_monetary (q * a)
  /\ round_monetary (q * a) <= c + (q + 1) * (1 # 200).
Proof.
  intros Hq a.
  destruct (round_monetary_bounds (c / q)) as [Alo Ahi]. fold a in Alo, Ahi.
  destruct (round_monetary_bounds (q * a)) as [Clo Chi].
  assert (E : c / q * q == c) by (field; lra).
  assert (H1 : (a - (1 # 200)) * q <= c / q * q)
    by (apply Qmult_le_compat_r; lra).
  assert (H2 : c / q * q <= (a + (1 # 200)) * q)
    by (apply Qmult_le_compat_r; lra).
  rewrite E in H1, H2. split; lra.
Qed.

(** X26.  For every SPLIT with factor [f > 0] processed on an existing
    row of the ticker, in a reachable state: the
    row's quantity becomes [round_qty (quantity * f)]; the row carries the
    recomputed global average, and its total cost is not held but
    recomputed as [round_monetary (new quantity * new average)].  When
    the row is the only row of the ticker and its new quantity is
    positive, the new average is [round_monetary (prior cost / new
    quantity)], that is the prior cost per share scaled by [1/f] within
    rounding, and the row's total cost stays within
    [0.005 * (new quantity + 1)] of the prior cost. *)
Theorem split_rescales_row (s : t) (tx : Tx.t) (pos : MP.t) :
  reachable s ->
  Tx.type tx = SPLIT ->
  0 < Tx.quantity tx ->
  dict_get String.eqb (_positions s)
    (position_key (Tx.ticker tx) (Tx.institution tx)) = Some pos ->
  MP.ticker pos = Tx.ticker tx ->
  let key := position_key (Tx.ticker tx) (Tx.institution tx) in
  let s' := snd (process s tx) in
  exists pos' g',
    dict_get String.eqb (_positions s') key = Some pos'
    /\ dict_get String.eqb (_globals s') (Tx.ticker tx) = Some g'
    /\ MP.quantity pos' = round_qty (MP.quantity pos * Tx.quantity tx)
    /\ MP.avg_price pos' = TG.avg_price g'
    /\ MP.total_cost pos'
       = (if Qltb ZERO (MP.quantity pos')
          then round_monetary (MP.quantity pos' * TG.avg_price g') else ZERO)
    /\ ((forall k p, In (k, p) (_positions s) ->
                     MP.ticker p = Tx.ticker tx -> k = key) ->
        0 < MP.quantity pos' ->
        TG.quantity g' = MP.quantity pos'
        /\ TG.total_cost g' == MP.total_cost pos
        /\ TG.avg_price g'
           == round_monetary (MP.total_cost pos / MP.quantity pos')
        /\ MP.total_cost pos - (MP.quantity pos' + 1) * (1 # 200)
           <= MP.total_cost pos'
        /\ MP.total_cost pos'
           <= MP.total_cost pos + (MP.quantity pos' + 1) * (1 # 200)).
Proof.
  intros Hr Ht Hf Hk Htk. cbv zeta.
  destruct (process_split_state s tx Ht Hf Hk) as [Hg' Hp'].
  cbv zeta in Hg', Hp'.
  set (key := position_key (Tx.ticker tx) (Tx.institution tx)) in *.
  set (q' := round_qty (MP.quantity pos * Tx.quantity tx)) in *.
  set (rows1 := dict_set String.eqb (_positions s) key (MP.set_quantity pos q')) in *.
  set (tot := recalc_totals (Tx.ticker tx) (dict_values rows1)) in *.
  eexists. eexists. split.
  { rewrite Hp', dict_get_map_values. unfold rows1.
    rewrite (dict_get_set_same String.eqb_eq). reflexivity. }
  split; [exact Hg'|].
  unfold sync_row. cbn [MP.ticker MP.set_quantity]. rewrite Htk, String.eqb_refl.
  cbn [MP.quantity MP.avg_price MP.total_cost MP.set_total_cost MP.set_avg_price
       MP.set_quantity TG.quantity TG.total_cost TG.avg_price].
  do 3 (split; [reflexivity|]).
  intros Honly Hpos.
  pose proof (reachable_quantized Hr) as Hq.
  assert (Hrow : row_quantized pos) by exact (Forall_dict_get _ _ (proj1 Hq) Hk).
  assert (Htot : tot = (round_qty (ZERO + q'),
                        round_monetary (ZERO + MP.total_cost pos))).
  { unfold tot.
    apply (@recalc_totals_single (Tx.ticker tx) key rows1 (MP.set_quantity pos q')).
    - unfold rows1. apply (dict_set_NoDup String.eqb_eq).
      now apply reachable_keys_NoDup.
    - unfold rows1. apply (dict_get_set_same String.eqb_eq).
    - exact Htk.
    - intros k p Hin Hp. unfold rows1 in Hin.
      apply dict_set_In in Hin. destruct Hin as [[Hkk _] | Hin'];
        [exact Hkk | exact (Honly k p Hin' Hp)]. }
  assert (Eq : round_qty (ZERO + q') = q').
  { assert (E : ZERO + q' == q') by (unfold ZERO; ring).
    rewrite E. unfold q', round_qty. apply quantize_idem. }
  assert (Ec : round_monetary (ZERO + MP.total_cost pos) == MP.total_cost pos).
  { assert (E : ZERO + MP.total_cost pos == MP.total_cost pos)
      by (unfold ZERO; ring).
    rewrite E. apply quantize_quantized. exact (proj2 (proj2 Hrow)). }
  rewrite Htot. cbn [fst snd]. rewrite Eq.
  assert (Elt : Qltb ZERO q' = true) by (apply Qltb_true; exact Hpos).
  rewrite Elt.
  assert (Ea : round_monetary
                 (round_monetary (ZERO + MP.total_cost pos) / q')
               = round_monetary (MP.total_cost pos / q')) by now rewrite Ec.
  rewrite Ea.
  split; [reflexivity|]. split; [exact Ec|]. split; [reflexivity|].
  exact (resync_cost_bound (MP.total_cost pos) Hpos).
Qed.

Lemma split_rescales_row_witness :
  exists pos' g',
    dict_get String.eqb
      (_positions (snd (process (replay [sample_tx BUY 100 40 "XP"])
                          (sample_tx SPLIT 2 0 "XP"))))
      (position_key "PETR4" "XP") = Some pos'
    /\ dict_get String.eqb
         (_globals (snd (process (replay [sample_tx BUY 100 40 "XP"])
                           (sample_tx SPLIT 2 0 "XP"))))
         "PETR4"%string = Some g'
    /\ MP.quantity pos' == 200
    /\ TG.avg_price g' == 20
    /\ 4000 - (201 # 200) <= MP.total_cost pos'
    /\ MP.total_cost pos' <= 4000 + (201 # 200).
Proof.
  destruct (@split_rescales_row (replay [sample_tx BUY 100 40 "XP"])
              (sample_tx SPLIT 2 0 "XP")
              (MP.mk "PETR4" ACAO BRL "XP"
                 (10000000000 # 100000000) (4000 # 100) (400000 # 100))
              (replay_reachable _) eq_refl eq_refl eq_refl eq_refl)
    as [pos' [g' [Hp [Hg [Hq [_ [_ Hsingle]]]]]]].
  assert (Honly : forall k p,
             In (k, p) (_positions (replay [sample_tx BUY 100 40 "XP"])) ->
             MP.ticker p = "PETR4"%string -> k = position_key "PETR4" "XP").
  { intros k p [H | []] _. injection H as <- _. reflexivity. }
  assert (Hpos : 0 < MP.quantity pos')
    by (rewrite Hq; vm_compute; reflexivity).
  destruct (Hsingle Honly Hpos) as [_ [_ [Ha [Hlo Hhi]]]].
  exists pos', g'. split; [exact Hp|]. split; [exact Hg|].
  split; [rewrite Hq; vm_compute; reflexivity|].
  split; [rewrite Ha, Hq; vm_compute; reflexivity|].
  rewrite Hq in Hlo, Hhi. split.
  - eapply Qle_trans; [|exact Hlo]. vm_compute. discriminate.
  - eapply Qle_trans; [exact Hhi|]. vm_compute. discriminate.
Defined.

(** C5.  On an input the engine accepts, a SPLIT does not hold the
    total cost of the row.  After BUY 3 @ 10.00 the row holds 3 shares at
    a total cost of 30.00; a SPLIT with factor 7 scales the quantity to 21
    and the average to 1.43 (10.00 / 7 within rounding), and then moves the
    total cost of the row to 30.03, the quantity 21 times the rounded
    average 1.43, where the claim says the total cost is exactly unchanged
    and the comment in [_split] says "total_cost stays the same". *)
Lemma C5_split_moves_cost :
  let s := replay [sample_tx BUY 3 10 "XP"] in
  let s' := snd (process s (sample_tx SPLIT 7 0 "XP")) in
  exists pos pos',
    dict_get String.eqb (_positions s) (position_key "PETR4" "XP") = Some pos
    /\ dict_get String.eqb (_positions s') (position_key "PETR4" "XP") = Some pos'
    /\ MP.total_cost pos == 30
    /\ MP.total_cost pos' == 3003 # 100
    /\ ~ MP.total_cost pos' == MP.total_cost pos
    /\ MP.quantity pos == 3
    /\ MP.quantity pos' == 21
    /\ MP.avg_price pos == 10
    /\ MP.avg_price pos' == 143 # 100.
Proof.
  cbv zeta. do 2 eexists.
  do 2 (split; [vm_compute; reflexivity|]).
  do 2 (split; [reflexivity|]).
  split; [vm_compute; intro H; discriminate H|].
  do 3 (split; [vm_compute; reflexivity|]).
  vm_compute. reflexivity.
Qed.
End Split.

(* ------------------------------------------------------------------ *)
(** ** The cached average price of the rows *)

Section AveragePriceSync.
Import PositionCalculator.

Lemma recalc_global_other (s : t) (ticker t' : string) :
  ticker <> t' ->
  dict_get String.eqb (_globals (_recalc_global s ticker)) t'
  = dict_get String.eqb (_globals s) t'.
Proof.
  intro Hne. unfold _recalc_global.
  destruct (recalc_totals ticker (dict_values (_positions s))) as [tq tc].
  pose proof (get_global_other s Hne) as Ho.
  destruct (_get_global s ticker) as [g s2]. simpl in Ho.
  rewrite globals_sync. cbn [store_global set_globals _globals].
  now rewrite (dict_get_set_other String.eqb_eq).
Qed.

Lemma positions_update_position_ext (s s0 : t) (key : string)
    (f : MP.t -> MP.t) :
  _positions s = _positions s0 ->
  _positions (update_position s key f) = _positions (update_position s0 key f).
Proof.
  intro H. unfold update_position. rewrite H.
  destruct (dict_get String.eqb (_positions s0) key); simpl;
    [reflexivity | exact H].
Qed.

(** Either [process] stops after creating the row, or it rewrites the row
    of the key without touching its ticker and institution, stores a new
    aggregate for the ticker of the transaction and no other, and syncs
    every row of that ticker. *)
Lemma process_shape (s : t) (tx : Tx.t) :
  let key := position_key (Tx.ticker tx) (Tx.institution tx) in
  let s1 := ensure_position s key tx in
  snd (process s tx) = s1
  \/ exists (F : MP.t -> MP.t) (g' : TG.t),
       (forall p, MP.ticker (F p) = MP.ticker p
                  /\ MP.institution (F p) = MP.institution p)
       /\ _positions (snd (process s tx))
          = map (fun kv => (fst kv, sync_row (Tx.ticker tx) g' (snd kv)))
              (_positions (update_position s1 key F))
       /\ dict_get String.eqb (_globals (snd (process s tx))) (Tx.ticker tx)
          = Some g'
       /\ (forall t', Tx.ticker tx <> t' ->
             dict_get String.eqb (_globals (snd (process s tx))) t'
             = dict_get String.eqb (_globals s) t').
Proof.
  cbv zeta. unfold process.
  set (key := position_key (Tx.ticker tx) (Tx.institution tx)).
  set (s1 := ensure_position s key tx).
  assert (Hs1 : _globals s1 = _globals s) by apply ensure_position_globals.
  destruct (Tx.type tx); try (left; reflexivity).
  - (* BUY *)
    right. unfold _buy.
    match goal with |- context [update_position s1 key ?f] => set (F := f) end.
    pose proof (get_global_positions (update_position s1 key F) (Tx.ticker tx)) as Hp.
    pose proof (fun t' H => @get_global_other (update_position s1 key F)
                              (Tx.ticker tx) t' H) as Ho.
    destruct (_get_global (update_position s1 key F) (Tx.ticker tx)) as [g s3].
    simpl in Hp, Ho. cbn [snd].
    match goal with
    | |- context [store_global s3 ?tk ?gv] =>
        assert (Hgl : dict_get String.eqb (_globals (store_global s3 tk gv)) tk
                      = Some gv)
          by apply (dict_get_set_same String.eqb_eq);
        exists F, gv
    end.
    split; [intro p; split; reflexivity|].
    rewrite globals_sync, (positions_sync _ _ Hgl).
    cbn [store_global set_globals _positions _globals].
    split; [now rewrite Hp|]. split; [exact Hgl|].
    intros t' Hne. rewrite (dict_get_set_other String.eqb_eq) by exact Hne.
    now rewrite (Ho t' Hne), globals_update_position, Hs1.
  - (* SELL *)
    right. unfold _sell.
    pose proof (get_global_positions s1 (Tx.ticker tx)) as Hp.
    pose proof (fun t' H => @get_global_other s1 (Tx.ticker tx) t' H) as Ho.
    destruct (_get_global s1 (Tx.ticker tx)) as [g s2].
    simpl in Hp, Ho. cbn [snd].
    match goal with |- context [update_position s2 key ?f] => set (F := f) end.
    match goal with
    | |- context [store_global ?s0 ?tk ?gv] =>
        assert (Hgl : dict_get String.eqb (_globals (store_global s0 tk gv)) tk
                      = Some gv)
          by apply (dict_get_set_same String.eqb_eq);
        exists F, gv
    end.
    split.
    { intro p. unfold F. cbv beta.
      destruct (Qleb (round_qty (MP.quantity p - Tx.quantity tx)) ZERO);
        split; reflexivity. }
    rewrite globals_sync, (positions_sync _ _ Hgl).
    cbn [store_global set_globals _positions _globals].
    split; [now rewrite (@positions_update_position_ext s2 s1 key F Hp)|].
    split; [exact Hgl|].
    intros t' Hne. rewrite (dict_get_set_other String.eqb_eq) by exact Hne.
    now rewrite globals_update_position, (Ho t' Hne), Hs1.
  - (* SPLIT *)
    unfold _split. destruct (Qleb (Tx.quantity tx) ZERO); [left; reflexivity|].
    right.
    match goal with |- context [update_position s1 key ?f] => set (F := f) end.
    pose proof (get_global_positions (update_position s1 key F) (Tx.ticker tx)) as Hp.
    pose proof (fun t' H => @get_global_other (update_position s1 key F)
                              (Tx.ticker tx) t' H) as Ho.
    destruct (_get_global (update_position s1 key F) (Tx.ticker tx)) as [g s3].
    simpl in Hp, Ho. cbn [snd].
    match goal with
    | |- context [_recalc_global ?s0 ?tk] =>
        destruct (recalc_global_state s0 tk) as [Hg' Hp'];
        cbv zeta in Hg', Hp';
        pose proof (fun t' H => @recalc_global_other s0 tk t' H) as Hro
    end.
    cbn [store_global set_globals _positions _globals] in Hg', Hp', Hro.
    rewrite Hp in Hg', Hp'.
    exists F. eexists. split; [intro p; split; reflexivity|].
    split; [exact Hp'|]. split; [exact Hg'|].
    intros t' Hne. rewrite (Hro t' Hne).
    rewrite (dict_get_set_other String.eqb_eq) by exact Hne.
    now rewrite (Ho t' Hne), globals_update_position, Hs1.
  - (* INPLIT *)
    unfold _inplit. destruct (Qleb (Tx.quantity tx) ZERO); [left; reflexivity|].
    right. cbn [snd].
    match goal with |- context [update_position s1 key ?f] => set (F := f) end.
    destruct (recalc_global_state (update_position s1 key F) (Tx.ticker tx))
      as [Hg' Hp'].
    cbv zeta in Hg', Hp'.
    exists F. eexists. split; [intro p; split; reflexivity|].
    split; [exact Hp'|]. split; [exact Hg'|].
    intros t' Hne. rewrite (recalc_global_other _ Hne).
    now rewrite globals_update_position, Hs1.
  - (* BONUS *)
    right. unfold _bonus.
    match goal with |- context [update_position s1 key ?f] => set (F := f) end.
    pose proof (get_global_positions (update_position s1 key F) (Tx.ticker tx)) as Hp.
    pose proof (fun t' H => @get_global_other (update_position s1 key F)
                              (Tx.ticker tx) t' H) as Ho.
    destruct (_get_global (update_position s1 key F) (Tx.ticker tx)) as [g s3].
    simpl in Hp, Ho. cbn [snd].
    match goal with
    | |- context [store_global s3 ?tk ?gv] =>
        assert (Hgl : dict_get String.eqb (_globals (store_global s3 tk gv)) tk
                      = Some gv)
          by apply (dict_get_set_same String.eqb_eq);
        exists F, gv
    end.
    split; [intro p; split; reflexivity|].
    rewrite globals_sync, (positions_sync _ _ Hgl).
    cbn [store_global set_globals _positions _globals].
    split; [now rewrite Hp|]. split; [exact Hgl|].
    intros t' Hne. rewrite (dict_get_set_other String.eqb_eq) by exact Hne.
    now rewrite (Ho t' Hne), globals_update_position, Hs1.
Qed.
(** A key determines the ticker when tickers hold no [@]. *)
Lemma position_key_ticker (t1 i1 t2 i2 : string) :
  contains_at t1 = false -> contains_at t2 = false ->
  position_key t1 i1 = position_key t2 i2 -> t1 = t2.
Proof.
  unfold position_key. revert t2.
  induction t1 as [|c1 t1 IH]; intros [|c2 t2] H1 H2 E; simpl in *.
  - reflexivity.
  - injection E as Ec _. subst c2. discriminate H2.
  - injection E as Ec _. subst c1. discriminate H1.
  - injection E as Ec E. subst c2.
    apply orb_false_iff in H1. apply orb_false_iff in H2.
    f_equal. apply IH; tauto.
Qed.

Lemma sync_row_identity (ticker : string) (g : TG.t) (p : MP.t) :
  MP.ticker (sync_row ticker g p) = MP.ticker p
  /\ MP.institution (sync_row ticker g p) = MP.institution p
  /\ MP.quantity (sync_row ticker g p) = MP.quantity p.
Proof.
  unfold sync_row. destruct (String.eqb (MP.ticker p) ticker);
    repeat split; reflexivity.
Qed.

Lemma In_map_values (V : Type) (f : V -> V) (d : dict string V) (k : string)
    (v' : V) :
  In (k, v') (map (fun kv => (fst kv, f (snd kv))) d) ->
  exists v, In (k, v) d /\ v' = f v.
Proof.
  intro H. apply in_map_iff in H. destruct H as [[k0 v0] [E Hin]].
  simpl in E. injection E as -> <-. now exists v0.
Qed.

Lemma update_position_In (s : t) (key : string) (F : MP.t -> MP.t)
    (k : string) (p : MP.t) :
  In (k, p) (_positions (update_position s key F)) ->
  (exists p0, k = key /\ p = F p0
              /\ dict_get String.eqb (_positions s) key = Some p0)
  \/ In (k, p) (_positions s).
Proof.
  unfold update_position.
  destruct (dict_get String.eqb (_positions s) key) as [p0|] eqn:E;
    [|now right].
  simpl. intro H. apply dict_set_In in H. destruct H as [[-> ->] | H].
  - left. now exists p0.
  - now right.
Qed.

Lemma ensure_position_In (s : t) (key : string) (tx : Tx.t) (k : string)
    (p : MP.t) :
  In (k, p) (_positions (ensure_position s key tx)) ->
  In (k, p) (_positions s)
  \/ (k = key
      /\ p = MP.init (Tx.ticker tx) (Tx.asset_class tx) (Tx.currency tx)
                (Tx.institution tx)).
Proof.
  unfold ensure_position.
  destruct (dict_get String.eqb (_positions s) key) eqn:E; [now left|].
  simpl. rewrite (dict_set_fresh _ _ _ E). intro H.
  apply in_app_or in H. destruct H as [H | [H | []]]; [now left|].
  injection H as <- <-. now right.
Qed.

Lemma ensure_position_consistent (s : t) (tx : Tx.t) :
  keys_consistent s -> contains_at (Tx.ticker tx) = false ->
  keys_consistent
    (ensure_position s (position_key (Tx.ticker tx) (Tx.institution tx)) tx).
Proof.
  intros [Hnd Hrows] Hat. split; [now apply ensure_position_NoDup|].
  intros k p Hin. apply ensure_position_In in Hin.
  destruct Hin as [Hin | [-> ->]]; [now apply Hrows|].
  split; [reflexivity | exact Hat].
Qed.

Lemma row_under_key (s : t) (tx : Tx.t) (pos : MP.t) :
  keys_consistent s -> contains_at (Tx.ticker tx) = false ->
  dict_get String.eqb (_positions s)
    (position_key (Tx.ticker tx) (Tx.institution tx)) = Some pos ->
  MP.ticker pos = Tx.ticker tx.
Proof.
  intros [_ Hrows] Hat Hk. apply (dict_get_In String.eqb_eq) in Hk.
  destruct (Hrows _ _ Hk) as [Ekey Hp].
  symmetry. eapply position_key_ticker; [exact Hat | exact Hp | exact Ekey].
Qed.

Lemma process_consistent (s : t) (tx : Tx.t) :
  keys_consistent s -> contains_at (Tx.ticker tx) = false ->
  keys_consistent (snd (process s tx)).
Proof.
  intros Hc Hat.
  pose proof (ensure_position_consistent tx Hc Hat) as Hc1.
  destruct (process_shape s tx) as [E | [F [g' [HF [Hp _]]]]];
    [now rewrite E|].
  split.
  - rewrite process_keys. exact (proj1 Hc1).
  - intros k p' Hin. rewrite Hp in Hin. apply In_map_values in Hin.
    destruct Hin as [p [Hin ->]].
    destruct (sync_row_identity (Tx.ticker tx) g' p) as [Et [Ei _]].
    rewrite Et, Ei. apply update_position_In in Hin.
    destruct Hin as [[p0 [-> [-> Hk]]] | Hin].
    + destruct (HF p0) as [-> ->].
      apply (proj2 Hc1). now apply (dict_get_In String.eqb_eq).
    + now apply (proj2 Hc1).
Qed.

Lemma process_synced (s : t) (tx : Tx.t) :
  keys_consistent s -> contains_at (Tx.ticker tx) = false ->
  (forall t0, avg_price_synced s t0) ->
  forall t0, avg_price_synced (snd (process s tx)) t0.
Proof.
  intros Hc Hat Hsync t0.
  pose proof (ensure_position_consistent tx Hc Hat) as Hc1.
  set (key := position_key (Tx.ticker tx) (Tx.institution tx)) in *.
  destruct (process_shape s tx) as [E | [F [g' [HF [Hp [Hg Ho]]]]]].
  - rewrite E. intros k p Hin Ht Hq. fold key in Hin.
    apply ensure_position_In in Hin. destruct Hin as [Hin | [_ ->]].
    + rewrite ensure_position_globals. exact (Hsync t0 k p Hin Ht Hq).
    + simpl in Hq. unfold ZERO in Hq. exfalso. exact (Qlt_irrefl 0 Hq).
  - intros k p' Hin Ht Hq. rewrite Hp in Hin. apply In_map_values in Hin.
    destruct Hin as [p [Hin ->]].
    destruct (sync_row_identity (Tx.ticker tx) g' p) as [Et [_ Eq]].
    rewrite Et in Ht. rewrite Eq in Hq.
    destruct (String.eqb (MP.ticker p) (Tx.ticker tx)) eqn:Etk.
    + apply String.eqb_eq in Etk. exists g'.
      split; [rewrite <- Ht, Etk; exact Hg|].
      unfold sync_row. apply String.eqb_eq in Etk. rewrite Etk. reflexivity.
    + assert (Hne : Tx.ticker tx <> t0).
      { intro H. rewrite Ht, <- H in Etk.
        rewrite String.eqb_refl in Etk. discriminate. }
      unfold sync_row. rewrite Etk. rewrite (Ho t0 Hne).
      fold key in Hin. apply update_position_In in Hin.
      destruct Hin as [[p0 [-> [-> Hk]]] | Hin].
      * exfalso. destruct (HF p0) as [HFt _].
        rewrite HFt in Ht. apply Hne. rewrite <- Ht. symmetry.
        exact (row_under_key tx Hc1 Hat Hk).
      * apply ensure_position_In in Hin. destruct Hin as [Hin | [_ ->]].
        -- exact (Hsync t0 k p Hin Ht Hq).
        -- simpl in Hq. unfold ZERO in Hq. exfalso. exact (Qlt_irrefl 0 Hq).
Qed.

(** The invariant of the cached average price, for every state reached
    by transactions whose tickers hold no [@]: every row with a positive
    quantity carries the average price of the aggregate of its ticker. *)
Lemma avg_price_synced_without_at (s : t) :
  reachable_without_at s ->
  keys_consistent s /\ forall t0, avg_price_synced s t0.
Proof.
  induction 1 as [|s tx _ [Hc Hs] Hat].
  - split; [split; [constructor | intros k p []] | intros t0 k p []].
  - split; [now apply process_consistent | now apply process_synced].
Qed.

(** The invariant right after a call of [process], for the ticker of the
    transaction and any transaction type, when no ticker holds an [@]. *)
Lemma process_syncs_affected_ticker (s : t) (tx : Tx.t) :
  reachable_without_at s ->
  contains_at (Tx.ticker tx) = false ->
  avg_price_synced (snd (process s tx)) (Tx.ticker tx).
Proof.
  intros Hr Hat.
  apply avg_price_synced_without_at. now constructor.
Qed.
End AveragePriceSync.

(* ------------------------------------------------------------------ *)
(** ** Colliding keys *)

Section KeyCollision.
Import PositionCalculator.

(** C4.  The invariant of the cached average price does not hold in every
    reachable state: the key ["A@B@C"] is built both for ticker ["A@B"] at
    institution ["C"] and for ticker ["A"] at institution ["B@C"].  After
    BUY 100 @ 30.00 of A@B at D, a DIVIDEND of A@B at C (which creates the
    row of A@B at C) and BUY 10 @ 5.00 of A at B@C (which finds that row
    under its key and adds the shares to it, then syncs ticker A only), a
    DIVIDEND of A@B at D returns with a row of ticker A@B that holds 10
    shares and the cached average price 0 while the aggregate of A@B has
    the average price 30.00. *)
Theorem C4_key_collision_breaks_sync :
  let s := replay [sample_tx_of "A@B" BUY 100 30 "D";
                   sample_tx_of "A@B" DIVIDEND 1 1 "C";
                   sample_tx_of "A" BUY 10 5 "B@C"] in
  let s' := snd (process s (sample_tx_of "A@B" DIVIDEND 1 1 "D")) in
  reachable s
  /\ (exists pos g,
        In ("A@B@C"%string, pos) (_positions s')
        /\ MP.ticker pos = "A@B"%string
        /\ MP.quantity pos == 10
        /\ dict_get String.eqb (_globals s') "A@B"%string = Some g
        /\ MP.avg_price pos == 0
        /\ TG.avg_price g == 30)
  /\ ~ avg_price_synced s' "A@B".
Proof.
  cbv zeta. split; [apply replay_reachable|]. split.
  - do 2 eexists. split; [vm_compute; right; left; reflexivity|].
    repeat split; vm_compute; reflexivity.
  - intro H.
    destruct (H "A@B@C"%string
                (MP.mk "A@B" ACAO BRL "C" (1000000000 # 100000000) 0 (5000 # 100)))
      as [g [Hg Ha]].
    + vm_compute. right. left. reflexivity.
    + reflexivity.
    + reflexivity.
    + vm_compute in Hg. injection Hg as <-. discriminate Ha.
Qed.
End KeyCollision.

(* ================================================================== *)
(** * Further properties of the code *)

(* ------------------------------------------------------------------ *)
(** ** Rounding helpers *)

Lemma Qmake_le_step (a b : Z) (s : positive) :
  (a < b)%Z -> (a # s) + (1 # s) <= b # s.
Proof.
  intro H. rewrite (Qmake_scale a), (Qmake_scale b).
  assert (Hq : inject_Z a + 1 <= inject_Z b).
  { change 1 with (inject_Z 1). rewrite <- inject_Z_plus, <- Zle_Qle. lia. }
  assert (Hs : 0 < 1 # s) by reflexivity.
  assert (E : inject_Z a * (1 # s) + (1 # s) == (inject_Z a + 1) * (1 # s)) by ring.
  rewrite E. apply Qmult_le_compat_r; [exact Hq | now apply Qlt_le_weak].
Qed.

(** X1.  [round_monetary] returns a whole number of cents, at most half a
    cent away from its argument, and no other amount in cents is closer. *)
Theorem round_monetary_nearest_cent (x : Decimal) :
  quantized MONETARY_PRECISION (round_monetary x)
  /\ Qabs (round_monetary x - x) <= 1 # 200
  /\ forall z : Z, Qabs (round_monetary x - x) <= Qabs ((z # 100) - x).
Proof.
  destruct (round_monetary_bounds x) as [Blo Bhi].
  split; [apply quantized_quantize|].
  assert (Hd : Qabs (round_monetary x - x) <= 1 # 200).
  { apply Qabs_case; intros _; lra. }
  split; [exact Hd|]. intro z.
  set (r := round_half_up (x * (100 # 1))).
  assert (Er : round_monetary x = r # 100) by reflexivity.
  destruct (Z.lt_trichotomy z r) as [Hlt | [-> | Hgt]].
  - pose proof (Qmake_le_step 100 Hlt) as Hstep. rewrite <- Er in Hstep.
    apply Qle_trans with (1 # 200); [exact Hd|].
    apply Qabs_case; intros Hs; lra.
  - rewrite Er. apply Qle_refl.
  - pose proof (Qmake_le_step 100 Hgt) as Hstep. rewrite <- Er in Hstep.
    apply Qle_trans with (1 # 200); [exact Hd|].
    apply Qabs_case; intros Hs; lra.
Qed.

(** X2.  [ROUND_HALF_UP] at any precision: an argument half a quantum
    above the multiple [z] of the quantum, [z >= 0], is rounded up to the
    multiple [z + 1], and its opposite down to [-(z + 1)]: ties go away
    from zero. *)
Theorem quantize_ties_away_from_zero (scale : positive) (z : Z) :
  (0 <= z)%Z ->
  quantize scale ((2 * z + 1) # (2 * scale)) == (z + 1) # scale
  /\ quantize scale (- ((2 * z + 1) # (2 * scale))) == - ((z + 1) # scale).
Proof.
  intro Hz.
  assert (H : quantize scale ((2 * z + 1) # (2 * scale)) == (z + 1) # scale).
  { unfold quantize.
    assert (E : ((2 * z + 1) # (2 * scale)) * (Z.pos scale # 1)
                == inject_Z z + (1 # 2)).
    { unfold Qeq, Qmult, Qplus, inject_Z. cbn [Qnum Qden].
      rewrite !Pos2Z.inj_mul. ring. }
    rewrite E. unfold round_half_up.
    assert (Hpos : Qle_bool 0 (inject_Z z + (1 # 2)) = true).
    { apply Qle_bool_iff. rewrite Zle_Qle in Hz.
      change (inject_Z 0) with 0 in Hz. lra. }
    rewrite Hpos.
    assert (E2 : inject_Z z + (1 # 2) + (1 # 2) == inject_Z (z + 1)).
    { rewrite inject_Z_plus. change (inject_Z 1) with 1. ring. }
    rewrite E2, Qfloor_Z. reflexivity. }
  split; [exact H|]. rewrite quantize_opp, H. reflexivity.
Qed.

Lemma quantize_ties_away_from_zero_witness :
  round_monetary (5 # 1000) == 1 # 100
  /\ round_monetary (- (5 # 1000)) == - (1 # 100).
Proof.
  destruct (quantize_ties_away_from_zero 100 (z := 0)) as [H1 H2]; [lia|].
  split; [exact H1 | exact H2].
Defined.

(** X3.  Rounding at any precision is monotone, commutes with the
    opposite, and leaves a rounded value alone. *)
Theorem quantize_monotone_odd_idempotent (scale : positive) (x y : Decimal) :
  (x <= y -> quantize scale x <= quantize scale y)
  /\ quantize scale (- x) == - quantize scale x
  /\ quantize scale (quantize scale x) = quantize scale x.
Proof.
  split; [apply quantize_mono|]. split; [apply quantize_opp|].
  apply quantize_idem.
Qed.

Lemma quantize_monotone_odd_idempotent_witness :
  round_qty (1 # 3) <= round_qty (2 # 3).
Proof.
  apply (quantize_monotone_odd_idempotent QTY_PRECISION (1 # 3) (2 # 3)).
  unfold Qle. simpl. lia.
Defined.

(* ------------------------------------------------------------------ *)
(** ** Money *)

Lemma Currency_eqb_eq (a b : Currency) : Currency_eqb a b = true <-> a = b.
Proof. destruct a, b; simpl; split; intro H; congruence. Qed.

(** X4.  Adding two [Money] values of one currency succeeds and is exact:
    the amount of the sum is the sum of the amounts, with nothing lost to
    the rounding of the constructor; adding or subtracting values of two
    different currencies raises. *)
Theorem Money_add_exact_or_mismatch (a1 a2 : Decimal) (c1 c2 : Currency) :
  let m1 := Money.make a1 c1 in
  let m2 := Money.make a2 c2 in
  (c1 = c2 ->
   exists m, Money.add m1 m2 = Some m
             /\ Money.currency m = c1
             /\ Money.amount m == Money.amount m1 + Money.amount m2)
  /\ (c1 <> c2 -> Money.add m1 m2 = None /\ Money.sub m1 m2 = None).
Proof.
  cbv zeta. split.
  - intros <-. unfold Money.add. simpl.
    assert (E : Currency_eqb c1 c1 = true) by now apply Currency_eqb_eq.
    rewrite E. eexists. split; [reflexivity|]. split; [reflexivity|].
    simpl. apply quantize_quantized.
    apply quantized_plus; apply quantized_quantize.
  - intros Hne. unfold Money.add, Money.sub. simpl.
    destruct (Currency_eqb c1 c2) eqn:E; [|split; reflexivity].
    apply Currency_eqb_eq in E. contradiction.
Qed.

Lemma Money_add_exact_or_mismatch_witness :
  (exists m, Money.add (Money.make (1005 # 1000) BRL) (Money.make 2 BRL) = Some m
             /\ Money.currency m = BRL
             /\ Money.amount m == 301 # 100)
  /\ Money.add (Money.make 1 BRL) (Money.make 1 USD) = None.
Proof.
  split.
  - destruct (Money_add_exact_or_mismatch (1005 # 1000) 2 BRL BRL)
      as [H _].
    destruct (H eq_refl) as [m [Hm [Hc Ha]]].
    exists m. split; [exact Hm|]. split; [exact Hc|].
    rewrite Ha. vm_compute. reflexivity.
  - destruct (Money_add_exact_or_mismatch 1 1 BRL USD) as [_ H].
    apply H. discriminate.
Defined.

(** X5.  Subtraction undoes addition on [Money] values of one currency,
    and negating twice gives the value back. *)
Theorem Money_add_sub_round_trip (a1 a2 : Decimal) (c : Currency) :
  let m1 := Money.make a1 c in
  let m2 := Money.make a2 c in
  (exists m, Money.add m1 m2 = Some m /\ Money.sub m m2 = Some m1)
  /\ Money.neg (Money.neg m1) = m1.
Proof.
  cbv zeta.
  assert (E : Currency_eqb c c = true) by now apply Currency_eqb_eq.
  split.
  - unfold Money.add. simpl. rewrite E. eexists. split; [reflexivity|].
    unfold Money.sub. simpl. rewrite E. unfold Money.make. do 2 f_equal.
    assert (Hs : round_monetary (round_monetary a1 + round_monetary a2)
                 == round_monetary a1 + round_monetary a2).
    { apply quantize_quantized.
      apply quantized_plus; apply quantized_quantize. }
    assert (Hd : round_monetary (round_monetary a1 + round_monetary a2)
                 - round_monetary a2 == round_monetary a1)
      by (rewrite Hs; ring).
    rewrite Hd. apply round_monetary_idem.
  - unfold Money.neg, Money.make. simpl. f_equal.
    assert (Hn : - round_monetary (- round_monetary a1) == round_monetary a1).
    { unfold round_monetary. rewrite quantize_opp.
      setoid_replace (- - quantize MONETARY_PRECISION
                            (quantize MONETARY_PRECISION a1))
        with (quantize MONETARY_PRECISION (quantize MONETARY_PRECISION a1))
        by ring.
      now rewrite quantize_idem. }
    rewrite Hn. apply round_monetary_idem.
Qed.

(* ------------------------------------------------------------------ *)
(** ** Tax engine: grouping, one result per group, signs *)

Section TaxExtras.
Import TaxCalculatorBR.

Lemma group_sales_snoc (srs : list SaleResult.t) (sr : SaleResult.t) :
  group_sales (srs ++ [sr]) = group_append (group_sales srs) sr.
Proof. unfold group_sales. now rewrite fold_left_app. Qed.

Lemma group_sales_lookup (sale_results : list SaleResult.t) (k : group_key) :
  dict_get key_eqb (group_sales sale_results) k
  = match sales_of k sale_results with
    | [] => None
    | sales => Some sales
    end.
Proof.
  induction sale_results as [|sr srs IH] using rev_ind; [reflexivity|].
  rewrite group_sales_snoc. unfold group_append, sales_of.
  rewrite filter_app. simpl.
  destruct (key_eqb (SaleResult.asset_class sr, SaleResult.trade_type sr) k)
    eqn:Ek.
  - apply key_eqb_eq in Ek. subst k.
    rewrite (dict_get_set_same key_eqb_eq). unfold dict_get_default.
    rewrite IH. unfold sales_of.
    destruct (filter _ srs) as [|x xs]; reflexivity.
  - rewrite (dict_get_set_other key_eqb_eq).
    + rewrite IH, app_nil_r. reflexivity.
    + intro H. rewrite H in Ek. rewrite (keq_refl key_eqb_eq) in Ek.
      discriminate.
Qed.

(** X6.  The grouping step of [calculate_monthly_tax] puts under a key
    exactly the sale events of the input that carry this asset class and
    trade type, in input order; a key no sale carries has no group, and
    every group that exists is non-empty. *)
Theorem group_sales_by_key (sale_results : list SaleResult.t) (k : group_key) :
  dict_get key_eqb (group_sales sale_results) k
  = match sales_of k sale_results with
    | [] => None
    | sales => Some sales
    end
  /\ dict_get key_eqb (group_sales sale_results) k <> Some [].
Proof.
  rewrite group_sales_lookup. split; [reflexivity|].
  destruct (sales_of k sale_results); discriminate.
Qed.

Lemma tax_results_of_groups (sale_results : list SaleResult.t) (l : ledger)
    (m : string) :
  fst (calculate_monthly_tax sale_results l m)
  = map (fun kv => fst (tax_group l m (fst kv) (snd kv)))
        (group_sales sale_results).
Proof.
  unfold calculate_monthly_tax, tax_groups.
  now rewrite tax_loop_results by apply group_sales_NoDup.
Qed.

Lemma key_eqb_sym (a b : group_key) : key_eqb a b = key_eqb b a.
Proof.
  destruct (key_eqb a b) eqn:E1, (key_eqb b a) eqn:E2; try reflexivity.
  - apply key_eqb_eq in E1. subst b.
    now rewrite (keq_refl key_eqb_eq) in E2.
  - apply key_eqb_eq in E2. subst b.
    now rewrite (keq_refl key_eqb_eq) in E1.
Qed.

Lemma In_first_appearances (ks : list group_key) (k : group_key) :
  In k (first_appearances ks) <-> In k ks.
Proof.
  induction ks as [|a ks IH]; simpl; [tauto|].
  rewrite filter_In, IH, negb_true_iff. split.
  - intros [H | [H _]]; [now left | now right].
  - intros [H | H]; [now left|].
    destruct (key_eqb a k) eqn:E; [left; now apply key_eqb_eq | right; auto].
Qed.

Example first_appearances_example :
  first_appearances
    [(FII, SWING_TRADE); (ACAO, DAY_TRADE); (FII, SWING_TRADE);
     (ACAO, SWING_TRADE); (ACAO, DAY_TRADE)]
  = [(FII, SWING_TRADE); (ACAO, DAY_TRADE); (ACAO, SWING_TRADE)].
Proof. reflexivity. Qed.

(** A key appended at the end shows up in [first_appearances] only when
    the list did not hold it yet, and then in the last place. *)
Lemma first_appearances_snoc (ks : list group_key) (k : group_key) :
  first_appearances (ks ++ [k])
  = first_appearances ks ++ (if existsb (key_eqb k) ks then [] else [k]).
Proof.
  induction ks as [|a ks IH]; [reflexivity|].
  simpl. rewrite IH, filter_app. f_equal. f_equal.
  destruct (existsb (key_eqb k) ks).
  - now rewrite orb_true_r.
  - rewrite orb_false_r. simpl. rewrite (key_eqb_sym a k).
    now destruct (key_eqb k a).
Qed.

(** The groups dictionary lists the keys in the order in which the sale
    events first show them. *)
Lemma group_sales_keys (sale_results : list SaleResult.t) :
  dict_keys (group_sales sale_results)
  = first_appearances (map sale_key sale_results).
Proof.
  induction sale_results as [|sr srs IH] using rev_ind; [reflexivity|].
  rewrite group_sales_snoc, map_app.
  change (map sale_key [sr]) with [sale_key sr].
  rewrite first_appearances_snoc. unfold group_append. cbv zeta. fold (sale_key sr).
  destruct (dict_get key_eqb (group_sales srs) (sale_key sr)) as [v|] eqn:E.
  - rewrite (dict_set_present _ _ _ E), IH.
    assert (Hin : In (sale_key sr) (map sale_key srs)).
    { apply In_first_appearances. rewrite <- IH.
      apply (dict_get_In key_eqb_eq) in E.
      change (sale_key sr) with (fst (sale_key sr, v)). now apply in_map. }
    assert (Ex : existsb (key_eqb (sale_key sr)) (map sale_key srs) = true).
    { apply existsb_exists. exists (sale_key sr).
      split; [exact Hin | apply (keq_refl key_eqb_eq)]. }
    now rewrite Ex, app_nil_r.
  - rewrite (dict_set_fresh _ _ _ E). unfold dict_keys at 1.
    rewrite map_app. fold (dict_keys (group_sales srs)). rewrite IH. simpl.
    destruct (existsb (key_eqb (sale_key sr)) (map sale_key srs)) eqn:Ex;
      [|reflexivity].
    exfalso. apply existsb_exists in Ex. destruct Ex as [k [Hin Hk]].
    apply key_eqb_eq in Hk. subst k.
    apply (dict_get_None key_eqb_eq) in E. apply E. rewrite IH.
    now apply In_first_appearances.
Qed.

(** X7.  [calculate_monthly_tax] returns exactly one result per group, in
    the order of the groups dictionary, which is the order in which the
    sale events of the input first show each pair of asset class and trade
    type; so no two results share asset class and trade type; and the
    ledger entry of a key that has no group is left as it was. *)
Theorem one_result_per_group (sale_results : list SaleResult.t) (l : ledger)
    (m : string) :
  let out := calculate_monthly_tax sale_results l m in
  map result_key (fst out) = dict_keys (group_sales sale_results)
  /\ map result_key (fst out)
     = first_appearances (map sale_key sale_results)
  /\ NoDup (map result_key (fst out))
  /\ forall k, sales_of k sale_results = [] ->
       dict_get key_eqb (snd out) k = dict_get key_eqb l k.
Proof.
  cbv zeta.
  assert (Hk : map result_key (fst (calculate_monthly_tax sale_results l m))
               = dict_keys (group_sales sale_results)).
  { rewrite tax_results_of_groups. unfold dict_keys. rewrite map_map.
    apply map_ext. intros [k sales]. simpl.
    destruct (tax_group_key l m k sales) as [H1 H2].
    unfold result_key. rewrite H1, H2. now destruct k. }
  split; [exact Hk|].
  split; [rewrite Hk; apply group_sales_keys|].
  split; [rewrite Hk; apply group_sales_NoDup|].
  intros k Hnone. unfold calculate_monthly_tax, tax_groups.
  rewrite tax_loop_ledger by apply group_sales_NoDup.
  now rewrite group_sales_lookup, Hnone.
Qed.

Lemma one_result_per_group_witness :
  dict_get key_eqb
    (snd (calculate_monthly_tax [sample_sale (-500) 25000 FII SWING_TRADE]
            [((ACAO, SWING_TRADE), 300)] "2025-03"))
    (ACAO, SWING_TRADE)
  = Some 300.
Proof.
  destruct (one_result_per_group [sample_sale (-500) 25000 FII SWING_TRADE]
              [((ACAO, SWING_TRADE), 300)] "2025-03") as [_ [_ [_ H]]].
  apply (H (ACAO, SWING_TRADE)). reflexivity.
Defined.

Lemma rate_positive (trade_type : TradeType) : 0 < _rate trade_type.
Proof. destruct trade_type; reflexivity. Qed.

Lemma dmax_zero_nonneg (a : Q) : 0 <= dmax a 0.
Proof.
  unfold dmax. destruct (Qle_bool 0 a) eqn:E; [|apply Qle_refl].
  now apply Qle_bool_iff.
Qed.

Lemma tax_group_signs (l : ledger) (m : string) (k : group_key)
    (sales : list SaleResult.t) :
  let r := fst (tax_group l m k sales) in
  0 <= TaxResult.taxable_gain r /\ 0 <= TaxResult.tax_due r
  /\ 0 <= TaxResult.darf_to_pay r.
Proof.
  cbv zeta. unfold tax_group. destruct k as [ac tt].
  destruct (is_exempt (ac, tt) sales);
    [simpl; repeat split; apply round_monetary_nonneg, Qle_refl|].
  destruct (Qltb (total_gain_brl sales) ZERO);
    [simpl; repeat split; apply round_monetary_nonneg, Qle_refl|].
  destruct (Qltb (round_monetary
                    (total_gain_brl sales
                     - dict_get_default key_eqb l (ac, tt) ZERO)) ZERO) eqn:Et;
    [simpl; repeat split; apply round_monetary_nonneg, Qle_refl|].
  apply Qltb_false in Et. unfold ZERO in Et. simpl.
  split; [now apply round_monetary_nonneg|]. split.
  - do 2 apply round_monetary_nonneg. apply Qmult_le_0_compat; [exact Et|].
    apply Qlt_le_weak, rate_positive.
  - do 2 apply round_monetary_nonneg. apply dmax_zero_nonneg.
Qed.

(** X8.  Whatever the sale events and the ledger, no result of
    [calculate_monthly_tax] carries a negative taxable gain, a negative tax
    due or a negative amount to pay. *)
Theorem tax_results_never_negative (sale_results : list SaleResult.t)
    (l : ledger) (m : string) :
  Forall (fun r => 0 <= TaxResult.taxable_gain r
                   /\ 0 <= TaxResult.tax_due r
                   /\ 0 <= TaxResult.darf_to_pay r)
         (fst (calculate_monthly_tax sale_results l m)).
Proof.
  rewrite tax_results_of_groups. apply Forall_forall. intros r Hin.
  apply in_map_iff in Hin. destruct Hin as [[k sales] [<- _]].
  apply tax_group_signs.
Qed.
Lemma Forall_values_dict_set (K V : Type) (keq : K -> K -> bool)
    (P : V -> Prop) (d : dict K V) (k : K) (v : V) :
  Forall (fun kv => P (snd kv)) d -> P v ->
  Forall (fun kv => P (snd kv)) (dict_set keq d k v).
Proof.
  intros Hd Hv. induction d as [|[k' v'] d IH]; simpl.
  - constructor; [exact Hv | constructor].
  - inversion Hd; subst. destruct (keq k' k); constructor; auto.
Qed.

Lemma Forall_values_get_default (K V : Type) (keq : K -> K -> bool)
    (P : V -> Prop) (d : dict K V) (k : K) (default : V) :
  Forall (fun kv => P (snd kv)) d -> P default ->
  P (dict_get_default keq d k default).
Proof.
  intros Hd Hv. unfold dict_get_default.
  induction d as [|[k' v'] d IH]; simpl; [exact Hv|].
  inversion Hd; subst. destruct (keq k' k); auto.
Qed.

Lemma tax_group_ledger_nonneg (l : ledger) (m : string) (k : group_key)
    (sales : list SaleResult.t) :
  Forall (fun kv => 0 <= snd kv) l ->
  Forall (fun kv => 0 <= snd kv) (snd (tax_group l m k sales)).
Proof.
  intro Hl. unfold tax_group. destruct k as [ac tt].
  destruct (is_exempt (ac, tt) sales); [exact Hl|].
  assert (Hacc : 0 <= dict_get_default key_eqb l (ac, tt) ZERO)
    by exact (Forall_values_get_default key_eqb (fun v => 0 <= v) (ac, tt)
                ZERO Hl (Qle_refl 0)).
  set (acc := dict_get_default key_eqb l (ac, tt) ZERO) in *.
  destruct (Qltb (total_gain_brl sales) ZERO); cbn [snd].
  - apply Forall_values_dict_set; [exact Hl|].
    apply round_monetary_nonneg. unfold dabs.
    pose proof (Qabs_nonneg (total_gain_brl sales)) as Hn.
    set (a := Qabs (total_gain_brl sales)) in *. lra.
  - destruct (Qltb _ ZERO); cbn [snd]; apply Forall_values_dict_set;
      try exact Hl.
    + apply round_monetary_nonneg. apply Qabs_nonneg.
    + apply Qle_refl.
Qed.

(** X9.  A ledger without negative entries comes out of
    [calculate_monthly_tax] without negative entries: a carried loss is
    kept, increased, reduced to the part a gain left over, or reset to
    zero, never turned into a credit. *)
Theorem ledger_never_negative (sale_results : list SaleResult.t)
    (l : ledger) (m : string) :
  Forall (fun kv => 0 <= snd kv) l ->
  Forall (fun kv => 0 <= snd kv) (snd (calculate_monthly_tax sale_results l m)).
Proof.
  unfold calculate_monthly_tax, tax_groups.
  generalize (@nil TaxResult.t) as rs. revert l.
  induction (group_sales sale_results) as [|[k sales] groups IH];
    intros l rs Hl; simpl; [exact Hl|].
  unfold tax_step at 2. simpl.
  pose proof (tax_group_ledger_nonneg m k sales Hl) as H.
  destruct (tax_group l m k sales) as [r l']. simpl in H.
  now apply IH.
Qed.

Lemma ledger_never_negative_witness :
  Forall (fun kv : group_key * Decimal => 0 <= snd kv)
    (snd (calculate_monthly_tax
            [sample_sale 500 25000 ACAO SWING_TRADE;
             sample_sale (-700) 3000 FII DAY_TRADE]
            [((ACAO, SWING_TRADE), 2000)] "2025-03")).
Proof.
  apply ledger_never_negative.
  constructor; [|constructor]. simpl. unfold Qle. simpl. lia.
Defined.

Lemma not_stock_swing_not_exempt (k : group_key) (sales : list SaleResult.t) :
  k <> (ACAO, SWING_TRADE) -> is_exempt k sales = false.
Proof.
  intro H. unfold is_exempt. destruct k as [[] []]; try reflexivity.
  contradiction.
Qed.

(** The iteration of a group that is not exempt, closes the month
    without a loss and whose gain is not absorbed by the carried loss. *)
Lemma tax_group_taxable (l : ledger) (m : string) (k : group_key)
    (sales : list SaleResult.t) :
  is_exempt k sales = false ->
  Qltb (total_gain_brl sales) ZERO = false ->
  Qltb (round_monetary (total_gain_brl sales
                        - dict_get_default key_eqb l k ZERO)) ZERO = false ->
  let acc := dict_get_default key_eqb l k ZERO in
  let taxable := round_monetary (total_gain_brl sales - acc) in
  let tax_due := round_monetary (taxable * _rate (snd k)) in
  let irrf := _compute_irrf (snd k) (total_proceeds_brl sales)
                (total_gain_brl sales) in
  tax_group l m k sales
  = (TaxResult.make m (fst k) (snd k) (total_gain_brl sales) acc taxable
       (_rate (snd k)) tax_due irrf
       (round_monetary (dmax (tax_due - irrf) ZERO)) ZERO,
     dict_set key_eqb l k ZERO).
Proof.
  intros Hex Hg Ht. cbv zeta. unfold tax_group. destruct k as [ac tt].
  rewrite Hex, Hg, Ht. reflexivity.
Qed.

(** X10.  The monthly exemption is for swing-trade stock only: any other
    group (another asset class, or day trade) with a gain and no loss
    carried in is taxed on the whole gain at the rate of its trade type,
    also when its proceeds are below 20000.00. *)
Theorem other_groups_never_exempt (sale_results : list SaleResult.t)
    (l : ledger) (m : string) (k : group_key) (sales : list SaleResult.t) :
  k <> (ACAO, SWING_TRADE) ->
  dict_get key_eqb (group_sales sale_results) k = Some sales ->
  0 <= total_gain_brl sales ->
  dict_get_default key_eqb l k ZERO == 0 ->
  exists r,
    result_of (fst (calculate_monthly_tax sale_results l m)) k r
    /\ TaxResult.taxable_gain r == total_gain_brl sales
    /\ TaxResult.tax_rate r = _rate (snd k)
    /\ TaxResult.tax_due r
       == round_monetary (total_gain_brl sales * _rate (snd k)).
Proof.
  intros Hk Hgrp Hgain Hacc.
  destruct (calculate_monthly_tax_group sale_results l m _ Hgrp) as [Hr _].
  cbv zeta in Hr. eexists. split; [exact Hr|].
  assert (Et : round_monetary (total_gain_brl sales
                               - dict_get_default key_eqb l k ZERO)
               == total_gain_brl sales).
  { rewrite Hacc.
    setoid_replace (total_gain_brl sales - 0) with (total_gain_brl sales)
      by ring.
    apply quantize_quantized, total_gain_brl_quantized. }
  rewrite tax_group_taxable.
  - simpl. rewrite !round_monetary_idem. split; [exact Et|].
    split; [reflexivity|]. now rewrite Et.
  - now apply not_stock_swing_not_exempt.
  - apply Qltb_false. exact Hgain.
  - apply Qltb_false. unfold ZERO. now rewrite Et.
Qed.

Lemma other_groups_never_exempt_witness :
  exists r,
    result_of
      (fst (calculate_monthly_tax [sample_sale 500 15000 FII SWING_TRADE]
              [] "2025-03"))
      (FII, SWING_TRADE) r
    /\ TaxResult.taxable_gain r == 500
    /\ TaxResult.tax_due r == 75.
Proof.
  destruct (@other_groups_never_exempt
              [sample_sale 500 15000 FII SWING_TRADE] [] "2025-03"
              (FII, SWING_TRADE) [sample_sale 500 15000 FII SWING_TRADE])
    as [r [Hr [Ht [_ Hd]]]].
  - discriminate.
  - reflexivity.
  - vm_compute. discriminate.
  - reflexivity.
  - exists r. split; [exact Hr|]. split.
    + rewrite Ht. vm_compute. reflexivity.
    + rewrite Hd. vm_compute. reflexivity.
Defined.
#[export] Instance dmax_comp : Proper (Qeq ==> Qeq ==> Qeq) dmax.
Proof.
  intros a b Hab c d Hcd. unfold dmax. rewrite Hab, Hcd.
  destruct (Qle_bool d b); assumption.
Qed.

Lemma compute_irrf_quantized (trade_type : TradeType) (proceeds gain : Decimal) :
  quantized 100 (_compute_irrf trade_type proceeds gain).
Proof.
  unfold _compute_irrf. destruct (TradeType_eqb trade_type DAY_TRADE).
  - destruct (Qltb ZERO gain); [apply quantized_quantize | apply quantized_zero].
  - apply quantized_quantize.
Qed.

Lemma dmax_quantized (s : positive) (a b : Decimal) :
  quantized s a -> quantized s b -> quantized s (dmax a b).
Proof. intros Ha Hb. unfold dmax. destruct (Qle_bool b a); assumption. Qed.

(** X11.  For a group that is not exempt, with a gain of the month that
    covers the loss carried in (an amount in cents): the carried loss is
    used up, so the ledger entry and the loss carried out become zero; the
    taxable gain is the gain minus the loss carried in; the tax due is that
    amount times the rate of the trade type, rounded to cents; the
    withholding is the one [_compute_irrf] gives; and the amount to pay is
    the tax due minus the withholding, or zero when the withholding is
    larger.  When the withholding is not negative the amount to pay does
    not exceed the tax due. *)
Theorem gain_consumes_carried_loss (sale_results : list SaleResult.t)
    (l : ledger) (m : string) (k : group_key) (sales : list SaleResult.t) :
  dict_get key_eqb (group_sales sale_results) k = Some sales ->
  is_exempt k sales = false ->
  quantized 100 (dict_get_default key_eqb l k ZERO) ->
  0 <= total_gain_brl sales ->
  dict_get_default key_eqb l k ZERO <= total_gain_brl sales ->
  let out := calculate_monthly_tax sale_results l m in
  let acc := dict_get_default key_eqb l k ZERO in
  let gain := total_gain_brl sales in
  exists r v,
    result_of (fst out) k r
    /\ dict_get key_eqb (snd out) k = Some v
    /\ v == 0
    /\ TaxResult.accumulated_loss_after r == 0
    /\ TaxResult.taxable_gain r == gain - acc
    /\ TaxResult.tax_due r == round_monetary ((gain - acc) * _rate (snd k))
    /\ TaxResult.irrf_withheld r
       == _compute_irrf (snd k) (total_proceeds_brl sales) gain
    /\ TaxResult.darf_to_pay r
       == dmax (TaxResult.tax_due r - TaxResult.irrf_withheld r) 0
    /\ (0 <= TaxResult.irrf_withheld r ->
        TaxResult.darf_to_pay r <= TaxResult.tax_due r).
Proof.
  intros Hgrp Hex Hq Hgain Hle. cbv zeta.
  destruct (calculate_monthly_tax_group sale_results l m _ Hgrp) as [Hr Hl].
  cbv zeta in Hr, Hl.
  set (acc := dict_get_default key_eqb l k ZERO) in *.
  set (gain := total_gain_brl sales) in *.
  assert (Et : round_monetary (gain - acc) == gain - acc).
  { apply quantize_quantized. apply quantized_minus; [|exact Hq].
    apply total_gain_brl_quantized. }
  assert (Htg : tax_group l m k sales = _) by
    (apply tax_group_taxable;
     [exact Hex
     | apply Qltb_false; exact Hgain
     | apply Qltb_false; fold acc; fold gain; unfold ZERO; rewrite Et; lra]).
  cbv zeta in Htg. fold acc in Htg. fold gain in Htg.
  rewrite Htg in Hr, Hl. cbn [fst snd] in Hr, Hl.
  rewrite (dict_get_set_same key_eqb_eq) in Hl.
  eexists. eexists. split; [exact Hr|]. split; [exact Hl|].
  cbn [TaxResult.make TaxResult.accumulated_loss_after TaxResult.taxable_gain
       TaxResult.tax_due TaxResult.irrf_withheld TaxResult.darf_to_pay].
  rewrite !round_monetary_idem.
  set (irrf := _compute_irrf (snd k) (total_proceeds_brl sales) gain).
  assert (Hirrf : round_monetary irrf == irrf)
    by apply quantize_quantized, compute_irrf_quantized.
  set (td := round_monetary (round_monetary (gain - acc) * _rate (snd k))).
  assert (Hdarf : round_monetary (dmax (td - irrf) ZERO) == dmax (td - irrf) 0).
  { apply quantize_quantized. apply dmax_quantized; [|apply quantized_zero].
    apply quantized_minus; [apply quantized_quantize|].
    apply compute_irrf_quantized. }
  split; [reflexivity|]. split; [reflexivity|]. split; [exact Et|].
  split; [unfold td; now rewrite Et|]. split; [exact Hirrf|].
  split; [now rewrite Hdarf, Hirrf|].
  intro Hpos. rewrite Hdarf. rewrite Hirrf in Hpos.
  assert (Htd : 0 <= td).
  { unfold td. apply round_monetary_nonneg. apply Qmult_le_0_compat.
    - rewrite Et. lra.
    - apply Qlt_le_weak, rate_positive. }
  rewrite dmax_zero_r. destruct (Qltb (td - irrf) 0); lra.
Qed.

Lemma gain_consumes_carried_loss_witness :
  exists r v,
    result_of
      (fst (calculate_monthly_tax [sample_sale 2000 30000 ACAO DAY_TRADE]
              [((ACAO, DAY_TRADE), 500)] "2025-03"))
      (ACAO, DAY_TRADE) r
    /\ dict_get key_eqb
         (snd (calculate_monthly_tax [sample_sale 2000 30000 ACAO DAY_TRADE]
                 [((ACAO, DAY_TRADE), 500)] "2025-03"))
         (ACAO, DAY_TRADE) = Some v
    /\ v == 0
    /\ TaxResult.taxable_gain r == 1500
    /\ TaxResult.tax_due r == 300.
Proof.
  destruct (@gain_consumes_carried_loss
              [sample_sale 2000 30000 ACAO DAY_TRADE]
              [((ACAO, DAY_TRADE), 500)] "2025-03"
              (ACAO, DAY_TRADE) [sample_sale 2000 30000 ACAO DAY_TRADE])
    as [r [v [Hr [Hv [Hz [_ [Ht [Hd _]]]]]]]].
  - reflexivity.
  - reflexivity.
  - exists 50000%Z. reflexivity.
  - vm_compute. discriminate.
  - vm_compute. discriminate.
  - exists r, v. split; [exact Hr|]. split; [exact Hv|]. split; [exact Hz|].
    split.
    + rewrite Ht. vm_compute. reflexivity.
    + rewrite Hd. vm_compute. reflexivity.
Defined.
End TaxExtras.

(* ------------------------------------------------------------------ *)
(** ** SELL: the sale event and the clamping *)

Section SellExtras.
Import PositionCalculator.

(** The state [process] leaves after a SELL: [pos0] is the row of the key
    as the call finds or creates it, [g0] the aggregate of the ticker as
    [_get_global] finds or creates it. *)
Lemma process_sell_state (s : t) (tx : Tx.t) :
  Tx.type tx = SELL ->
  let key := position_key (Tx.ticker tx) (Tx.institution tx) in
  let pos0 := match dict_get String.eqb (_positions s) key with
              | Some pos => pos
              | None => MP.init (Tx.ticker tx) (Tx.asset_class tx)
                          (Tx.currency tx) (Tx.institution tx)
              end in
  let g0 := dict_get_default String.eqb (_globals s) (Tx.ticker tx) TG.init in
  let nq := round_qty (MP.quantity pos0 - Tx.quantity tx) in
  let gq := round_qty (TG.quantity g0 - Tx.quantity tx) in
  let pos1 := if Qleb nq ZERO
              then MP.set_total_cost (MP.set_quantity pos0 ZERO) ZERO
              else MP.set_total_cost (MP.set_quantity pos0 nq)
                     (round_monetary (nq * TG.avg_price g0)) in
  let g' := if Qleb gq ZERO then TG.mk ZERO ZERO ZERO
            else TG.mk gq (round_monetary (gq * TG.avg_price g0))
                   (TG.avg_price g0) in
  dict_get String.eqb (_positions (snd (process s tx))) key
  = Some (sync_row (Tx.ticker tx) g' pos1)
  /\ dict_get String.eqb (_globals (snd (process s tx))) (Tx.ticker tx)
     = Some g'.
Proof.
  intros Ht. cbv zeta. unfold process. rewrite Ht. unfold _sell.
  set (key := position_key (Tx.ticker tx) (Tx.institution tx)).
  pose proof (ensure_position_get s key tx) as Hrow.
  set (s1 := ensure_position s key tx) in *.
  pose proof (get_global_value s1 (Tx.ticker tx)) as Hg.
  pose proof (get_global_positions s1 (Tx.ticker tx)) as Hp.
  unfold s1 in Hg at 2. rewrite ensure_position_globals in Hg.
  destruct (_get_global s1 (Tx.ticker tx)) as [g s2]. simpl in Hg, Hp.
  subst g. cbn [snd].
  set (g0 := dict_get_default String.eqb (_globals s) (Tx.ticker tx) TG.init).
  rewrite <- Hp in Hrow.
  match goal with |- context [update_position s2 key ?f] => set (F := f) end.
  match goal with
  | |- context [store_global ?s0 ?tk ?gv] =>
      assert (Hgl : dict_get String.eqb (_globals (store_global s0 tk gv)) tk
                    = Some gv)
        by apply (dict_get_set_same String.eqb_eq)
  end.
  rewrite globals_sync, (positions_sync _ _ Hgl), Hgl.
  rewrite dict_get_map_values. cbn [store_global set_globals _positions].
  rewrite (positions_update_position s2 key F Hrow).
  rewrite (dict_get_set_same String.eqb_eq). cbn [option_map].
  unfold F. cbn [TG.quantity TG.set_quantity].
  destruct (Qleb (round_qty (TG.quantity g0 - Tx.quantity tx)) ZERO);
    split; reflexivity.
Qed.

(** X12.  A SELL never leaves a deficit.  Whatever quantity is sold, the
    row of the key and the aggregate of the ticker come out with a
    quantity that is not negative; when the quantity left on the row,
    [round_qty (quantity - sold)], is zero or negative the row is clamped
    to quantity zero and total cost zero, and when the quantity left on
    the aggregate is zero or negative the aggregate is clamped to zero
    quantity, zero total cost and zero average price. *)
Theorem sell_never_leaves_deficit (s : t) (tx : Tx.t) :
  Tx.type tx = SELL ->
  let key := position_key (Tx.ticker tx) (Tx.institution tx) in
  let pos0 := match dict_get String.eqb (_positions s) key with
              | Some pos => pos
              | None => MP.init (Tx.ticker tx) (Tx.asset_class tx)
                          (Tx.currency tx) (Tx.institution tx)
              end in
  let g0 := dict_get_default String.eqb (_globals s) (Tx.ticker tx) TG.init in
  let s' := snd (process s tx) in
  exists pos' g',
    dict_get String.eqb (_positions s') key = Some pos'
    /\ dict_get String.eqb (_globals s') (Tx.ticker tx) = Some g'
    /\ 0 <= MP.quantity pos' /\ 0 <= TG.quantity g'
    /\ (round_qty (MP.quantity pos0 - Tx.quantity tx) <= 0 ->
        MP.quantity pos' = ZERO /\ MP.total_cost pos' = ZERO)
    /\ (round_qty (TG.quantity g0 - Tx.quantity tx) <= 0 ->
        g' = TG.mk ZERO ZERO ZERO).
Proof.
  intros Ht. cbv zeta.
  destruct (process_sell_state s tx Ht) as [Hp Hg]. cbv zeta in Hp, Hg.
  eexists. eexists. split; [exact Hp|]. split; [exact Hg|].
  set (pos0 := match dict_get String.eqb (_positions s) _ with
               | Some pos => pos | None => _ end).
  set (g0 := dict_get_default String.eqb (_globals s) (Tx.ticker tx) TG.init).
  destruct (sync_row_identity (Tx.ticker tx)
              (if Qleb (round_qty (TG.quantity g0 - Tx.quantity tx)) ZERO
               then TG.mk ZERO ZERO ZERO
               else TG.mk (round_qty (TG.quantity g0 - Tx.quantity tx))
                      (round_monetary
                         (round_qty (TG.quantity g0 - Tx.quantity tx)
                          * TG.avg_price g0))
                      (TG.avg_price g0))
              (if Qleb (round_qty (MP.quantity pos0 - Tx.quantity tx)) ZERO
               then MP.set_total_cost (MP.set_quantity pos0 ZERO) ZERO
               else MP.set_total_cost
                      (MP.set_quantity pos0
                         (round_qty (MP.quantity pos0 - Tx.quantity tx)))
                      (round_monetary
                         (round_qty (MP.quantity pos0 - Tx.quantity tx)
                          * TG.avg_price g0))))
    as [_ [_ Eq]].
  split; [|split; [|split]].
  - rewrite Eq.
    destruct (Qleb (round_qty (MP.quantity pos0 - Tx.quantity tx)) ZERO) eqn:E.
    + apply Qle_refl.
    + apply Qleb_false in E. unfold ZERO in E. simpl. lra.
  - destruct (Qleb (round_qty (TG.quantity g0 - Tx.quantity tx)) ZERO) eqn:E.
    + apply Qle_refl.
    + apply Qleb_false in E. unfold ZERO in E. simpl. lra.
  - intro Hle.
    assert (E : Qleb (round_qty (MP.quantity pos0 - Tx.quantity tx)) ZERO = true)
      by (apply Qleb_true; exact Hle).
    rewrite E. unfold sync_row.
    destruct (String.eqb _ (Tx.ticker tx)); split; reflexivity.
  - intro Hle.
    assert (E : Qleb (round_qty (TG.quantity g0 - Tx.quantity tx)) ZERO = true)
      by (apply Qleb_true; exact Hle).
    now rewrite E.
Qed.

Lemma sell_never_leaves_deficit_witness :
  exists pos' g',
    dict_get String.eqb
      (_positions (snd (process (replay [sample_tx BUY 100 30 "XP"])
                          (sample_tx SELL 250 25 "XP"))))
      (position_key "PETR4" "XP") = Some pos'
    /\ dict_get String.eqb
         (_globals (snd (process (replay [sample_tx BUY 100 30 "XP"])
                           (sample_tx SELL 250 25 "XP"))))
         "PETR4"%string = Some g'
    /\ MP.quantity pos' = ZERO /\ MP.total_cost pos' = ZERO
    /\ g' = TG.mk ZERO ZERO ZERO.
Proof.
  destruct (sell_never_leaves_deficit
              (replay [sample_tx BUY 100 30 "XP"])
              (sample_tx SELL 250 25 "XP") eq_refl)
    as [pos' [g' [Hp [Hg [_ [_ [Hrow Hglob]]]]]]].
  exists pos', g'. split; [exact Hp|]. split; [exact Hg|].
  assert (H1 : MP.quantity pos' = ZERO /\ MP.total_cost pos' = ZERO)
    by (apply Hrow; vm_compute; discriminate).
  destruct H1 as [Hq Hc]. split; [exact Hq|]. split; [exact Hc|].
  apply Hglob. vm_compute. discriminate.
Defined.

(** X13.  The sale event of a SELL: proceeds are the sold quantity times
    the sale price rounded to cents, the cost of the sold shares is the
    sold quantity times the ticker-global average price found by the call
    (not a value local to the institution) rounded to cents, and the
    gain/loss is exactly proceeds minus cost, with nothing lost to its own
    rounding.  With an FX rate of 1 the BRL amounts the tax engine reads
    are the native ones. *)
Theorem sell_event_arithmetic (s : t) (tx : Tx.t) :
  Tx.type tx = SELL ->
  let g0 := dict_get_default String.eqb (_globals s) (Tx.ticker tx) TG.init in
  exists sr,
    fst (process s tx) = Some sr
    /\ SaleResult.sell_qty sr = Tx.quantity tx
    /\ SaleResult.avg_cost sr = TG.avg_price g0
    /\ SaleResult.proceeds sr = round_monetary (Tx.quantity tx * Tx.price tx)
    /\ SaleResult.cost_of_sold sr
       = round_monetary (Tx.quantity tx * TG.avg_price g0)
    /\ SaleResult.gain_loss sr
       == SaleResult.proceeds sr - SaleResult.cost_of_sold sr
    /\ (Tx.fx_rate tx == 1 ->
        SaleResult.gain_loss_brl sr == SaleResult.gain_loss sr
        /\ SaleResult.proceeds_brl sr == SaleResult.proceeds sr).
Proof.
  intros Ht. cbv zeta. unfold process. rewrite Ht. unfold _sell.
  set (s1 := ensure_position s _ tx).
  pose proof (get_global_value s1 (Tx.ticker tx)) as Hg.
  unfold s1 in Hg at 2. rewrite ensure_position_globals in Hg.
  destruct (_get_global s1 (Tx.ticker tx)) as [g s2]. simpl in Hg. subst g.
  cbn [fst]. eexists. split; [reflexivity|].
  cbn [SaleResult.sell_qty SaleResult.avg_cost SaleResult.proceeds
       SaleResult.cost_of_sold SaleResult.gain_loss].
  do 4 (split; [reflexivity|]).
  assert (Hgl : forall a b, round_monetary (round_monetary a - round_monetary b)
                            == round_monetary a - round_monetary b).
  { intros a b. apply quantize_quantized.
    apply quantized_minus; apply quantized_quantize. }
  split; [apply Hgl|].
  intro Hfx. unfold SaleResult.gain_loss_brl, SaleResult.proceeds_brl.
  cbn [SaleResult.gain_loss SaleResult.proceeds SaleResult.fx_rate].
  rewrite Hfx, !Qmult_1_r. split; [now rewrite round_monetary_idem|].
  now rewrite round_monetary_idem.
Qed.

Lemma sell_event_arithmetic_witness :
  exists sr,
    fst (process (replay [sample_tx BUY 100 30 "XP"])
           (sample_tx SELL 50 25 "XP")) = Some sr
    /\ SaleResult.gain_loss sr == - (250)
    /\ SaleResult.gain_loss_brl sr == - (250).
Proof.
  destruct (sell_event_arithmetic
              (replay [sample_tx BUY 100 30 "XP"])
              (sample_tx SELL 50 25 "XP") eq_refl)
    as [sr [Hsr [_ [_ [Hp [Hc [Hg Hbrl]]]]]]].
  exists sr. split; [exact Hsr|].
  assert (Hgl : SaleResult.gain_loss sr == - (250)).
  { rewrite Hg, Hp, Hc. vm_compute. reflexivity. }
  split; [exact Hgl|].
  destruct (Hbrl (Qeq_refl 1)) as [Hb _]. now rewrite Hb.
Defined.
End SellExtras.

(* ------------------------------------------------------------------ *)
(** ** INPLIT *)

Section Inplit.
Import PositionCalculator.



End Inplit.

(* ------------------------------------------------------------------ *)
(** ** Rows, keys and snapshots *)

Section Snapshots.
Import PositionCalculator.

(** X15.  In every reachable state the snapshot of [get_positions] shows
    the rows of the engine as they are, one per row and in dictionary
    order: quantities have at most eight decimal places, average price and
    total cost are whole cents, so the rounding done by the constructor of
    [Position] changes no value. *)
Theorem get_positions_shows_engine_rows (s : t) :
  reachable s ->
  Forall2
    (fun pos p =>
       Position.ticker p = MP.ticker pos
       /\ Position.institution p = MP.institution pos
       /\ Position.quantity p = MP.quantity pos
       /\ Position.avg_price p == MP.avg_price pos
       /\ Position.total_cost p == MP.total_cost pos
       /\ quantized QTY_PRECISION (Position.quantity p)
       /\ quantized MONETARY_PRECISION (Position.avg_price p)
       /\ quantized MONETARY_PRECISION (Position.total_cost p))
    (dict_values (_positions s)) (get_positions s).
Proof.
  intro Hr. destruct (reachable_quantized Hr) as [Hq _].
  unfold get_positions, dict_values.
  induction (_positions s) as [|[k pos] rows IH]; simpl; [constructor|].
  inversion Hq as [|? ? [Hqty [Ha Hc]] Hq']; subst. simpl in *.
  constructor; [|now apply IH].
  simpl. split; [reflexivity|]. split; [reflexivity|]. split; [reflexivity|].
  split; [now apply quantize_quantized|].
  split; [now apply quantize_quantized|].
  split; [exact Hqty|]. split; apply quantized_quantize.
Qed.

Lemma get_positions_shows_engine_rows_witness :
  Forall2
    (fun pos p =>
       Position.ticker p = MP.ticker pos
       /\ Position.institution p = MP.institution pos
       /\ Position.quantity p = MP.quantity pos
       /\ Position.avg_price p == MP.avg_price pos
       /\ Position.total_cost p == MP.total_cost pos
       /\ quantized QTY_PRECISION (Position.quantity p)
       /\ quantized MONETARY_PRECISION (Position.avg_price p)
       /\ quantized MONETARY_PRECISION (Position.total_cost p))
    (dict_values (_positions (replay [sample_tx BUY 3 10 "XP";
                                      sample_tx SPLIT 7 0 "XP"])))
    (get_positions (replay [sample_tx BUY 3 10 "XP";
                            sample_tx SPLIT 7 0 "XP"])).
Proof.
  apply get_positions_shows_engine_rows. apply replay_reachable.
Defined.

(** X16.  [process] never deletes or reorders a row: after the call the
    keys of the rows are the keys before the call, followed by the key of
    the transaction when it had no row; a snapshot never gets shorter. *)
Theorem process_keeps_rows (s : t) (tx : Tx.t) :
  let key := position_key (Tx.ticker tx) (Tx.institution tx) in
  dict_keys (_positions (snd (process s tx)))
  = dict_keys (_positions s)
    ++ match dict_get String.eqb (_positions s) key with
       | Some _ => []
       | None => [key]
       end
  /\ (List.length (get_positions s)
      <= List.length (get_positions (snd (process s tx))))%nat.
Proof.
  cbv zeta.
  assert (Hk : dict_keys (_positions (snd (process s tx)))
               = dict_keys (_positions s)
                 ++ match dict_get String.eqb (_positions s)
                            (position_key (Tx.ticker tx) (Tx.institution tx)) with
                    | Some _ => []
                    | None => [position_key (Tx.ticker tx) (Tx.institution tx)]
                    end).
  { rewrite process_keys.
    destruct (dict_get String.eqb (_positions s)
                (position_key (Tx.ticker tx) (Tx.institution tx))) eqn:E.
    - rewrite (ensure_position_present s _ tx E). now rewrite app_nil_r.
    - rewrite (ensure_position_absent s _ tx E). unfold dict_keys.
      now rewrite map_app. }
  split; [exact Hk|].
  unfold get_positions, dict_values. rewrite !length_map.
  apply (f_equal (@List.length _)) in Hk. unfold dict_keys in Hk.
  rewrite length_map, length_app, length_map in Hk. lia.
Qed.

Lemma process_keys_own (s : t) (tx : Tx.t) :
  (forall k pos, In (k, pos) (_positions s) ->
     k = position_key (MP.ticker pos) (MP.institution pos)) ->
  forall k pos, In (k, pos) (_positions (snd (process s tx))) ->
    k = position_key (MP.ticker pos) (MP.institution pos).
Proof.
  intros Hown.
  assert (Hown1 : forall k pos,
             In (k, pos) (_positions
                            (ensure_position s
                               (position_key (Tx.ticker tx) (Tx.institution tx))
                               tx)) ->
             k = position_key (MP.ticker pos) (MP.institution pos)).
  { intros k pos Hin. apply ensure_position_In in Hin.
    destruct Hin as [Hin | [-> ->]]; [now apply Hown | reflexivity]. }
  destruct (process_shape s tx) as [E | [F [g' [HF [Hp _]]]]];
    [now rewrite E|].
  intros k p' Hin. rewrite Hp in Hin. apply In_map_values in Hin.
  destruct Hin as [p [Hin ->]].
  destruct (sync_row_identity (Tx.ticker tx) g' p) as [Et [Ei _]].
  rewrite Et, Ei. apply update_position_In in Hin.
  destruct Hin as [[p0 [-> [-> Hk]]] | Hin].
  - destruct (HF p0) as [-> ->].
    apply Hown1. now apply (dict_get_In String.eqb_eq).
  - now apply Hown1.
Qed.

Lemma reachable_keys_own (s : t) :
  reachable s ->
  forall k pos, In (k, pos) (_positions s) ->
    k = position_key (MP.ticker pos) (MP.institution pos).
Proof.
  induction 1 as [|s tx _ IH]; [intros k pos []|].
  now apply process_keys_own.
Qed.

(** X17.  In every reachable state each row is stored under the key made
    of its own ticker and institution, so the [market_key] of the
    positions reported by [get_positions] are the keys of the dictionary:
    no two reported positions share a market key. *)
Theorem market_keys_are_distinct (s : t) :
  reachable s ->
  map Position.market_key (get_positions s) = dict_keys (_positions s)
  /\ NoDup (map Position.market_key (get_positions s)).
Proof.
  intro Hr.
  assert (E : map Position.market_key (get_positions s)
              = dict_keys (_positions s)).
  { pose proof (reachable_keys_own Hr) as Hown.
    unfold get_positions, dict_values, dict_keys. rewrite !map_map.
    apply map_ext_in. intros [k pos] Hin. simpl.
    symmetry. exact (Hown k pos Hin). }
  split; [exact E|]. rewrite E. now apply reachable_keys_NoDup.
Qed.

Lemma market_keys_are_distinct_witness :
  NoDup (map Position.market_key
           (get_positions (replay [sample_tx BUY 100 30 "XP";
                                   sample_tx BUY 50 32 "BTG"]))).
Proof.
  apply market_keys_are_distinct. apply replay_reachable.
Defined.

Lemma string_app_inv_head (a x y : string) :
  (a ++ x)%string = (a ++ y)%string -> x = y.
Proof.
  induction a as [|c a IH]; simpl; intro H; [exact H|].
  injection H as H. now apply IH.
Qed.

(** X18.  The key that [process] builds separates the pairs (ticker,
    institution) whose tickers hold no [@]: two such pairs with the same
    key are the same pair. *)
Theorem position_key_injective (t1 i1 t2 i2 : string) :
  contains_at t1 = false -> contains_at t2 = false ->
  position_key t1 i1 = position_key t2 i2 ->
  t1 = t2 /\ i1 = i2.
Proof.
  intros H1 H2 E.
  assert (Ht : t1 = t2)
    by (eapply position_key_ticker; [exact H1 | exact H2 | exact E]).
  subst t2. split; [reflexivity|].
  unfold position_key in E. apply string_app_inv_head in E.
  now injection E.
Qed.

Lemma position_key_injective_witness :
  "PETR4"%string = "PETR4"%string /\ "XP"%string = "XP"%string.
Proof.
  apply (@position_key_injective "PETR4" "XP" "PETR4" "XP");
    reflexivity.
Defined.

(** X19.  [_build_custodians] drops the closed positions itself, so it
    gives the same custodians for the full snapshot and for the snapshot
    of open positions: one custodian, with a positive quantity, per open
    position. *)
Theorem build_custodians_of_snapshot (s : t) :
  _build_custodians (get_open_positions s) = _build_custodians (get_positions s)
  /\ List.length (_build_custodians (get_positions s))
     = List.length (get_open_positions s)
  /\ Forall (fun c => 0 < PortfolioCustodian.quantity c)
       (_build_custodians (get_positions s)).
Proof.
  unfold _build_custodians, get_open_positions.
  assert (Hf : forall ps : list Position.t,
             filter (fun p => Qltb ZERO (Position.quantity p))
                    (filter Position.is_open ps)
             = filter (fun p => Qltb ZERO (Position.quantity p)) ps).
  { induction ps as [|p ps IH]; simpl; [reflexivity|].
    unfold Position.is_open at 1. unfold ZERO at 2.
    destruct (Qltb 0 (Position.quantity p)) eqn:E; simpl.
    - unfold ZERO at 1. rewrite E. now rewrite IH.
    - exact IH. }
  split; [now rewrite Hf|]. split; [now rewrite length_map|].
  apply Forall_forall. intros c Hin. apply in_map_iff in Hin.
  destruct Hin as [p [<- Hin]]. apply filter_In in Hin. simpl.
  apply Qltb_true. exact (proj2 Hin).
Qed.
End Snapshots.

(* ------------------------------------------------------------------ *)
(** ** Cost of a row, other tickers, purchases *)

Section EngineInvariants.
Import PositionCalculator.

Lemma sync_row_cost_synced (ticker : string) (g : TG.t) (pos : MP.t) :
  cost_synced pos -> cost_synced (sync_row ticker g pos).
Proof.
  intro H. unfold sync_row.
  destruct (String.eqb (MP.ticker pos) ticker); [reflexivity | exact H].
Qed.

Lemma process_cost_synced (s : t) (tx : Tx.t) :
  keys_consistent s -> contains_at (Tx.ticker tx) = false ->
  Forall (fun kv => cost_synced (snd kv)) (_positions s) ->
  Forall (fun kv => cost_synced (snd kv)) (_positions (snd (process s tx))).
Proof.
  intros Hc Hat Hs. rewrite Forall_forall in Hs.
  pose proof (ensure_position_consistent tx Hc Hat) as Hc1.
  assert (Hs1 : forall k p,
             In (k, p) (_positions
                          (ensure_position s
                             (position_key (Tx.ticker tx) (Tx.institution tx))
                             tx)) -> cost_synced p).
  { intros k p Hin. apply ensure_position_In in Hin.
    destruct Hin as [Hin | [_ ->]]; [exact (Hs _ Hin) | reflexivity]. }
  apply Forall_forall. intros [k p'] Hin. simpl.
  destruct (process_shape s tx) as [E | [F [g' [HF [Hp _]]]]].
  - rewrite E in Hin. exact (Hs1 k p' Hin).
  - rewrite Hp in Hin. apply In_map_values in Hin.
    destruct Hin as [p [Hin ->]].
    apply update_position_In in Hin.
    destruct Hin as [[p0 [-> [-> Hk]]] | Hin].
    + unfold sync_row. destruct (HF p0) as [-> _].
      rewrite (row_under_key tx Hc1 Hat Hk), String.eqb_refl. reflexivity.
    + apply sync_row_cost_synced. exact (Hs1 k p Hin).
Qed.

(** X20.  In every state reached by transactions whose tickers hold no
    [@], the total cost of every row is the one derived from its own
    quantity and cached average price: [round_monetary (quantity * average
    price)] when the quantity is positive, zero otherwise. *)
Theorem row_cost_is_quantity_times_average (s : t) :
  reachable_without_at s ->
  Forall (fun kv => cost_synced (snd kv)) (_positions s).
Proof.
  induction 1 as [|s tx Hr IH Hat]; [constructor|].
  apply process_cost_synced; [|exact Hat | exact IH].
  exact (proj1 (avg_price_synced_without_at Hr)).
Qed.

Lemma replay_without_at (txs : list Tx.t) :
  Forall (fun tx => contains_at (Tx.ticker tx) = false) txs ->
  reachable_without_at (replay txs).
Proof.
  unfold replay, process_all.
  assert (H : forall s, reachable_without_at s ->
             Forall (fun tx => contains_at (Tx.ticker tx) = false) txs ->
             reachable_without_at
               (fold_left (fun s0 tx => snd (process s0 tx)) txs s)).
  { induction txs as [|tx txs IH]; intros s Hs Hall; simpl; [exact Hs|].
    inversion Hall; subst. apply IH; [now constructor | assumption]. }
  apply H. constructor.
Qed.

Lemma row_cost_is_quantity_times_average_witness :
  Forall (fun kv => cost_synced (snd kv))
    (_positions (replay [sample_tx BUY 3 10 "XP"; sample_tx SPLIT 7 0 "XP";
                         sample_tx SELL 5 2 "XP"])).
Proof.
  apply row_cost_is_quantity_times_average. apply replay_without_at.
  repeat constructor.
Defined.

(** X21.  A transaction touches its own ticker only.  [process] leaves
    the aggregate of every other ticker as it was, and, in a state reached
    by transactions whose tickers hold no [@], it leaves every row of
    another ticker as it was, under the same key. *)
Theorem other_tickers_untouched (s : t) (tx : Tx.t) (t' : string) :
  Tx.ticker tx <> t' ->
  dict_get String.eqb (_globals (snd (process s tx))) t'
  = dict_get String.eqb (_globals s) t'
  /\ (reachable_without_at s -> contains_at (Tx.ticker tx) = false ->
      forall k pos,
        dict_get String.eqb (_positions s) k = Some pos ->
        MP.ticker pos = t' ->
        dict_get String.eqb (_positions (snd (process s tx))) k = Some pos).
Proof.
  intro Hne. split.
  - destruct (process_shape s tx) as [E | [F [g' [_ [_ [_ Ho]]]]]].
    + rewrite E. now rewrite ensure_position_globals.
    + exact (Ho t' Hne).
  - intros Hr Hat k pos Hk Htk.
    pose proof (proj1 (avg_price_synced_without_at Hr)) as Hc.
    set (key := position_key (Tx.ticker tx) (Tx.institution tx)).
    assert (Hkey : key <> k).
    { intro E. subst k. apply Hne. rewrite <- Htk. symmetry.
      exact (row_under_key tx Hc Hat Hk). }
    assert (Hk1 : dict_get String.eqb
                    (_positions (ensure_position s key tx)) k = Some pos).
    { unfold ensure_position.
      destruct (dict_get String.eqb (_positions s) key); [exact Hk|].
      simpl. now rewrite (dict_get_set_other String.eqb_eq). }
    destruct (process_shape s tx) as [E | [F [g' [_ [Hp _]]]]].
    + rewrite E. exact Hk1.
    + rewrite Hp, dict_get_map_values. fold key.
      assert (Hk2 : dict_get String.eqb
                      (_positions (update_position (ensure_position s key tx)
                                     key F)) k = Some pos).
      { unfold update_position.
        destruct (dict_get String.eqb (_positions (ensure_position s key tx)) key);
          [|exact Hk1].
        simpl. now rewrite (dict_get_set_other String.eqb_eq). }
      rewrite Hk2. simpl. unfold sync_row.
      assert (En : String.eqb (MP.ticker pos) (Tx.ticker tx) = false).
      { apply String.eqb_neq. rewrite Htk. intro E. apply Hne. now symmetry. }
      now rewrite En.
Qed.

Lemma other_tickers_untouched_witness :
  dict_get String.eqb
    (_positions (snd (process (replay [sample_tx_of "VALE3" BUY 10 60 "XP"])
                        (sample_tx BUY 100 30 "XP"))))
    "VALE3@XP"%string
  = Some (MP.mk "VALE3" ACAO BRL "XP" (1000000000 # 100000000) (6000 # 100)
            (60000 # 100)).
Proof.
  destruct (@other_tickers_untouched
              (replay [sample_tx_of "VALE3" BUY 10 60 "XP"])
              (sample_tx BUY 100 30 "XP") "VALE3") as [_ H].
  - discriminate.
  - apply H.
    + apply replay_without_at. repeat constructor.
    + reflexivity.
    + reflexivity.
    + reflexivity.
Defined.
End EngineInvariants.

(* ------------------------------------------------------------------ *)
(** ** No negative quantity, cost or average *)

Section NonNegative.
Import PositionCalculator.

Lemma quantize_nonneg (s : positive) (x : Q) : 0 <= x -> 0 <= quantize s x.
Proof.
  intro H. apply Qle_trans with (quantize s 0).
  - rewrite quantize_zero. apply Qle_refl.
  - now apply quantize_mono.
Qed.

Lemma Qdiv_nonneg (a b : Q) : 0 <= a -> 0 < b -> 0 <= a / b.
Proof. intros Ha Hb. apply Qle_shift_div_l; [exact Hb | lra]. Qed.

Lemma init_row_nonneg (ticker : string) (ac : AssetClass) (cur : Currency)
    (institution : string) :
  row_nonneg (MP.init ticker ac cur institution).
Proof. repeat split; apply Qle_refl. Qed.

Lemma init_global_nonneg : global_nonneg TG.init.
Proof. repeat split; apply Qle_refl. Qed.

Lemma sync_row_nonneg (ticker : string) (g : TG.t) (pos : MP.t) :
  global_nonneg g -> row_nonneg pos -> row_nonneg (sync_row ticker g pos).
Proof.
  intros [_ [Hga _]] [Hq [Ha Hc]]. unfold sync_row.
  destruct (String.eqb (MP.ticker pos) ticker); [|repeat split; assumption].
  repeat split; simpl; try assumption.
  destruct (Qltb ZERO (MP.quantity pos)); [|apply Qle_refl].
  apply quantize_nonneg. now apply Qmult_le_0_compat.
Qed.

Lemma recalc_totals_nonneg (ticker : string) (rows : dict string MP.t) :
  Forall (fun kv => row_nonneg (snd kv)) rows ->
  0 <= fst (recalc_totals ticker (dict_values rows))
  /\ 0 <= snd (recalc_totals ticker (dict_values rows)).
Proof.
  unfold recalc_totals.
  assert (H0 : 0 <= fst (ZERO, ZERO) /\ 0 <= snd (ZERO, ZERO))
    by (split; apply Qle_refl).
  revert H0. generalize (ZERO, ZERO) as acc.
  induction rows as [|[k pos] rows IH]; intros acc Hacc Hrows; simpl;
    [exact Hacc|].
  inversion Hrows as [|? ? [Hq [_ Hc]] Hrows']; subst. cbn [snd] in Hq, Hc.
  apply IH; [|exact Hrows'].
  destruct (String.eqb (MP.ticker pos) ticker); [|exact Hacc].
  destruct acc as [aq ac]. destruct Hacc as [H1 H2]. cbn [fst snd] in *.
  split; apply quantize_nonneg; lra.
Qed.

Lemma update_position_nonneg (s : t) (key : string) (f : MP.t -> MP.t) :
  (forall pos, row_nonneg pos -> row_nonneg (f pos)) ->
  state_nonneg s -> state_nonneg (update_position s key f).
Proof.
  intros Hf [Hp Hg]. unfold update_position.
  destruct (dict_get String.eqb (_positions s) key) as [pos|] eqn:E;
    [|split; assumption].
  split; [|exact Hg]. simpl. apply Forall_dict_set; [exact Hp|].
  apply Hf. exact (Forall_dict_get _ _ Hp E).
Qed.

Lemma get_global_nonneg (s : t) (ticker : string) :
  state_nonneg s ->
  global_nonneg (fst (_get_global s ticker))
  /\ state_nonneg (snd (_get_global s ticker)).
Proof.
  intros [Hp Hg]. unfold _get_global.
  destruct (dict_get String.eqb (_globals s) ticker) as [g|] eqn:E; simpl.
  - split; [exact (Forall_dict_get _ _ Hg E) | split; assumption].
  - split; [exact init_global_nonneg|]. split; [exact Hp|]. simpl.
    apply Forall_dict_set; [exact Hg | exact init_global_nonneg].
Qed.

Lemma store_global_nonneg (s : t) (ticker : string) (g : TG.t) :
  global_nonneg g -> state_nonneg s -> state_nonneg (store_global s ticker g).
Proof.
  intros Hg0 [Hp Hg]. split; [exact Hp|]. simpl. now apply Forall_dict_set.
Qed.

Lemma sync_nonneg (s : t) (ticker : string) :
  state_nonneg s -> state_nonneg (_sync_avg_price s ticker).
Proof.
  intros [Hp Hg]. unfold _sync_avg_price.
  destruct (dict_get String.eqb (_globals s) ticker) as [g|] eqn:E;
    [|split; assumption].
  split; [|exact Hg]. simpl. apply Forall_map_values; [|exact Hp].
  intros pos. apply sync_row_nonneg. exact (Forall_dict_get _ _ Hg E).
Qed.

Lemma recalc_global_nonneg (s : t) (ticker : string) :
  state_nonneg s -> state_nonneg (_recalc_global s ticker).
Proof.
  intros Hs. unfold _recalc_global.
  destruct (recalc_totals_nonneg ticker (proj1 Hs)) as [Hq Hc].
  destruct (recalc_totals ticker (dict_values (_positions s))) as [tq tc].
  destruct (get_global_nonneg ticker Hs) as [Hg Hs2].
  destruct (_get_global s ticker) as [g s2]. simpl in *.
  apply sync_nonneg. apply store_global_nonneg; [|exact Hs2].
  repeat split; simpl; try assumption.
  destruct (Qltb ZERO tq) eqn:E; [|apply Qle_refl].
  apply Qltb_true in E. apply quantize_nonneg. now apply Qdiv_nonneg.
Qed.

Lemma ensure_position_nonneg (s : t) (key : string) (tx : Tx.t) :
  state_nonneg s -> state_nonneg (ensure_position s key tx).
Proof.
  intros [Hp Hg]. unfold ensure_position.
  destruct (dict_get String.eqb (_positions s) key); [split; assumption|].
  split; [|exact Hg]. simpl. apply Forall_dict_set; [exact Hp|].
  apply init_row_nonneg.
Qed.

Lemma dict_set_twice (V : Type) (d : dict string V) (k : string) (v v' : V) :
  dict_set String.eqb (dict_set String.eqb d k v) k v'
  = dict_set String.eqb d k v'.
Proof.
  induction d as [|[k0 v0] d IH]; simpl.
  - now rewrite String.eqb_refl.
  - destruct (String.eqb k0 k) eqn:E; simpl; rewrite E; [reflexivity|].
    now rewrite IH.
Qed.

(** [_recalc_global] in one expression. *)
Lemma recalc_global_eq (s : t) (ticker : string) :
  let tot := recalc_totals ticker (dict_values (_positions s)) in
  _recalc_global s ticker
  = _sync_avg_price
      (mk (_positions s)
          (dict_set String.eqb (_globals s) ticker
             (TG.mk (fst tot) (snd tot)
                (if Qltb ZERO (fst tot)
                 then round_monetary (snd tot / fst tot) else ZERO))))
      ticker.
Proof.
  cbv zeta. unfold _recalc_global.
  destruct (recalc_totals ticker (dict_values (_positions s))) as [tq tc].
  unfold _get_global.
  destruct (dict_get String.eqb (_globals s) ticker) as [g|]; cbn [fst snd].
  - reflexivity.
  - unfold store_global, set_globals. cbn [_globals _positions].
    now rewrite dict_set_twice.
Qed.

(** [_recalc_global] overwrites the three fields of the aggregate: what
    was stored there before does not matter. *)
Lemma recalc_global_ignores_stored (s : t) (ticker : string) (g1 g2 : TG.t) :
  _recalc_global (store_global s ticker g1) ticker
  = _recalc_global (store_global s ticker g2) ticker.
Proof.
  rewrite !recalc_global_eq. unfold store_global, set_globals.
  cbn [_globals _positions]. now rewrite !dict_set_twice.
Qed.

Ltac nonneg_fields :=
  repeat split; simpl;
  repeat match goal with
         | |- 0 <= (if ?b then _ else _) =>
             let E := fresh "E" in destruct b eqn:E
         end;
  try assumption; try apply Qle_refl;
  try (apply quantize_nonneg).

Lemma process_nonneg (s : t) (tx : Tx.t) :
  0 <= Tx.quantity tx -> 0 <= Tx.price tx ->
  state_nonneg s -> state_nonneg (snd (process s tx)).
Proof.
  intros Hqty Hprice Hs. unfold process.
  set (key := position_key (Tx.ticker tx) (Tx.institution tx)).
  assert (Hs1 := ensure_position_nonneg key tx Hs).
  set (s1 := ensure_position s key tx) in *.
  assert (Hcost : 0 <= round_monetary (Tx.quantity tx * Tx.price tx))
    by (apply quantize_nonneg; now apply Qmult_le_0_compat).
  destruct (Tx.type tx) eqn:Ety.
  - (* BUY *)
    unfold _buy.
    match goal with |- context [update_position s1 key ?f] =>
      assert (Hs2 : state_nonneg (update_position s1 key f)) end.
    { apply update_position_nonneg; [|exact Hs1].
      intros pos [Hq [Ha Hc]]. nonneg_fields; lra. }
    destruct (get_global_nonneg (Tx.ticker tx) Hs2) as [Hg Hs3].
    destruct (_get_global _ (Tx.ticker tx)) as [g s3]. simpl in Hg, Hs3.
    cbn [snd]. apply sync_nonneg. apply store_global_nonneg; [|exact Hs3].
    destruct Hg as [Hq [Ha Hc]]. nonneg_fields; try lra.
    apply Qltb_true in E. apply Qdiv_nonneg; [|exact E].
    apply quantize_nonneg. lra.
  - (* SELL *)
    unfold _sell.
    destruct (get_global_nonneg (Tx.ticker tx) Hs1) as [Hg Hs2].
    destruct (_get_global s1 (Tx.ticker tx)) as [g s2]. simpl in Hg, Hs2.
    cbn [snd]. apply sync_nonneg. destruct Hg as [Hq [Ha Hc]].
    apply store_global_nonneg.
    + cbn [TG.quantity TG.set_quantity].
      destruct (Qleb (round_qty (TG.quantity g - Tx.quantity tx)) ZERO) eqn:E.
      * repeat split; apply Qle_refl.
      * apply Qleb_false in E. unfold ZERO in E. repeat split; simpl.
        -- lra.
        -- exact Ha.
        -- apply quantize_nonneg. apply Qmult_le_0_compat; lra.
    + apply update_position_nonneg; [|exact Hs2].
      intros pos [Hq' [Ha' Hc']].
      destruct (Qleb (round_qty (MP.quantity pos - Tx.quantity tx)) ZERO) eqn:E.
      * repeat split; simpl; try apply Qle_refl. exact Ha'.
      * apply Qleb_false in E. unfold ZERO in E. repeat split; simpl.
        -- lra.
        -- exact Ha'.
        -- apply quantize_nonneg. apply Qmult_le_0_compat; lra.
  - (* SPLIT *)
    unfold _split. destruct (Qleb (Tx.quantity tx) ZERO); [exact Hs1|].
    match goal with |- context [update_position s1 key ?f] =>
      assert (Hs2 : state_nonneg (update_position s1 key f)) end.
    { apply update_position_nonneg; [|exact Hs1].
      intros pos [Hq [Ha Hc]]. nonneg_fields.
      now apply Qmult_le_0_compat. }
    destruct (get_global_nonneg (Tx.ticker tx) Hs2) as [Hg Hs3].
    destruct (_get_global _ (Tx.ticker tx)) as [g s3]. simpl in Hg, Hs3.
    cbn [snd]. rewrite (recalc_global_ignores_stored s3 (Tx.ticker tx) _ g).
    apply recalc_global_nonneg. now apply store_global_nonneg.
  - (* INPLIT *)
    unfold _inplit.
    destruct (Qleb (Tx.quantity tx) ZERO) eqn:Ef; [exact Hs1|].
    apply Qleb_false in Ef. unfold ZERO in Ef.
    cbn [snd]. apply recalc_global_nonneg.
    apply update_position_nonneg; [|exact Hs1].
    intros pos [Hq [Ha Hc]]. nonneg_fields. now apply Qdiv_nonneg.
  - exact Hs1.
  - exact Hs1.
  - (* BONUS *)
    unfold _bonus.
    match goal with |- context [update_position s1 key ?f] =>
      assert (Hs2 : state_nonneg (update_position s1 key f)) end.
    { apply update_position_nonneg; [|exact Hs1].
      intros pos [Hq [Ha Hc]]. nonneg_fields; lra. }
    destruct (get_global_nonneg (Tx.ticker tx) Hs2) as [Hg Hs3].
    destruct (_get_global _ (Tx.ticker tx)) as [g s3]. simpl in Hg, Hs3.
    cbn [snd]. apply sync_nonneg. apply store_global_nonneg; [|exact Hs3].
    destruct Hg as [Hq [Ha Hc]]. nonneg_fields; try lra.
    apply Qltb_true in E. now apply Qdiv_nonneg.
Qed.

(** X22.  When no transaction carries a negative quantity or a negative
    price, no row and no ticker-global aggregate ever holds a negative
    quantity, a negative total cost or a negative average price: selling
    more than is held clamps to zero, it does not record a deficit. *)
Theorem never_negative (s : t) : reachable_nonneg s -> state_nonneg s.
Proof.
  induction 1 as [|s tx _ IH Hq Hp].
  - split; constructor.
  - now apply process_nonneg.
Qed.

Lemma never_negative_witness :
  state_nonneg (snd (process (snd (process init (sample_tx BUY 100 30 "XP")))
                       (sample_tx SELL 250 25 "XP"))).
Proof.
  apply never_negative.
  apply reachable_nonneg_step;
    [apply reachable_nonneg_step; [constructor | |] | |];
    vm_compute; discriminate.
Defined.
End NonNegative.

(* ------------------------------------------------------------------ *)
(** ** BUY *)

Section Buy.
Import PositionCalculator.

(** X23.  A BUY returns no sale event, adds the bought quantity and the
    cost [round_monetary (quantity * price)] to the aggregate of the
    ticker, and recomputes the global average price as total cost divided
    by total quantity, rounded to cents (zero when the quantity is not
    positive), so the average is within half a cent of the exact ratio.
    Every row of that ticker, at whatever institution, comes out carrying
    this one average price, with its total cost derived from it. *)
Theorem buy_updates_every_institution (s : t) (tx : Tx.t) :
  Tx.type tx = BUY ->
  let g0 := dict_get_default String.eqb (_globals s) (Tx.ticker tx) TG.init in
  let gq := round_qty (TG.quantity g0 + Tx.quantity tx) in
  let gc := round_monetary
              (TG.total_cost g0
               + round_monetary (Tx.quantity tx * Tx.price tx)) in
  let s' := snd (process s tx) in
  fst (process s tx) = None
  /\ exists g',
       dict_get String.eqb (_globals s') (Tx.ticker tx) = Some g'
       /\ TG.quantity g' = gq /\ TG.total_cost g' = gc
       /\ TG.avg_price g'
          = (if Qltb ZERO gq then round_monetary (gc / gq) else ZERO)
       /\ (0 < gq -> Qabs (TG.avg_price g' - gc / gq) <= 1 # 200)
       /\ forall k p, In (k, p) (_positions s') ->
            MP.ticker p = Tx.ticker tx ->
            MP.avg_price p = TG.avg_price g' /\ cost_synced p.
Proof.
  intros Ht. cbv zeta. unfold process. rewrite Ht. unfold _buy.
  set (key := position_key (Tx.ticker tx) (Tx.institution tx)).
  set (s1 := ensure_position s key tx).
  match goal with |- context [update_position s1 key ?f] => set (F := f) end.
  pose proof (get_global_value (update_position s1 key F) (Tx.ticker tx)) as Hg.
  pose proof (get_global_positions (update_position s1 key F) (Tx.ticker tx)) as Hp.
  rewrite globals_update_position in Hg. unfold s1 in Hg at 2.
  rewrite ensure_position_globals in Hg.
  destruct (_get_global (update_position s1 key F) (Tx.ticker tx)) as [g s3].
  simpl in Hg, Hp. subst g. cbn [fst snd]. split; [reflexivity|].
  set (g0 := dict_get_default String.eqb (_globals s) (Tx.ticker tx) TG.init).
  match goal with
  | |- context [store_global s3 ?tk ?gv] =>
      assert (Hgl : dict_get String.eqb (_globals (store_global s3 tk gv)) tk
                    = Some gv)
        by apply (dict_get_set_same String.eqb_eq);
      exists gv
  end.
  rewrite globals_sync, (positions_sync _ _ Hgl).
  split; [exact Hgl|].
  cbn [TG.quantity TG.total_cost TG.avg_price TG.set_quantity
       TG.set_total_cost TG.set_avg_price].
  do 3 (split; [reflexivity|]). split.
  - intro Hpos.
    assert (E : Qltb ZERO (round_qty (TG.quantity g0 + Tx.quantity tx)) = true)
      by (apply Qltb_true; exact Hpos).
    rewrite E.
    match goal with |- Qabs (round_monetary ?x - _) <= _ =>
      destruct (round_monetary_bounds x) as [Blo Bhi] end.
    apply Qabs_case; intros _; lra.
  - intros k p' Hin Htk. apply In_map_values in Hin.
    destruct Hin as [p [_ ->]].
    match type of Htk with
    | MP.ticker (sync_row ?tk ?gv ?p0) = _ =>
        destruct (sync_row_identity tk gv p0) as [Et _]
    end.
    rewrite Et in Htk. unfold sync_row. rewrite Htk, String.eqb_refl.
    split; reflexivity.
Qed.

Lemma buy_updates_every_institution_witness :
  exists g',
    dict_get String.eqb
      (_globals (snd (process (replay [sample_tx BUY 100 30 "XP"])
                        (sample_tx BUY 50 36 "BTG")))) "PETR4"%string
    = Some g'
    /\ TG.avg_price g' == 32
    /\ forall k p,
         In (k, p)
            (_positions (snd (process (replay [sample_tx BUY 100 30 "XP"])
                                (sample_tx BUY 50 36 "BTG")))) ->
         MP.ticker p = "PETR4"%string ->
         MP.avg_price p = TG.avg_price g'.
Proof.
  destruct (buy_updates_every_institution
              (replay [sample_tx BUY 100 30 "XP"])
              (sample_tx BUY 50 36 "BTG") eq_refl)
    as [_ [g' [Hg [_ [_ [Ha [_ Hrows]]]]]]].
  exists g'. split; [exact Hg|]. split.
  - rewrite Ha. vm_compute. reflexivity.
  - intros k p Hin Htk. exact (proj1 (Hrows k p Hin Htk)).
Defined.
End Buy.

(* ------------------------------------------------------------------ *)
(** ** The replay loop of the rebuild *)

Section Rebuild.
Import PositionCalculator.

Lemma process_event (s : t) (tx : Tx.t) :
  match Tx.type tx with
  | SELL => exists sr, fst (process s tx) = Some sr /\ sale_of_tx tx sr
  | _ => fst (process s tx) = None
  end.
Proof.
  unfold process.
  set (s1 := ensure_position s _ tx).
  destruct (Tx.type tx); try reflexivity.
  - unfold _buy. destruct (_get_global _ (Tx.ticker tx)). reflexivity.
  - unfold _sell. destruct (_get_global s1 (Tx.ticker tx)). cbn [fst].
    eexists. split; [reflexivity|]. repeat split.
  - unfold _split. destruct (Qleb (Tx.quantity tx) ZERO); [reflexivity|].
    destruct (_get_global _ (Tx.ticker tx)). reflexivity.
  - unfold _inplit. destruct (Qleb (Tx.quantity tx) ZERO); reflexivity.
  - unfold _bonus. destruct (_get_global _ (Tx.ticker tx)). reflexivity.
Qed.

Lemma rebuild_fold (txs : list Tx.t) (calc : t) (sales : list SaleResult.t) :
  exists events,
    fold_left rebuild_step txs (calc, sales)
    = (process_all calc txs, sales ++ events)
    /\ Forall2 sale_of_tx (filter is_sell txs) events.
Proof.
  revert calc sales. induction txs as [|tx txs IH]; intros calc sales.
  - exists []. split; [now rewrite app_nil_r | constructor].
  - simpl. unfold rebuild_step at 2. cbn [fst snd].
    pose proof (process_event calc tx) as Hev. unfold is_sell.
    destruct (process calc tx) as [sr calc'] eqn:Ep. cbn [fst snd] in *.
    destruct (Tx.type tx);
      try (subst sr; destruct (IH calc' sales) as [ev [E F2]];
           exists ev; split; [exact E | exact F2]).
    destruct Hev as [sale [-> Hsale]].
    destruct (IH calc' (sales ++ [sale])) as [ev [E F2]].
    exists (sale :: ev). split.
    + rewrite E, <- app_assoc. reflexivity.
    + now constructor.
Qed.

(** X24.  The replay loop of the rebuild leaves the calculator in the
    state reached by processing the transactions in order, and collects
    exactly one sale event per SELL transaction, in the order of the
    transactions, each reporting the ticker, date, trade type, asset class,
    quantity, price, currency and FX rate of its SELL; no other
    transaction type yields an event. *)
Theorem rebuild_collects_one_event_per_sell (txs : list Tx.t) :
  fst (rebuild_positions txs) = replay txs
  /\ Forall2 sale_of_tx (filter is_sell txs) (snd (rebuild_positions txs)).
Proof.
  unfold rebuild_positions, replay.
  destruct (rebuild_fold txs init []) as [ev [E F2]].
  rewrite E. split; [reflexivity | exact F2].
Qed.
End Rebuild.
